(** * parsec: the agent's Retrieve handler and the scheduler's measurement loop

    A shallow embedding of [pkg/server/server_retrieve.go] (the HTTP handler
    [Server.retrieve]) and of [ScheduleAction] (the coordinator's readiness
    barrier and provide/retrieve loop), with the properties the specification
    states about them.

    Further parts embed the proxy [Client.Retrieve] and, from
    [pkg/server/server.go], [NewServer], [Shutdown] and the middleware
    ([logHandler], [metricsHandler]), with properties read off the code:
    what a failure ends, what is called and how often, and what never
    happens. *)

From Stdlib Require Import ZArith Lia.
From stdpp Require Import base decidable option list strings gmap.

Local Open Scope string_scope.
Local Open Scope list_scope.
Local Open Scope Z_scope.

(* ===================================================================== *)
(** * Go prelude: errors, results, machine integers *)
(* ===================================================================== *)

Module Golang.

(** A Go [error] value.  [peer.ErrEmptyPeerID] is a sentinel and has a
    constructor of its own; [wrapError] is what [fmt.Errorf("<msg>: %w", err)]
    builds. *)
Inductive error : Type :=
| ErrEmptyPeerID
| errorString (msg : string)
| wrapError (msg : string) (err : error).

#[global] Instance error_eq_dec : EqDecision error.
Proof. solve_decision. Defined.

(** [err.Error()] *)
Fixpoint Error (e : error) : string :=
  match e with
  | ErrEmptyPeerID => "empty peer ID"
  | errorString msg => msg
  | wrapError msg err => msg +:+ ": " +:+ Error err
  end.

(** [fmt.Errorf(msg + ": %w", err)] *)
Definition Errorf_w (msg : string) (err : error) : error := wrapError msg err.

(** The chain walk of [errors.Is] on a non-nil error. *)
Fixpoint is_chain (e target : error) : bool :=
  if decide (e = target) then true
  else match e with
       | wrapError _ err => is_chain err target
       | _ => false
       end.

(** [errors.Is(err, target)]; a nil [err] is [None]. *)
Definition errors_Is (err : option error) (target : error) : bool :=
  match err with
  | None => false
  | Some e => is_chain e target
  end.

(** A Go result pair [(value, err)]: the value is meaningful when [err] is
    nil. *)
Inductive Result (A : Type) : Type :=
| Ok (a : A)
| Err (e : error).
Arguments Ok {A} a.
Arguments Err {A} e.

(** Go's [int] and [int64]: 64-bit two's complement. *)
Definition minInt : Z := - 2 ^ 63.
Definition maxInt : Z := 2 ^ 63 - 1.
Definition wrap (z : Z) : Z := (z + 2 ^ 63) mod 2 ^ 64 - 2 ^ 63.
Definition int_add (a b : Z) : Z := wrap (a + b).
Definition int_sub (a b : Z) : Z := wrap (a - b).
(** [a % b] truncates towards zero; the caller guards [b <> 0]. *)
Definition int_rem (a b : Z) : Z := wrap (Z.rem a b).

(** [time.Duration] is an int64 count of nanoseconds. *)
Definition Duration := Z.
Definition minDuration : Duration := minInt.
Definition maxDuration : Duration := maxInt.

(** [time.Since(start)] on two readings of the monotonic clock: the
    saturating subtraction of [time.subMono]. *)
Definition subMono (t u : Z) : Duration :=
  let d := int_sub t u in
  if (d <? 0) && (u <? t) then maxDuration
  else if (0 <? d) && (t <? u) then minDuration
  else d.

End Golang.

(* ===================================================================== *)
(** * The agent: [Server.retrieve] *)
(* ===================================================================== *)

(** The handler reads the request, looks the content up through the routing
    strategy the request selects, times the lookup and writes the outcome as
    JSON.  The model keeps the host, the [latencies] histogram, the response
    writer and the order of the calls; log lines are left out. *)

Module Server.
Import Golang.

(** [peer.ID] is a string type; [cid.Cid] is kept in its string form. *)
Definition PeerID := string.
Definition Cid := string.
Definition Multiaddr := string.

(** [peer.ID.Validate]: the only failure is the empty identity. *)
Definition Validate (id : PeerID) : option error :=
  if decide (id = "") then Some ErrEmptyPeerID else None.

(** [peer.AddrInfo] and its zero value. *)
Record AddrInfo := mkAddrInfo { ID : PeerID; Addrs : list Multiaddr }.
Definition zeroAddrInfo : AddrInfo := mkAddrInfo "" [].

(** Why the channel of [FindProvidersAsync] was closed without a value. *)
Inductive CloseReason := NoProviders | DeadlineExceeded | Canceled.

(** What a receive on the provider channel meets: a value, or the channel
    closed with nothing in it. *)
Inductive ProviderChan :=
| ChanValue (p : AddrInfo)
| ChanClosed (why : CloseReason).

(** [<-ch]: a closed, empty channel yields the zero value. *)
Definition recv (ch : ProviderChan) : AddrInfo :=
  match ch with
  | ChanValue p => p
  | ChanClosed _ => zeroAddrInfo
  end.

(** The indexer's answer; only the number of results is inspected. *)
Record FindResponse := mkFindResponse { MultihashResults : list string }.

(** The libp2p host as the handler sees it: the routing-table size, the open
    connections, the peerstore entries and the address book. *)
Record Host := mkHost {
  RoutingTableSize : Z;
  conns : gset string;
  peers : gset string;
  addrs : gmap string (list Multiaddr);
}.

(** [Network().ClosePeer], [Peerstore().RemovePeer], [Peerstore().ClearAddrs] *)
Definition ClosePeer (id : PeerID) (h : Host) : Host :=
  mkHost (RoutingTableSize h) (conns h ∖ {[id]}) (peers h) (addrs h).
Definition RemovePeer (id : PeerID) (h : Host) : Host :=
  mkHost (RoutingTableSize h) (conns h) (peers h ∖ {[id]}) (addrs h).
Definition ClearAddrs (id : PeerID) (h : Host) : Host :=
  mkHost (RoutingTableSize h) (conns h) (peers h) (delete id (addrs h)).

(** Calls the handler makes on the host, in program order. *)
Inductive Call :=
| CallIndexerLookup (c : Cid)
| CallFindProvidersAsync (c : Cid) (limit : Z)
| CallClosePeer (id : PeerID)
| CallRemovePeer (id : PeerID)
| CallClearAddrs (id : PeerID)
| CallMarshal
| CallWrite (data : string).

(** One observation of the [latencies] histogram: its four labels and the
    observed duration (kept in nanoseconds). *)
Record Observation := mkObservation {
  obs_op : string;
  obs_routing : string;
  obs_success : bool;
  obs_scheduler : string;
  obs_duration : Duration;
}.

Record Server := mkServer {
  host : Host;
  latencies : list Observation;
  calls : list Call;
}.

Record RetrieveRequest := mkRetrieveRequest { Routing : string }.

Record RetrievalResponse := mkRetrievalResponse {
  CID : string;
  Duration_ : Duration;
  RoutingTableSize_ : Z;
  Error_ : string;
}.

(** [http.Request] as far as the handler reads it: the outcome of
    [io.ReadAll(r.Body)] and the scheduler-id header. *)
Record Request := mkRequest {
  Body : Result string;
  SchedulerID : string;
}.

Definition StatusOK : Z := 200.
Definition StatusBadRequest : Z := 400.
Definition StatusInternalServerError : Z := 500.

(** [http.ResponseWriter]: the status line is fixed by the first
    [WriteHeader] or [Write]; [broken] says the client is gone, so that
    [Write] fails. *)
Record ResponseWriter := mkResponseWriter {
  status : option Z;
  body : string;
  broken : bool;
}.

Definition WriteHeader (code : Z) (rw : ResponseWriter) : ResponseWriter :=
  match status rw with
  | None => mkResponseWriter (Some code) (body rw) (broken rw)
  | Some _ => rw
  end.

Definition Write (data : string) (rw : ResponseWriter)
  : ResponseWriter * option error :=
  let rw := WriteHeader StatusOK rw in
  if broken rw then (rw, Some (errorString "write: broken pipe"))
  else (mkResponseWriter (status rw) (body rw +:+ data) (broken rw), None).

(** What the handler gets from outside: the JSON and CID codecs, the two
    routing capabilities of the host (each may change the host: lookups dial
    peers and fill the address book) and the two readings of the monotonic
    clock around the lookup. *)
Record Env := mkEnv {
  json_Unmarshal : string -> Result RetrieveRequest;
  cid_Decode : string -> Result Cid;
  json_Marshal : RetrievalResponse -> Result string;
  IndexerLookup : Cid -> Host -> Host * Result FindResponse;
  FindProvidersAsync : Cid -> Z -> Host -> Host * ProviderChan;
  clock_start : Z;
  clock_end : Z;
}.

(** The same surroundings with another DHT behind them. *)
Definition with_FindProvidersAsync
    (f : Cid -> Z -> Host -> Host * ProviderChan) (env : Env) : Env :=
  mkEnv (json_Unmarshal env) (cid_Decode env) (json_Marshal env)
        (IndexerLookup env) f (clock_start env) (clock_end env).

Section Handler.
(** [config.RoutingIPNI] and [config.RoutingDHT]: the two tags of
    [config.Routing], a string type. *)
Variables RoutingIPNI RoutingDHT : string.
Variable env : Env.

Definition log_call (c : Call) (s : Server) : Server :=
  mkServer (host s) (latencies s) (calls s ++ [c]).
Definition set_host (h : Host) (s : Server) : Server :=
  mkServer h (latencies s) (calls s).
Definition Observe (o : Observation) (s : Server) : Server :=
  mkServer (host s) (latencies s ++ [o]) (calls s).

(** [case config.RoutingIPNI:] *)
Definition case_RoutingIPNI (r : Request) (c : Cid) (resp : RetrievalResponse)
    (s : Server) : Server * RetrievalResponse :=
  let start := clock_start env in
  let '(h, res) := IndexerLookup env c (host s) in
  let s := set_host h (log_call (CallIndexerLookup c) s) in
  let dur := subMono (clock_end env) start in
  let err := match res with
             | Err e => Error e
             | Ok pr => if decide (length (MultihashResults pr) = 0%nat)
                        then "not found" else Error_ resp
             end in
  let resp := mkRetrievalResponse (CID resp) dur (RoutingTableSize_ resp) err in
  let s := Observe (mkObservation "retrieval_ttfpr" RoutingIPNI
                      (bool_decide (Error_ resp = "")) (SchedulerID r)
                      (Duration_ resp)) s in
  (s, resp).

(** [default:] *)
Definition case_default (r : Request) (c : Cid) (resp : RetrievalResponse)
    (s : Server) : Server * RetrievalResponse :=
  let start := clock_start env in
  let '(h, ch) := FindProvidersAsync env c 1 (host s) in
  let provider := recv ch in
  let s := set_host h (log_call (CallFindProvidersAsync c 1) s) in
  let dur := subMono (clock_end env) start in
  let '(s, err) :=
    if errors_Is (Validate (ID provider)) ErrEmptyPeerID
    then (s, "not found")
    else
      let s := set_host (ClosePeer (ID provider) (host s))
                 (log_call (CallClosePeer (ID provider)) s) in
      let s := set_host (RemovePeer (ID provider) (host s))
                 (log_call (CallRemovePeer (ID provider)) s) in
      let s := set_host (ClearAddrs (ID provider) (host s))
                 (log_call (CallClearAddrs (ID provider)) s) in
      (s, Error_ resp) in
  let resp := mkRetrievalResponse (CID resp) dur (RoutingTableSize_ resp) err in
  let s := Observe (mkObservation "retrieval_ttfpr" RoutingDHT
                      (bool_decide (Error_ resp = "")) (SchedulerID r)
                      (Duration_ resp)) s in
  (s, resp).

(** [switch rr.Routing] *)
Definition switch_Routing (rr : RetrieveRequest) (r : Request) (c : Cid)
    (resp : RetrievalResponse) (s : Server) : Server * RetrievalResponse :=
  if decide (Routing rr = RoutingIPNI) then case_RoutingIPNI r c resp s
  else case_default r c resp s.

(** The tail of the handler: marshal the response and write it. *)
Definition respond (resp : RetrievalResponse) (s : Server)
    (rw : ResponseWriter) : Server * ResponseWriter :=
  let s := log_call CallMarshal s in
  match json_Marshal env resp with
  | Err err =>
      let rw := fst (Write (Error err) rw) in
      (s, WriteHeader StatusInternalServerError rw)
  | Ok data =>
      let s := log_call (CallWrite data) s in
      match Write data rw with
      | (rw, Some err) =>
          let rw := fst (Write (Error err) rw) in
          (s, WriteHeader StatusInternalServerError rw)
      | (rw, None) => (s, rw)
      end
  end.

(** [func (s *Server) retrieve(rw, r, params)]; [cid_param] is
    [params.ByName("cid")]. *)
Definition retrieve (s : Server) (rw : ResponseWriter) (r : Request)
    (cid_param : string) : Server * ResponseWriter :=
  match Body r with
  | Err _ => (s, WriteHeader StatusInternalServerError rw)
  | Ok data =>
      match json_Unmarshal env data with
      | Err _ => (s, WriteHeader StatusBadRequest rw)
      | Ok rr =>
          match cid_Decode env cid_param with
          | Err _ => (s, WriteHeader StatusBadRequest rw)
          | Ok c =>
              let resp := mkRetrievalResponse c 0
                            (RoutingTableSize (host s)) "" in
              let '(s, resp) := switch_Routing rr r c resp s in
              respond resp s rw
          end
      end
  end.

End Handler.

End Server.

(* ===================================================================== *)
(** * [golang.org/x/sync/errgroup] *)
(* ===================================================================== *)

Module errgroup.
Import Golang.

Inductive PanicReason := IndexOutOfRange | NilDereference.

Section Group.
Context {T St : Type}.

(** One scheduling step of a goroutine started by [Go]: it goes on in a new
    state, returns (with an error or nil), or panics. *)
Inductive Step : Type :=
| Yield (t : T) (s : St)
| Return (err : option error) (s : St)
| Panic (why : PanicReason) (s : St).

(** The body of the goroutines; its first argument says whether the group's
    context is already cancelled. *)
Variable f : bool -> T -> St -> Step.

(** A group: the goroutines still running ([None] once returned), the first
    error, the memory the goroutines share, and whether one of them
    panicked (which ends the process). *)
Record Group : Type := mkGroup {
  tasks : list (option T);
  err : option error;
  panicked : option PanicReason;
  shared : St;
}.

Definition WithContext (s : St) : Group := mkGroup [] None None s.

Definition Go (t : T) (g : Group) : Group :=
  mkGroup (tasks g ++ [Some t]) (err g) (panicked g) (shared g).

(** The group's context is cancelled by the first error. *)
Definition cancelled (g : Group) : bool :=
  match err g with Some _ => true | None => false end.

(** [g.errOnce.Do(...)]: only the first error is kept. *)
Definition errOnce (old new : option error) : option error :=
  match old with Some e => Some e | None => new end.

(** Goroutine [i] takes its next step. *)
Definition step_at (i : nat) (g : Group) : Group :=
  match panicked g with
  | Some _ => g
  | None =>
      match tasks g !! i with
      | Some (Some t) =>
          match f (cancelled g) t (shared g) with
          | Yield t' s => mkGroup (<[i := Some t']> (tasks g)) (err g) None s
          | Return e s =>
              mkGroup (<[i := None]> (tasks g)) (errOnce (err g) e) None s
          | Panic why s => mkGroup (tasks g) (err g) (Some why) s
          end
      | _ => g
      end
  end.

(** The goroutines run in the order the scheduler picks. *)
Definition run (sched : list nat) (g : Group) : Group :=
  foldl (fun g i => step_at i g) g sched.

(** [Wait] blocks until every goroutine has returned: whatever the scheduler
    left unfinished runs to its end, each goroutine taking at most [k] more
    steps. *)
Definition finish (k : nat) (i : nat) (g : Group) : Group :=
  Nat.iter k (step_at i) g.

Definition drain (k : nat) (g : Group) : Group :=
  foldl (fun g i => finish k i g) g (seq 0 (length (tasks g))).

Definition Wait (sched : list nat) (k : nat) (g : Group) : Group :=
  drain k (run sched g).

(** Goroutine [i] is over: it has returned, or the process has died. *)
Definition over (i : nat) (g : Group) : Prop :=
  panicked g <> None \/ forall t, tasks g !! i <> Some (Some t).

End Group.

Arguments Step : clear implicits.
Arguments Group : clear implicits.

End errgroup.

(* ===================================================================== *)
(** * The coordinator: [ScheduleAction] *)
(* ===================================================================== *)

Module models.
(** Modelled from the spec: the declarations of [models.Node] and
    [models.Run] (package [pkg/models]) are missing; they are the rows "Node
    {id, ...}" and "Run {id, ...}" of the data model, and the code reads only
    the field [ID] of each. *)
Record Node := mkNode { ID : Z }.
Record Run := mkRun { RunID : Z }.
End models.

Module Scheduler.
Import Golang.

(** A [*parsec.Node]: the handle of one agent (a pointer, here a number). *)
Definition Node := nat.

(** Modelled from the spec: the declarations of [util.Content], of the
    readiness answer of [WaitForAPI] and of the answers of [Provide] and
    [Retrieve] (packages [pkg/util] and [pkg/parsec]) are missing.  They are
    the "Content Item {id, payload}", the "identity and build metadata", and
    the outputs "{content id, duration, optional error}" and "{content id,
    duration, routing-table size, optional error}" of the spec. *)
Record Content := mkContent { Raw : string; CID : string }.
Record APIInfo := mkAPIInfo { PeerID : string; BuildInfo : string }.
Record ProvideResponse := mkProvideResponse {
  ProvideCID : string;
  ProvideDuration : Duration;
  ProvideError : string;
}.
Record RetrievalResponse := mkRetrievalResponse {
  RetrievalCID : string;
  RetrievalDuration : Duration;
  RoutingTableSize : Z;
  RetrievalError : string;
}.

(** A [*db.DBClient] that is not nil. *)
Inductive DBClient := dbClient.

(** Everything the coordinator observes of the outside: the database, the
    agents, the random source, the cancellation of [c.Context] and the Go
    scheduler.  Calls inside a round are keyed by the round; calls made from a
    goroutine of an error group also get the state of the group's context. *)
Record World := mkWorld {
  InitDBClient : Result DBClient;
  ReadBuildInfo : bool;
  InitRun : Result models.Run;
  WaitForAPI : Node -> bool -> Result APIInfo;
  InsertNode : Z -> Node -> APIInfo -> bool -> Result models.Node;
  sched_ready : list nat;
  Context_Err : nat -> option error;
  NewRandomContent : nat -> Result Content;
  Provide : nat -> Node -> Content -> Result ProvideResponse;
  InsertProvide : nat -> Z -> ProvideResponse -> option error;
  Retrieve : nat -> Node -> string -> bool -> Result RetrievalResponse;
  InsertRetrieval : nat -> Z -> RetrievalResponse -> bool -> option error;
  sched_round : nat -> list nat;
}.

(** The calls the coordinator makes, each with what came back. *)
Inductive Event :=
| EvInitDBClient
| EvInitRun
| EvWaitForAPI (n : Node) (res : Result APIInfo)
| EvInsertNode (runID : Z) (n : Node) (res : Result models.Node)
| EvProvide (round : nat) (provNode : Z) (n : Node) (content : Content)
    (res : Result ProvideResponse)
| EvInsertProvide (round : nat) (nodeID : Z) (provide : ProvideResponse)
    (res : option error)
| EvRetrieve (round : nat) (retrNode : Z) (n : Node) (cid : string)
    (res : Result RetrievalResponse)
| EvInsertRetrieval (round : nat) (nodeID : Z) (retrieval : RetrievalResponse)
    (res : option error).

(** How [ScheduleAction] ends: it returns an error (it never returns nil) or
    the process dies of a runtime panic. *)
Inductive Exit :=
| Returned (err : error)
| Panicked (why : errgroup.PanicReason).

(** The memory the goroutines share. *)
Record Shared := mkShared {
  trace : list Event;
  dbNodes : list (option models.Node);
}.

Definition emit (e : Event) (s : Shared) : Shared :=
  mkShared (trace s ++ [e]) (dbNodes s).

(** [l[i]] for a Go [int] index; [None] is the index-out-of-range panic. *)
Definition index {A} (l : list A) (i : Z) : option A :=
  if 0 <=? i then l !! Z.to_nat i else None.

(** [len(l)] *)
Definition len {A} (l : list A) : Z := Z.of_nat (length l).

Section Action.
Variable w : World.
Variable dbc : option DBClient.
Variable nodes : list Node.

(** ** The readiness barrier *)

Inductive ReadyTask :=
| TWaitForAPI (i2 : nat) (n2 : Node)
| TInsertNode (i2 : nat) (n2 : Node) (info : APIInfo).

(** The closure passed to [errg.Go] in the barrier. *)
Definition ready_task (dbRun : option models.Run) (cancelled : bool)
    (t : ReadyTask) (s : Shared) : errgroup.Step ReadyTask Shared :=
  match t with
  | TWaitForAPI i2 n2 =>
      let res := WaitForAPI w n2 cancelled in
      let s := emit (EvWaitForAPI n2 res) s in
      match res with
      | Err err => errgroup.Return (Some err) s
      | Ok info =>
          match dbc with
          | None => errgroup.Return None s
          | Some _ => errgroup.Yield (TInsertNode i2 n2 info) s
          end
      end
  | TInsertNode i2 n2 info =>
      match dbRun with
      | None => errgroup.Panic errgroup.NilDereference s
      | Some run =>
          let res := InsertNode w (models.RunID run) n2 info cancelled in
          let s := emit (EvInsertNode (models.RunID run) n2 res) s in
          match res with
          | Err err => errgroup.Return (Some (Errorf_w "insert db node" err)) s
          | Ok dbNode =>
              errgroup.Return None
                (mkShared (trace s) (<[i2 := Some dbNode]> (dbNodes s)))
          end
      end
  end.

(** [for i, n := range nodes { ... errg.Go(...) }] *)
Definition spawn_ready (g : errgroup.Group ReadyTask Shared)
  : errgroup.Group ReadyTask Shared :=
  foldl (fun g '(i, n) => errgroup.Go (TWaitForAPI i n) g) g
        (imap (fun i n => (i, n)) nodes).

(** ** One round of the loop *)

Inductive RetrTask :=
| TRetrieve (retrNode : Z)
| TInsertRetrieval (dbNode : option models.Node)
    (retrieval : RetrievalResponse).

(** The closure passed to [errg.Go] in a round. *)
Definition retrieve_task (round : nat) (content : Content) (cancelled : bool)
    (t : RetrTask) (s : Shared) : errgroup.Step RetrTask Shared :=
  match t with
  | TRetrieve retrNode =>
      match index nodes retrNode, index (dbNodes s) retrNode with
      | Some node, Some dbNode =>
          let res := Retrieve w round node (CID content) cancelled in
          let s := emit (EvRetrieve round retrNode node (CID content) res) s in
          match res with
          | Err err => errgroup.Return (Some (Errorf_w "api retrieve" err)) s
          | Ok retrieval =>
              match dbc with
              | None => errgroup.Return None s
              | Some _ => errgroup.Yield (TInsertRetrieval dbNode retrieval) s
              end
          end
      | _, _ => errgroup.Panic errgroup.IndexOutOfRange s
      end
  | TInsertRetrieval dbNode retrieval =>
      match dbNode with
      | None => errgroup.Panic errgroup.NilDereference s
      | Some dbNode =>
          let res :=
            InsertRetrieval w round (models.ID dbNode) retrieval cancelled in
          let s :=
            emit (EvInsertRetrieval round (models.ID dbNode) retrieval res) s in
          match res with
          | Some err =>
              errgroup.Return (Some (Errorf_w "insert retrieve" err)) s
          | None => errgroup.Return None s
          end
      end
  end.

(** [retrNode := (provNode + i + 1) % len(nodes)] *)
Definition retrNode (provNode i : Z) : Z :=
  int_rem (int_add (int_add provNode i) 1) (len nodes).

(** [for i := 0; i < len(nodes)-1; i++ { ... errg.Go(...) }] *)
Definition spawn_retrieve (provNode : Z) (g : errgroup.Group RetrTask Shared)
  : errgroup.Group RetrTask Shared :=
  foldl (fun g i => errgroup.Go (TRetrieve (retrNode provNode i)) g) g
        (seqZ 0 (int_sub (len nodes) 1)).

(** What one pass through the loop body comes to. *)
Inductive RoundResult :=
| Completed (provNode : Z)
| Exited (e : Exit).

(** The body of [for { ... }], in round [round] with provider index
    [provNode]. *)
Definition round_body (round : nat) (provNode : Z) (s : Shared)
  : Shared * RoundResult :=
  match Context_Err w round with
  | Some err => (s, Exited (Returned err))
  | None =>
  match NewRandomContent w round with
  | Err err => (s, Exited (Returned (Errorf_w "new random content" err)))
  | Ok content =>
  match index nodes provNode with
  | None => (s, Exited (Panicked errgroup.IndexOutOfRange))
  | Some node =>
  let res := Provide w round node content in
  let s := emit (EvProvide round provNode node content res) s in
  match res with
  | Err err =>
      (* the log line reads dbNodes[provNode].ID before the return *)
      match index (dbNodes s) provNode with
      | None => (s, Exited (Panicked errgroup.IndexOutOfRange))
      | Some None => (s, Exited (Panicked errgroup.NilDereference))
      | Some (Some _) =>
          (s, Exited (Returned (Errorf_w "provide content" err)))
      end
  | Ok provide =>
  let inserted :=
    match dbc with
    | None => (s, None)
    | Some _ =>
        match index (dbNodes s) provNode with
        | None => (s, Some (Panicked errgroup.IndexOutOfRange))
        | Some None => (s, Some (Panicked errgroup.NilDereference))
        | Some (Some dbNode) =>
            let res := InsertProvide w round (models.ID dbNode) provide in
            let s :=
              emit (EvInsertProvide round (models.ID dbNode) provide res) s in
            match res with
            | Some err => (s, Some (Returned (Errorf_w "insert provide" err)))
            | None => (s, None)
            end
        end
    end in
  match inserted with
  | (s, Some e) => (s, Exited e)
  | (s, None) =>
  let errg := spawn_retrieve provNode (errgroup.WithContext s) in
  let errg :=
    errgroup.Wait (retrieve_task round content) (sched_round w round) 2 errg in
  let s := errgroup.shared errg in
  match errgroup.panicked errg, errgroup.err errg with
  | Some why, _ => (s, Exited (Panicked why))
  | None, Some err => (s, Exited (Returned (Errorf_w "waitgroup retrieve" err)))
  | None, None =>
      (* len(nodes) is not zero here: nodes[provNode] was in range *)
      (s, Completed (int_rem (int_add provNode 1) (len nodes)))
  end
  end
  end
  end
  end
  end.

(** What is known of a run after [fuel] passes through the loop: the calls
    made, the rounds completed, the provider index, and how the run ended
    ([None] while the loop is still going). *)
Record Run := mkRun {
  calls : list Event;
  rounds : nat;
  provNode : Z;
  exit : option Exit;
}.

(** [provNode := 0; for { ... }] *)
Fixpoint loop (fuel : nat) (round : nat) (provNode : Z) (s : Shared) : Run :=
  match fuel with
  | O => mkRun (trace s) round provNode None
  | S fuel =>
      match round_body round provNode s with
      | (s, Completed provNode') => loop fuel (S round) provNode' s
      | (s, Exited e) => mkRun (trace s) round provNode (Some e)
      end
  end.

End Action.

Definition stopped (tr : list Event) (e : Exit) : Run :=
  mkRun tr 0 0 (Some e).

(** [func ScheduleAction(c *cli.Context, nodes []*parsec.Node) error], with
    [dry_run] the value of [c.Bool("dry-run")]. *)
Definition ScheduleAction (w : World) (dry_run : bool) (nodes : list Node)
    (fuel : nat) : Run :=
  let acquired :=
    if negb dry_run then
      match InitDBClient w with
      | Err err => ([EvInitDBClient], Err (Errorf_w "init db client" err))
      | Ok dbc => ([EvInitDBClient], Ok (Some dbc))
      end
    else ([], Ok None) in
  match acquired with
  | (tr, Err err) => stopped tr (Returned err)
  | (tr, Ok dbc) =>
  if negb (ReadBuildInfo w)
  then stopped tr (Returned (errorString "read build info: %!w(<nil>)"))
  else
  let started :=
    match dbc with
    | None => (tr, Ok None)
    | Some _ =>
        match InitRun w with
        | Err err => (tr ++ [EvInitRun], Err (Errorf_w "init run" err))
        | Ok dbRun => (tr ++ [EvInitRun], Ok (Some dbRun))
        end
    end in
  match started with
  | (tr, Err err) => stopped tr (Returned err)
  | (tr, Ok dbRun) =>
  let dbNodes := replicate (length nodes) None in
  let errg := spawn_ready nodes (errgroup.WithContext (mkShared tr dbNodes)) in
  let errg := errgroup.Wait (ready_task w dbc dbRun) (sched_ready w) 2 errg in
  let s := errgroup.shared errg in
  match errgroup.panicked errg, errgroup.err errg with
  | Some why, _ => stopped (trace s) (Panicked why)
  | None, Some err =>
      stopped (trace s) (Returned (Errorf_w "waiting for parsec node APIs" err))
  | None, None => loop w dbc nodes fuel 0 0 s
  end
  end
  end.

(** ** Reading a trace *)

Definition is_persistence (e : Event) : bool :=
  match e with
  | EvInitDBClient | EvInitRun | EvInsertNode _ _ _
  | EvInsertProvide _ _ _ _ | EvInsertRetrieval _ _ _ _ => true
  | _ => false
  end.

(** The provider indices of the Provide calls of round [r], and the indices
    of its Retrieve calls, in the order of the calls. *)
Definition provide_call (r : nat) (e : Event) : option Z :=
  match e with
  | EvProvide r' p _ _ _ => if decide (r' = r) then Some p else None
  | _ => None
  end.

Definition retrieve_call (r : nat) (e : Event) : option Z :=
  match e with
  | EvRetrieve r' i _ _ _ => if decide (r' = r) then Some i else None
  | _ => None
  end.

(** The Provide Records and Retrieval Records of round [r]: the answers
    received; and those handed to the database and stored. *)
Definition provide_record (r : nat) (e : Event) : option ProvideResponse :=
  match e with
  | EvProvide r' _ _ _ (Ok p) => if decide (r' = r) then Some p else None
  | _ => None
  end.

Definition retrieval_record (r : nat) (e : Event) : option RetrievalResponse :=
  match e with
  | EvRetrieve r' _ _ _ (Ok x) => if decide (r' = r) then Some x else None
  | _ => None
  end.

Definition stored_provide (r : nat) (e : Event) : option ProvideResponse :=
  match e with
  | EvInsertProvide r' _ p None => if decide (r' = r) then Some p else None
  | _ => None
  end.

Definition stored_retrieval (r : nat) (e : Event) : option RetrievalResponse :=
  match e with
  | EvInsertRetrieval r' _ x None => if decide (r' = r) then Some x else None
  | _ => None
  end.

(** The measurement a run made: its calls without the persistence calls, the
    rounds completed, the provider index and the way it ended. *)
Definition measurement (run : Run)
  : list Event * nat * Z * option Exit :=
  (filter (fun e => is_persistence e = false) (calls run),
   rounds run, provNode run, exit run).

End Scheduler.

(* ===================================================================== *)
(** * The coordinator: what the proofs keep track of *)
(* ===================================================================== *)

Module SchedulerInv.
Import Golang errgroup Scheduler.

(** The round an event belongs to; the calls of the start-up belong to
    none. *)
Definition round_of (e : Event) : option nat :=
  match e with
  | EvProvide r _ _ _ _ | EvInsertProvide r _ _ _
  | EvRetrieve r _ _ _ _ | EvInsertRetrieval r _ _ _ => Some r
  | _ => None
  end.

(** The events a goroutine of round [r] emits, and those of the barrier. *)
Definition is_retr_event (r : nat) (e : Event) : Prop :=
  match e with
  | EvRetrieve r' _ _ _ _ | EvInsertRetrieval r' _ _ _ => r' = r
  | _ => False
  end.

Definition is_ready_event (e : Event) : Prop :=
  match e with
  | EvWaitForAPI _ _ | EvInsertNode _ _ _ => True
  | _ => False
  end.

Definition is_retrieve (e : Event) : Prop :=
  match e with EvRetrieve _ _ _ _ _ => True | _ => False end.

(** A successful Provide of round [r]. *)
Definition is_provided (r : nat) (e : Event) : Prop :=
  match e with EvProvide r' _ _ _ (Ok _) => r' = r | _ => False end.

(** Every Retrieve call of a trace comes after a Provide call of the same
    round that got its response. *)
Definition ordered (tr : list Event) : Prop :=
  forall i r rn n c res,
    tr !! i = Some (EvRetrieve r rn n c res) ->
    exists j e, (j < i)%nat /\ tr !! j = Some e /\ is_provided r e.

(** How many steps a goroutine still has to take. *)
Definition ready_rank (t : ReadyTask) : nat :=
  match t with TWaitForAPI _ _ => 1 | TInsertNode _ _ _ => 0 end.

Definition retr_rank (t : RetrTask) : nat :=
  match t with TRetrieve _ => 1 | TInsertRetrieval _ _ => 0 end.

(** The largest fleet for which [provNode + i + 1] stays an [int]; the
    runtime cannot allocate a slice that long. *)
Definition maxFleet : Z := 2 ^ 62.

(** The indices the goroutines of a round retrieve from, in the order they
    are started. *)
Definition retrNodes (nodes : list Node) (provNode : Z) : list Z :=
  retrNode nodes provNode <$> seqZ 0 (int_sub (len nodes) 1).

(** The indices whose Retrieve call is still to come, and the number of
    goroutines that have returned. *)
Definition pending_call (slot : option RetrTask) : option Z :=
  match slot with Some (TRetrieve rn) => Some rn | _ => None end.

Definition returned_task {T} (slot : option T) : option unit :=
  match slot with None => Some tt | Some _ => None end.

Definition inserting (slot : option RetrTask) : Prop :=
  match slot with Some (TInsertRetrieval _ _) => True | _ => False end.

Definition inserting_node (slot : option ReadyTask) : Prop :=
  match slot with Some (TInsertNode _ _ _) => True | _ => False end.

(** What holds of the goroutines of round [r] while they run: [new] is what
    they have added to the trace [tr0]; [rns] are the indices they were
    started for. *)
Definition retr_inv (dbc : option DBClient) (r : nat) (rns : list Z)
    (tr0 : list Event) (dbN : list (option models.Node))
    (g : Group RetrTask Shared) (new : list Event) : Prop :=
  trace (shared g) = tr0 ++ new /\
  dbNodes (shared g) = dbN /\
  Forall (is_retr_event r) new /\
  omap (retrieve_call r) new ++ omap pending_call (tasks g) ≡ₚ rns /\
  (err g = None ->
   length (omap (retrieval_record r) new) =
     length (omap (retrieve_call r) new)) /\
  (err g = None -> dbc <> None ->
   length (omap (stored_retrieval r) new) =
     length (omap returned_task (tasks g))) /\
  (dbc = None ->
   Forall (fun e => is_persistence e = false) new /\
   Forall (fun slot => ~ inserting slot) (tasks g)).

(** What holds of the goroutines of the barrier while they run. *)
Definition ready_inv (dbc : option DBClient) (tr0 : list Event) (n : nat)
    (g : Group ReadyTask Shared) (new : list Event) : Prop :=
  trace (shared g) = tr0 ++ new /\
  length (dbNodes (shared g)) = n /\
  Forall is_ready_event new /\
  (dbc = None ->
   Forall (fun e => is_persistence e = false) new /\
   Forall (fun slot => ~ inserting_node slot) (tasks g)).

(** The calls of the start-up. *)
Definition startup (tr : list Event) : Prop :=
  Forall (fun e => round_of e = None) tr.

(** Every call to the database succeeds. *)
Definition persistence_succeeds (w : World) : Prop :=
  (exists dbc, InitDBClient w = Ok dbc) /\
  (exists dbRun, InitRun w = Ok dbRun) /\
  (forall runID n info c, exists dbNode, InsertNode w runID n info c = Ok dbNode) /\
  (forall r id p, InsertProvide w r id p = None) /\
  (forall r id x c, InsertRetrieval w r id x c = None).

(** What a round adds to the trace.  Before anything is sent the round can
    only exit; a failed Provide is the only call of its round; after a
    successful Provide come the insert of the provide, if any, and the events
    of the goroutines.  [Completed] tells the rest. *)
Definition round_shape (dbc : option DBClient) (nodes : list Node) (r : nat)
    (p : Z) (new : list Event) (res : RoundResult) : Prop :=
  (new = [] /\ exists e, res = Exited e) \/
  (exists node content e x,
     new = [EvProvide r p node content (Err e)] /\
     index nodes p = Some node /\ res = Exited x) \/
  (exists node content pr ins retr,
     new = EvProvide r p node content (Ok pr) :: ins ++ retr /\
     index nodes p = Some node /\
     (ins = [] \/ exists id res, ins = [EvInsertProvide r id pr res]) /\
     Forall (is_retr_event r) retr /\
     (dbc = None ->
      ins = [] /\ Forall (fun e => is_persistence e = false) retr) /\
     (forall p', res = Completed p' ->
        p' = int_rem (int_add p 1) (len nodes) /\
        (dbc <> None -> exists id, ins = [EvInsertProvide r id pr None]) /\
        omap (retrieve_call r) retr ≡ₚ retrNodes nodes p /\
        length (omap (retrieval_record r) retr) = length (retrNodes nodes p) /\
        (dbc <> None ->
         length (omap (stored_retrieval r) retr) =
           length (retrNodes nodes p)))).

(** What the trace of a run says of a completed round [r]: one Provide call,
    on the provider of the round; one Retrieve call on each index of
    [retrNodes]; as many records; and, with a database, as many rows. *)
Definition round_props (dbc : option DBClient) (nodes : list Node) (r : nat)
    (tr : list Event) : Prop :=
  let p := Z.of_nat r mod len nodes in
  omap (provide_call r) tr = [p] /\
  omap (retrieve_call r) tr ≡ₚ retrNodes nodes p /\
  length (omap (provide_record r) tr) = 1%nat /\
  length (omap (retrieval_record r) tr) = length (retrNodes nodes p) /\
  (dbc <> None ->
   length (omap (stored_provide r) tr) = 1%nat /\
   length (omap (stored_retrieval r) tr) = length (retrNodes nodes p)).

(** The events of a trace belong to rounds before [r]. *)
Definition before_round (r : nat) (tr : list Event) : Prop :=
  Forall (fun e => forall r', round_of e = Some r' -> (r' < r)%nat) tr.

(** The Provide calls of a trace are made on the provider of their round. *)
Definition providers_ok (nodes : list Node) (tr : list Event) : Prop :=
  forall r p n c res,
    EvProvide r p n c res ∈ tr ->
    p = Z.of_nat r mod len nodes /\ 0 <= p < len nodes.

(** Two runs of the goroutines of a round, one with the database and one
    without, step by step. *)
Definition retr_slots (slot1 slot2 : option RetrTask) : Prop :=
  match slot1, slot2 with
  | Some (TRetrieve a), Some (TRetrieve b) => a = b
  | Some (TInsertRetrieval (Some _) _), None => True
  | None, None => True
  | _, _ => False
  end.

Definition ready_slots (slot1 slot2 : option ReadyTask) : Prop :=
  match slot1, slot2 with
  | Some (TWaitForAPI i a), Some (TWaitForAPI j b) => i = j /\ a = b
  | Some (TInsertNode _ _ _), None => True
  | None, None => True
  | _, _ => False
  end.

(** The shared memory of the two runs over a fleet of [n] nodes: the same
    calls up to persistence; the run with the database knows a row for every
    node. *)
Definition same_measurement (n : nat) (s1 s2 : Shared) : Prop :=
  filter (fun e => is_persistence e = false) (trace s1) = trace s2 /\
  (exists ds : list models.Node, dbNodes s1 = Some <$> ds) /\
  length (dbNodes s1) = n /\ length (dbNodes s2) = n.

Definition retr_related (n : nat) (g1 g2 : Group RetrTask Shared) : Prop :=
  panicked g1 = panicked g2 /\ err g1 = err g2 /\
  Forall2 retr_slots (tasks g1) (tasks g2) /\
  same_measurement n (shared g1) (shared g2).

(** The goroutine in slot [i] of the barrier works for node [i]. *)
Definition ready_tagged (tasks : list (option ReadyTask)) : Prop :=
  forall i t,
    tasks !! i = Some (Some t) ->
    match t with TWaitForAPI i2 _ | TInsertNode i2 _ _ => i2 = i end.

Definition ready_related (g1 g2 : Group ReadyTask Shared) : Prop :=
  panicked g1 = panicked g2 /\ err g1 = err g2 /\
  Forall2 ready_slots (tasks g1) (tasks g2) /\
  filter (fun e => is_persistence e = false) (trace (shared g1))
    = trace (shared g2) /\
  length (dbNodes (shared g1)) = length (tasks g1) /\
  length (dbNodes (shared g2)) = length (tasks g1) /\
  ready_tagged (tasks g1) /\
  (err g1 = None ->
   forall i, tasks g1 !! i = Some None ->
             exists d, dbNodes (shared g1) !! i = Some (Some d)).

(** The result of a round with the database and without: the same, unless
    the run without dies on the nil row of the provider. *)
Definition same_result (res1 res2 : RoundResult) : Prop :=
  res1 = res2 \/
  ((exists e, res1 = Exited (Returned e)) /\
   res2 = Exited (Panicked NilDereference)).

End SchedulerInv.
(* ===================================================================== *)
(** * Concrete surroundings *)
(* ===================================================================== *)

Module Examples.
Import Golang.

(** ** For the agent *)

Definition tagIPNI : string := "IPNI".
Definition tagDHT : string := "DHT".

Definition show_response (resp : Server.RetrievalResponse) : string :=
  Server.CID resp +:+ "|" +:+ Server.Error_ resp.

Definition empty_host : Server.Host := Server.mkHost 42 ∅ ∅ ∅.

Definition dialled (id : string) (h : Server.Host) : Server.Host :=
  Server.mkHost (Server.RoutingTableSize h) ({[id]} ∪ Server.conns h)
    ({[id]} ∪ Server.peers h) (<[id := ["/ip4/10.0.0.1/tcp/4001"]]> (Server.addrs h)).

(** An agent whose DHT query is cut short by the deadline and whose indexer
    knows nothing. *)
Definition env_nothing : Server.Env :=
  Server.mkEnv
    (fun data => Ok (Server.mkRetrieveRequest data))
    (fun s => Ok s)
    (fun resp => Ok (show_response resp))
    (fun _ h => (h, Ok (Server.mkFindResponse [])))
    (fun _ _ h => (h, Server.ChanClosed Server.DeadlineExceeded))
    1000 1250.

(** An agent whose DHT query finds the provider ["QmProvider"]. *)
Definition env_found : Server.Env :=
  Server.mkEnv
    (fun data => Ok (Server.mkRetrieveRequest data))
    (fun s => Ok s)
    (fun resp => Ok (show_response resp))
    (fun _ h => (h, Err (errorString "connection refused")))
    (fun _ _ h =>
       (dialled "QmProvider" h,
        Server.ChanValue
          (Server.mkAddrInfo "QmProvider" ["/ip4/10.0.0.1/tcp/4001"])))
    1000 1250.

Definition server0 : Server.Server := Server.mkServer empty_host [] [].
Definition rw0 : Server.ResponseWriter := Server.mkResponseWriter None "" false.
Definition request (selector : string) : Server.Request :=
  Server.mkRequest (Ok selector) "scheduler-1".

(** ** For the coordinator *)

Import Scheduler.

Definition content0 : Content := mkContent "payload" "bafy".
Definition provided : ProvideResponse := mkProvideResponse "bafy" 5 "".
Definition retrieved : RetrievalResponse := mkRetrievalResponse "bafy" 7 3 "".

(** Every call succeeds. *)
Definition world_ok : World :=
  mkWorld (Ok dbClient) true (Ok (models.mkRun 1))
    (fun _ _ => Ok (mkAPIInfo "peer" "build"))
    (fun _ n _ _ => Ok (models.mkNode (Z.of_nat n)))
    [2; 0; 1; 0]%nat
    (fun _ => None)
    (fun _ => Ok content0)
    (fun _ _ _ => Ok provided)
    (fun _ _ _ => None)
    (fun _ _ _ _ => Ok retrieved)
    (fun _ _ _ _ => None)
    (fun _ => [1; 0; 1]%nat).

(** The database refuses the provide of round 0. *)
Definition world_insert_fails : World :=
  mkWorld (Ok dbClient) true (Ok (models.mkRun 1))
    (fun _ _ => Ok (mkAPIInfo "peer" "build"))
    (fun _ n _ _ => Ok (models.mkNode (Z.of_nat n)))
    []
    (fun _ => None)
    (fun _ => Ok content0)
    (fun _ _ _ => Ok provided)
    (fun _ _ _ => Some (errorString "connection reset"))
    (fun _ _ _ _ => Ok retrieved)
    (fun _ _ _ _ => None)
    (fun _ => []).

(** The Provide call of round 1 fails. *)
Definition world_provide_fails : World :=
  mkWorld (Ok dbClient) true (Ok (models.mkRun 1))
    (fun _ _ => Ok (mkAPIInfo "peer" "build"))
    (fun _ n _ _ => Ok (models.mkNode (Z.of_nat n)))
    []
    (fun _ => None)
    (fun _ => Ok content0)
    (fun r _ _ =>
       if decide (r = 1%nat) then Err (errorString "connection refused")
       else Ok provided)
    (fun _ _ _ => None)
    (fun _ _ _ _ => Ok retrieved)
    (fun _ _ _ _ => None)
    (fun _ => []).

Definition fleet : list Node := [10; 11; 12]%nat.

End Examples.
(* ===================================================================== *)
(** * The agent: reading a request *)
(* ===================================================================== *)

Module ServerInv.
Import Golang Server.

(** What the head of the handler makes of a request: the decoded selector
    and content id, or nothing when the body cannot be read, is not the JSON
    of a [RetrieveRequest], or the [cid] parameter does not decode. *)
Definition parse (env : Env) (r : Request) (cid_param : string)
  : option (RetrieveRequest * Cid) :=
  match Body r with
  | Err _ => None
  | Ok data =>
      match json_Unmarshal env data with
      | Err _ => None
      | Ok rr =>
          match cid_Decode env cid_param with
          | Err _ => None
          | Ok c => Some (rr, c)
          end
      end
  end.

(** The calls that forget a peer. *)
Definition is_cleanup (c : Call) : Prop :=
  match c with
  | CallClosePeer _ | CallRemovePeer _ | CallClearAddrs _ => True
  | _ => False
  end.

(** The calls that look content up. *)
Definition is_lookup (c : Call) : Prop :=
  match c with
  | CallIndexerLookup _ | CallFindProvidersAsync _ _ => True
  | _ => False
  end.

End ServerInv.
(* ===================================================================== *)
(** * The coordinator's proxy of an agent: [Client.Retrieve] *)
(* ===================================================================== *)

Module Client.
Import Golang.

(** [const headerSchedulerID] of the server package. *)
Definition headerSchedulerID : string := "x-scheduler-id".

(** An [http.Header]: the values in the order they were added, each under
    its canonical key. *)
Abbreviation Header := (list (string * string)).

Record HTTPRequest := mkHTTPRequest {
  Method : string;
  URL : string;
  Headers : Header;
  ReqBody : string;
}.

(** An [http.Response] as the client reads it: the status code and the
    outcome of [io.ReadAll(res.Body)]. *)
Record HTTPResponse := mkHTTPResponse {
  StatusCode : Z;
  RespBody : Result string;
}.

(** The fields of [Client] that [Retrieve] reads. *)
Record Client := mkClient {
  addr : string;
  routing : string;
  schedulerID : string;
}.

(** What the client gets from outside: the JSON codec, the canonical form of
    a header key ([textproto.CanonicalMIMEHeaderKey]), the URL parser behind
    [http.NewRequest], and the round trip of [c.client.Do]. *)
Record Env := mkEnv {
  json_Marshal : Server.RetrieveRequest -> Result string;
  canonical : string -> string;
  url_Parse : string -> option error;
  Do : HTTPRequest -> Result HTTPResponse;
  json_Unmarshal : string -> Result Server.RetrievalResponse;
}.

Section Retrieve.
Variable env : Env.

(** [h.Add(key, value)] and [h.Get(key)] *)
Definition Header_Add (key value : string) (h : Header) : Header :=
  h ++ [(canonical env key, value)].

Definition Header_Get (key : string) (h : Header) : string :=
  match filter (fun kv => kv.1 = canonical env key) h with
  | [] => ""
  | kv :: _ => kv.2
  end.

(** [http.NewRequest(method, url, body)]: fails when the URL does not
    parse. *)
Definition NewRequest (method url body : string) : Result HTTPRequest :=
  match url_Parse env url with
  | Some err => Err err
  | None => Ok (mkHTTPRequest method url [] body)
  end.

Definition set_headers (h : Header) (req : HTTPRequest) : HTTPRequest :=
  mkHTTPRequest (Method req) (URL req) h (ReqBody req).

(** [fmt.Sprintf("http://%s/retrieve/%s", c.addr, content.String())] *)
Definition endpoint (c : Client) (content : string) : string :=
  "http://" +:+ addr c +:+ "/retrieve/" +:+ content.

(** The method [Retrieve] of [Client]; [content] is [content.String()], and
    a nil response with an error is [Err]. *)
Definition Retrieve (c : Client) (content : string)
  : Result Server.RetrievalResponse :=
  let rr := Server.mkRetrieveRequest (routing c) in
  match json_Marshal env rr with
  | Err err => Err (Errorf_w "marshal retrieval request" err)
  | Ok data =>
      match NewRequest "POST" (endpoint c content) data with
      | Err err => Err (Errorf_w "create retrieve request" err)
      | Ok req =>
          let req :=
            set_headers
              (Header_Add headerSchedulerID (schedulerID c)
                 (Header_Add "Content-Type" "application/json" (Headers req)))
              req in
          match Do env req with
          | Err err => Err (Errorf_w "post retrieval request" err)
          | Ok res =>
              match RespBody res with
              | Err err => Err (Errorf_w "read retrieval response" err)
              | Ok dat =>
                  match json_Unmarshal env dat with
                  | Err err =>
                      Err (Errorf_w "unmarshal retrieval response" err)
                  | Ok retrieval => Ok retrieval
                  end
              end
          end
      end
  end.

(** What the agent's HTTP server makes of a request for the route
    [/retrieve/:cid] and of the handler's writer: the handler sees the body
    and the scheduler-id header, and the response has the status the handler
    fixed (200 when it fixed none) and the body it wrote. *)
Definition incoming (req : HTTPRequest) : Server.Request :=
  Server.mkRequest (Ok (ReqBody req)) (Header_Get headerSchedulerID (Headers req)).

Definition outgoing (rw : Server.ResponseWriter) : HTTPResponse :=
  mkHTTPResponse (default Server.StatusOK (Server.status rw))
    (Ok (Server.body rw)).

End Retrieve.
End Client.
(* ===================================================================== *)
(** * The coordinator: failures, and what the proofs keep track of *)
(* ===================================================================== *)

Module FailureInv.
Import Golang errgroup Scheduler SchedulerInv.

(** The error a failed call makes its caller return: the loop for a Provide
    or its insert, the goroutine for the rest. *)
Definition failure_of (e : Event) : option error :=
  match e with
  | EvWaitForAPI _ (Err err) => Some err
  | EvInsertNode _ _ (Err err) => Some (Errorf_w "insert db node" err)
  | EvProvide _ _ _ _ (Err err) => Some (Errorf_w "provide content" err)
  | EvInsertProvide _ _ _ (Some err) => Some (Errorf_w "insert provide" err)
  | EvRetrieve _ _ _ _ (Err err) => Some (Errorf_w "api retrieve" err)
  | EvInsertRetrieval _ _ _ (Some err) =>
      Some (Errorf_w "insert retrieve" err)
  | _ => None
  end.

(** The nodes polled by the barrier, in the order of the calls. *)
Definition wait_call (e : Event) : option Node :=
  match e with EvWaitForAPI n _ => Some n | _ => None end.

Definition pending_wait (slot : option ReadyTask) : option Node :=
  match slot with Some (TWaitForAPI _ n) => Some n | _ => None end.

(** A goroutine of a round that cannot panic: its index is within the fleet,
    or it holds the row it is about to write under. *)
Definition slot_safe (nodes : list Node) (slot : option RetrTask) : Prop :=
  match slot with
  | Some (TRetrieve rn) => 0 <= rn < len nodes
  | Some (TInsertRetrieval dbNode _) => dbNode <> None
  | None => True
  end.

(** The rows suffice for the run: none is needed without a database, and
    with one there is a row for every node. *)
Definition rows_ok (dbc : option DBClient) (nodes : list Node)
    (dbN : list (option models.Node)) : Prop :=
  length dbN = length nodes /\
  (dbc = None \/ exists ds : list models.Node, dbN = Some <$> ds).

(** What holds of the goroutines of round [r] besides [retr_inv]: the calls
    made so far and those still to come are the indices started for; the
    group has an error exactly when a call failed, and the error is that of a
    failed call; a retrieval is inserted under the row of the node it was
    made on. *)
Definition retr_facts (nodes : list Node) (r : nat) (content : Content)
    (rns : list Z) (tr0 : list Event) (dbN : list (option models.Node))
    (g : Group RetrTask Shared) (new : list Event) : Prop :=
  trace (shared g) = tr0 ++ new /\
  dbNodes (shared g) = dbN /\
  Forall (is_retr_event r) new /\
  omap (retrieve_call r) new ++ omap pending_call (tasks g) ≡ₚ rns /\
  (err g = None -> Forall (fun e => failure_of e = None) new) /\
  (forall e, err g = Some e ->
             exists ev, ev ∈ new /\ failure_of ev = Some e) /\
  (forall dbNode x i,
     tasks g !! i = Some (Some (TInsertRetrieval dbNode x)) ->
     exists rn n,
       EvRetrieve r rn n (CID content) (Ok x) ∈ new /\
       index nodes rn = Some n /\ index dbN rn = Some dbNode) /\
  (forall id x res,
     EvInsertRetrieval r id x res ∈ new ->
     exists rn n d,
       EvRetrieve r rn n (CID content) (Ok x) ∈ new /\
       index nodes rn = Some n /\ index dbN rn = Some (Some d) /\
       models.ID d = id) /\
  (forall rn n cid res,
     EvRetrieve r rn n cid res ∈ new ->
     index nodes rn = Some n /\ cid = CID content).

(** The goroutines of a round cannot panic. *)
Definition retr_safe (nodes : list Node) (dbN : list (option models.Node))
    (g : Group RetrTask Shared) : Prop :=
  panicked g = None /\ dbNodes (shared g) = dbN /\
  Forall (slot_safe nodes) (tasks g).

(** What holds of the goroutines of the barrier while they run: the nodes
    polled so far and those still to be polled are the fleet; there is an
    error exactly when a call failed; no goroutine panics; and a row of
    [dbNodes] is the one the database returned for the node of that index. *)
Definition ready_facts (nodes : list Node) (dbc : option DBClient)
    (tr0 : list Event) (g : Group ReadyTask Shared) (new : list Event)
  : Prop :=
  trace (shared g) = tr0 ++ new /\
  Forall is_ready_event new /\
  panicked g = None /\
  length (dbNodes (shared g)) = length nodes /\
  omap wait_call new ++ omap pending_wait (tasks g) ≡ₚ nodes /\
  (err g = None -> Forall (fun e => failure_of e = None) new) /\
  (forall e, err g = Some e ->
             exists ev, ev ∈ new /\ failure_of ev = Some e) /\
  (forall i t,
     tasks g !! i = Some (Some t) ->
     match t with
     | TWaitForAPI i2 n2 | TInsertNode i2 n2 _ =>
         i2 = i /\ nodes !! i = Some n2
     end) /\
  (dbc = None -> Forall (fun slot => ~ inserting_node slot) (tasks g)) /\
  (forall i d,
     dbNodes (shared g) !! i = Some (Some d) ->
     exists n runID,
       nodes !! i = Some n /\ EvInsertNode runID n (Ok d) ∈ new) /\
  (dbc <> None -> err g = None ->
   forall i, tasks g !! i = Some None ->
             exists d, dbNodes (shared g) !! i = Some (Some d)).

(** The rows of a run are those the database returned for its nodes. *)
Definition rows_attributed (nodes : list Node) (s : Shared) : Prop :=
  forall i d,
    dbNodes s !! i = Some (Some d) ->
    exists n runID,
      nodes !! i = Some n /\ EvInsertNode runID n (Ok d) ∈ trace s.

(** The ways through the body of the loop, as the code takes them. *)
Inductive round_case (w : World) (dbc : option DBClient) (nodes : list Node)
    (r : nat) (p : Z) (s : Shared) : Shared * RoundResult -> Prop :=
| case_cancelled e :
    Context_Err w r = Some e ->
    round_case w dbc nodes r p s (s, Exited (Returned e))
| case_no_content e :
    Context_Err w r = None -> NewRandomContent w r = Err e ->
    round_case w dbc nodes r p s
      (s, Exited (Returned (Errorf_w "new random content" e)))
| case_no_provider content :
    Context_Err w r = None -> NewRandomContent w r = Ok content ->
    index nodes p = None ->
    round_case w dbc nodes r p s (s, Exited (Panicked IndexOutOfRange))
| case_provide_failed content node e :
    Context_Err w r = None -> NewRandomContent w r = Ok content ->
    index nodes p = Some node -> Provide w r node content = Err e ->
    round_case w dbc nodes r p s
      (emit (EvProvide r p node content (Err e)) s,
       Exited match index (dbNodes s) p with
              | Some (Some _) => Returned (Errorf_w "provide content" e)
              | Some None => Panicked NilDereference
              | None => Panicked IndexOutOfRange
              end)
| case_no_row content node pr :
    Context_Err w r = None -> NewRandomContent w r = Ok content ->
    index nodes p = Some node -> Provide w r node content = Ok pr ->
    dbc <> None ->
    (forall d, index (dbNodes s) p <> Some (Some d)) ->
    round_case w dbc nodes r p s
      (emit (EvProvide r p node content (Ok pr)) s,
       Exited (Panicked match index (dbNodes s) p with
                        | Some _ => NilDereference
                        | None => IndexOutOfRange
                        end))
| case_insert_failed content node pr d e :
    Context_Err w r = None -> NewRandomContent w r = Ok content ->
    index nodes p = Some node -> Provide w r node content = Ok pr ->
    dbc <> None -> index (dbNodes s) p = Some (Some d) ->
    InsertProvide w r (models.ID d) pr = Some e ->
    round_case w dbc nodes r p s
      (mkShared
         (trace s ++ [EvProvide r p node content (Ok pr);
                      EvInsertProvide r (models.ID d) pr (Some e)])
         (dbNodes s),
       Exited (Returned (Errorf_w "insert provide" e)))
| case_retrievals content node pr ins g res :
    Context_Err w r = None -> NewRandomContent w r = Ok content ->
    index nodes p = Some node -> Provide w r node content = Ok pr ->
    (dbc = None /\ ins = [] \/
     dbc <> None /\
     exists d, index (dbNodes s) p = Some (Some d) /\
               InsertProvide w r (models.ID d) pr = None /\
               ins = [EvInsertProvide r (models.ID d) pr None]) ->
    g = Wait (retrieve_task w dbc nodes r content) (sched_round w r) 2
          (spawn_retrieve nodes p
             (WithContext
                (mkShared
                   (trace s ++ EvProvide r p node content (Ok pr) :: ins)
                   (dbNodes s)))) ->
    res = match panicked g, err g with
          | Some why, _ => Exited (Panicked why)
          | None, Some err =>
              Exited (Returned (Errorf_w "waitgroup retrieve" err))
          | None, None => Completed (int_rem (int_add p 1) (len nodes))
          end ->
    round_case w dbc nodes r p s (shared g, res).

(** An event of the trace holds what the outside answered to that call. *)
Definition faithful (w : World) (e : Event) : Prop :=
  match e with
  | EvInitDBClient | EvInitRun => True
  | EvWaitForAPI n res => exists c, res = WaitForAPI w n c
  | EvInsertNode runID n res =>
      exists info c, res = InsertNode w runID n info c
  | EvProvide r _ n content res => res = Provide w r n content
  | EvInsertProvide r id pr res => res = InsertProvide w r id pr
  | EvRetrieve r _ n cid res => exists c, res = Retrieve w r n cid c
  | EvInsertRetrieval r id x res =>
      exists c, res = InsertRetrieval w r id x c
  end.

(** The errors [ScheduleAction] returns before it reaches the barrier. *)
Definition setup_failure (w : World) (dry : bool) (e : error) : Prop :=
  (dry = false /\
   exists e', InitDBClient w = Err e' /\ e = Errorf_w "init db client" e') \/
  (ReadBuildInfo w = false /\
   e = errorString "read build info: %!w(<nil>)") \/
  (dry = false /\
   exists e', InitRun w = Err e' /\ e = Errorf_w "init run" e').

(** The barrier is reached: the database, if any, and the build
    information are there. *)
Definition setup_succeeds (w : World) (dry : bool) : Prop :=
  ReadBuildInfo w = true /\
  (dry = false ->
   (exists dbc, InitDBClient w = Ok dbc) /\
   (exists dbRun, InitRun w = Ok dbRun)).

(** The trace when [errg.Wait] of the barrier has returned. *)
Definition barrier_trace (w : World) (nodes : list Node) (tr : list Event)
  : Prop :=
  startup tr /\ Forall (faithful w) tr /\ omap wait_call tr ≡ₚ nodes.

(** The ways through [ScheduleAction], as the code takes them. *)
Inductive run_case (w : World) (dry : bool) (nodes : list Node)
    (fuel : nat) : Run -> Prop :=
| run_setup_failed tr e :
    Forall (fun ev => ev = EvInitDBClient \/ ev = EvInitRun) tr ->
    setup_failure w dry e ->
    run_case w dry nodes fuel (stopped tr (Returned e))
| run_barrier_failed tr e ev :
    setup_succeeds w dry ->
    barrier_trace w nodes tr ->
    ev ∈ tr -> failure_of ev = Some e ->
    run_case w dry nodes fuel
      (stopped tr (Returned (Errorf_w "waiting for parsec node APIs" e)))
| run_loop s :
    setup_succeeds w dry ->
    barrier_trace w nodes (trace s) ->
    Forall (fun e => failure_of e = None) (trace s) ->
    rows_ok (if dry then None else Some dbClient) nodes (dbNodes s) ->
    (dry = true -> Forall (fun row => row = None) (dbNodes s)) ->
    rows_attributed nodes s ->
    run_case w dry nodes fuel
      (loop w (if dry then None else Some dbClient) nodes fuel 0 0 s).

(** What round [r], with provider index [p] and the rows [dbN], adds to the
    trace and how it ends, for each way through the body of the loop. *)
Record round_detail (w : World) (dbc : option DBClient) (nodes : list Node)
    (r : nat) (p : Z) (dbN : list (option models.Node)) (new : list Event)
    (res : RoundResult) : Prop := mkDetail {
  rd_round : Forall (fun e => round_of e = Some r) new;
  rd_faithful : Forall (faithful w) new;
  rd_started :
    new <> [] ->
    Context_Err w r = None /\ exists content, NewRandomContent w r = Ok content;
  rd_cancelled :
    forall e, Context_Err w r = Some e ->
              new = [] /\ res = Exited (Returned e);
  rd_completed :
    forall p', res = Completed p' ->
               Forall (fun e => failure_of e = None) new;
  rd_exited :
    forall x, res = Exited x ->
      (exists e, Context_Err w r = Some e /\ x = Returned e) \/
      (exists e, NewRandomContent w r = Err e /\
                 x = Returned (Errorf_w "new random content" e)) \/
      (exists ev e,
         ev ∈ new /\ failure_of ev = Some e /\
         (x = Returned e \/ x = Returned (Errorf_w "waitgroup retrieve" e) \/
          (dbc = None /\ x = Panicked NilDereference /\
           exists n c e', ev = EvProvide r p n c (Err e')))) \/
      (exists why,
         x = Panicked why /\
         ~ (rows_ok dbc nodes dbN /\ 0 <= p < len nodes /\
            len nodes <= maxFleet));
  rd_provide :
    forall r' p' n c res',
      EvProvide r' p' n c res' ∈ new ->
      r' = r /\ p' = p /\ index nodes p = Some n /\
      NewRandomContent w r = Ok c /\ hd_error new = Some (EvProvide r p n c res');
  rd_provide_failed :
    forall r' p' n c e,
      EvProvide r' p' n c (Err e) ∈ new ->
      new = [EvProvide r p n c (Err e)] /\
      exists x,
        res = Exited x /\
        (forall d, index dbN p = Some (Some d) ->
                   x = Returned (Errorf_w "provide content" e)) /\
        (index dbN p = Some None -> x = Panicked NilDereference);
  rd_insert_failed :
    forall r' id pr e,
      EvInsertProvide r' id pr (Some e) ∈ new ->
      Forall (fun ev => ~ is_retr_event r ev) new /\
      res = Exited (Returned (Errorf_w "insert provide" e));
  rd_calls :
    forall rn, rn ∈ omap (retrieve_call r) new -> rn ∈ retrNodes nodes p;
  rd_siblings :
    forall r' p' n c pr,
      EvProvide r' p' n c (Ok pr) ∈ new ->
      (dbc <> None -> exists id, EvInsertProvide r id pr None ∈ new) ->
      (forall why, res <> Exited (Panicked why)) ->
      omap (retrieve_call r) new ≡ₚ retrNodes nodes p;
  rd_insert_provide :
    forall r' id pr res',
      EvInsertProvide r' id pr res' ∈ new ->
      exists n content d,
        EvProvide r p n content (Ok pr) ∈ new /\
        index nodes p = Some n /\ index dbN p = Some (Some d) /\
        models.ID d = id;
  rd_insert_retrieval :
    forall r' id x res',
      EvInsertRetrieval r' id x res' ∈ new ->
      exists rn n cid d,
        EvRetrieve r rn n cid (Ok x) ∈ new /\
        index nodes rn = Some n /\ index dbN rn = Some (Some d) /\
        models.ID d = id;
  rd_retrieve :
    forall r' rn n cid res',
      EvRetrieve r' rn n cid res' ∈ new ->
      index nodes rn = Some n /\ rn ∈ retrNodes nodes p /\
      exists content, NewRandomContent w r = Ok content /\ cid = CID content;
}.

(** What holds of the shared memory whenever the loop starts round [r]:
    there is a row for every node, each the one the database returned for
    the node; the events of the trace hold what the outside answered; no
    call has failed; and no call of round [r] or later is made yet. *)
Definition loop_state (w : World) (dbc : option DBClient)
    (nodes : list Node) (r : nat) (s : Shared) : Prop :=
  rows_ok dbc nodes (dbNodes s) /\
  (dbc = None -> Forall (fun row => row = None) (dbNodes s)) /\
  rows_attributed nodes s /\
  Forall (faithful w) (trace s) /\
  Forall (fun e => failure_of e = None) (trace s) /\
  before_round r (trace s).

(** Nothing the coordinator calls fails, and its context is not
    cancelled. *)
Definition nothing_fails (w : World) (dry : bool) : Prop :=
  setup_succeeds w dry /\
  (forall n c, exists info, WaitForAPI w n c = Ok info) /\
  (forall runID n info c, exists row, InsertNode w runID n info c = Ok row) /\
  (forall r, Context_Err w r = None) /\
  (forall r, exists content, NewRandomContent w r = Ok content) /\
  (forall r n content, exists pr, Provide w r n content = Ok pr) /\
  (forall r id pr, InsertProvide w r id pr = None) /\
  (forall r n cid c, exists x, Retrieve w r n cid c = Ok x) /\
  (forall r id x c, InsertRetrieval w r id x c = None).

(** The provider index at the start of round [r]. *)
Definition prov_ok (nodes : list Node) (r : nat) (p : Z) : Prop :=
  1 <= len nodes -> len nodes <= maxInt -> p = Z.of_nat r mod len nodes.

(** No event of a trace belongs to round [r]. *)
Definition no_round (r : nat) (tr : list Event) : Prop :=
  Forall (fun e => round_of e <> Some r) tr.

End FailureInv.

(* ===================================================================== *)
(** * The agent's server: [NewServer], [Shutdown] and the middleware *)
(* ===================================================================== *)

Module Middleware.
Import Golang Stdlib.Strings.Ascii.

(** [strings.Split(s, sep)] for a separator of one byte: the piece before
    the first separator and the pieces after it. *)
Fixpoint cut (s : string) (sep : Ascii.ascii) : string * list string :=
  match s with
  | EmptyString => ("", [])
  | String a s' =>
      let '(p, ps) := cut s' sep in
      if decide (a = sep) then ("", p :: ps) else (String a p, ps)
  end.

Definition Split (s : string) (sep : Ascii.ascii) : list string :=
  let '(p, ps) := cut s sep in p :: ps.

(** [strings.Contains(s, sep)], to speak of the pieces. *)
Fixpoint Contains (s : string) (sep : Ascii.ascii) : bool :=
  match s with
  | EmptyString => false
  | String a s' => if decide (a = sep) then true else Contains s' sep
  end.

(** The fields of an [*http.Request] the middleware reads. *)
Record Request := mkRequest {
  Method : string;
  URL_Path : string;
  URL_String : string;
  Header : Client.Header;
}.

(** What the middleware writes to: the counter vector [totalRequests], by
    label values, and the log. *)
Record Telemetry := mkTelemetry {
  totalRequests : gmap (string * string * string) nat;
  logged : list (string * string);
}.

(** An [http.Handler] over the telemetry and the state [St] of the routes. *)
Definition Handler (St : Type) : Type :=
  Server.ResponseWriter -> Request -> Telemetry * St ->
  (Telemetry * St) * Server.ResponseWriter.

(** [path := "-"; if len(parts) > 1 { path = parts[1] }] *)
Definition metric_path (url_path : string) : string :=
  let parts := Split url_path "/"%char in
  if 1 <? Z.of_nat (length parts) then default "-" (parts !! 1%nat) else "-".

(** [totalRequests.WithLabelValues(...).Inc()] *)
Definition Inc (labels : string * string * string) (tel : Telemetry)
  : Telemetry :=
  mkTelemetry
    (<[labels := S (default 0%nat (totalRequests tel !! labels))]>
       (totalRequests tel))
    (logged tel).

Section Handlers.
Variable cenv : Client.Env.
Context {St : Type}.

(** [func (s *Server) logHandler(h http.Handler) http.Handler] *)
Definition logHandler (h : Handler St) : Handler St :=
  fun rw r '(tel, st) =>
    let tel :=
      mkTelemetry (totalRequests tel)
        (logged tel ++ [(URL_String r, Method r)]) in
    h rw r (tel, st).

(** [func (s *Server) metricsHandler(h http.Handler) http.Handler] *)
Definition metricsHandler (h : Handler St) : Handler St :=
  fun rw r '(tel, st) =>
    let path := metric_path (URL_Path r) in
    let tel :=
      Inc (Method r, path,
           Client.Header_Get cenv Client.headerSchedulerID (Header r)) tel in
    h rw r (tel, st).

End Handlers.
End Middleware.

Module Lifecycle.
Import Golang errgroup.

(** The fields of [config.ServerConfig] that [NewServer] reads itself. *)
Record ServerConfig := mkServerConfig {
  ServerHost : string;
  ServerPort : Z;
  FirehoseConnectionEvents : bool;
}.

(** The calls of [NewServer] and [Shutdown], each with what came back where
    the caller looks at it. *)
Inductive Call :=
| CallNewFirehose
| CallNewHost
| CallSetHost
| CallConnect (bp : string) (res : option error)
| CallInsertNode (hostID : string)
| CallSetDBNodeID (id : Z)
| CallNotify
| CallCancel
| CallStopNotify
| CallServerShutdown
| CallHostClose
| CallUpdateOfflineSince (id : Z).

(** Which case of the [select] at the end of [Shutdown] fires first, if
    any. *)
Inductive Select :=
| SelDone
| SelCtxDone (err : error)
| SelNever.

(** What [NewServer] and [Shutdown] get from outside: the firehose client,
    the libp2p host (known by its ID), the bootstrap peers, the database,
    [fmt.Sprintf("%s:%d", ...)], and for [Shutdown] the two stops, the Go
    scheduler before and after [s.cancel()] and the [select]. *)
Record World := mkWorld {
  firehose_NewClient : option error;
  dht_New : Result string;
  GetDefaultBootstrapPeerAddrInfos : list string;
  Connect : string -> option error;
  InsertNode : string -> Result models.Node;
  Sprintf_addr : string -> Z -> string;
  server_Shutdown : option error;
  host_Close : option error;
  UpdateOfflineSince : option error;
  sched_before : list nat;
  sched_after : list nat;
  selected : Select;
}.

(** The fields of [Server] that the two functions set or read; [server] says
    whether [s.server] is set, which [ListenAndServe] does. *)
Record Server := mkServer {
  addr : string;
  host : string;
  dbNode : models.Node;
  server : bool;
}.

Section Life.
Variable w : World.

(** [for _, bp := range kaddht.GetDefaultBootstrapPeerAddrInfos() { ... }]:
    a failed [Connect] is logged and nothing else. *)
Definition connect_all (tr : list Call) : list Call :=
  foldl (fun tr bp => tr ++ [CallConnect bp (Connect w bp)]) tr
        (GetDefaultBootstrapPeerAddrInfos w).

(** [func NewServer(ctx, dbc, conf)], which returns a server or an error *)
Definition NewServer (conf : ServerConfig) : list Call * Result Server :=
  match firehose_NewClient w with
  | Some err =>
      ([CallNewFirehose; CallCancel],
       Err (Errorf_w "new firehose client" err))
  | None =>
  match dht_New w with
  | Err err =>
      ([CallNewFirehose; CallNewHost; CallCancel],
       Err (Errorf_w "new host" err))
  | Ok parsecHost =>
  let tr := connect_all [CallNewFirehose; CallNewHost; CallSetHost] in
  match InsertNode w parsecHost with
  | Err err =>
      (tr ++ [CallInsertNode parsecHost; CallCancel],
       Err (Errorf_w "insert node" err))
  | Ok row =>
      let tr :=
        tr ++ [CallInsertNode parsecHost; CallSetDBNodeID (models.ID row)] in
      let listen := Sprintf_addr w (ServerHost conf) (ServerPort conf) in
      if FirehoseConnectionEvents conf
      then (tr ++ [CallNotify], Ok (mkServer listen parsecHost row false))
      else (tr, Ok (mkServer listen parsecHost row false))
  end
  end
  end.

(** The two goroutines of [Shutdown]. *)
Inductive StopTask := TServerShutdown | THostClose.

Definition stop_task (s : Server) (cancelled : bool) (t : StopTask)
    (tr : list Call) : Step StopTask (list Call) :=
  match t with
  | TServerShutdown =>
      if server s then Return (server_Shutdown w) (tr ++ [CallServerShutdown])
      else Return None tr
  | THostClose => Return (host_Close w) (tr ++ [CallHostClose])
  end.

(** How [Shutdown] ends: it returns, or waits for ever in its [select]. *)
Inductive Outcome :=
| Returns (err : option error)
| Blocks.

(** The deferred function: it runs when [Shutdown] returns, and what
    [UpdateOfflineSince] answers is logged and nothing else. *)
Definition deferred (s : Server) (tr : list Call) : list Call :=
  match UpdateOfflineSince w with
  | Some _ => tr ++ [CallUpdateOfflineSince (models.ID (dbNode s))]
  | None => tr ++ [CallUpdateOfflineSince (models.ID (dbNode s))]
  end.

(** [func (s *Server) Shutdown(ctx) error].  The goroutines run from their
    [errg.Go] on, so some of their steps come before [s.cancel()] and the
    rest before [errg.Wait()] returns. *)
Definition Shutdown (s : Server) : list Call * Outcome :=
  let errg := mkGroup [] None None [CallStopNotify] in
  let errg := Go TServerShutdown errg in
  let errg := Go THostClose errg in
  let errg := run (stop_task s) (sched_before w) errg in
  let errg :=
    mkGroup (tasks errg) (err errg) (panicked errg)
      (shared errg ++ [CallCancel]) in
  let errg := Wait (stop_task s) (sched_after w) 1 errg in
  match err errg with
  | Some err =>
      (deferred s (shared errg), Returns (Some (Errorf_w "shutting down" err)))
  | None =>
      match selected w with
      | SelDone => (deferred s (shared errg), Returns None)
      | SelCtxDone err => (deferred s (shared errg), Returns (Some err))
      | SelNever => (shared errg, Blocks)
      end
  end.

End Life.

(** ** Reading a trace *)

Definition connect_call (c : Call) : option (string * option error) :=
  match c with CallConnect bp res => Some (bp, res) | _ => None end.

Definition is_update (c : Call) : bool :=
  match c with CallUpdateOfflineSince _ => true | _ => false end.

Definition is_server_shutdown (c : Call) : bool :=
  match c with CallServerShutdown => true | _ => false end.

Definition is_host_close (c : Call) : bool :=
  match c with CallHostClose => true | _ => false end.

Definition is_cancel (c : Call) : bool :=
  match c with CallCancel => true | _ => false end.

(** How often a call is made in a trace. *)
Definition count (p : Call -> bool) (tr : list Call) : nat :=
  length (filter (fun c => p c = true) tr).

(** The world with other answers of [Connect], and with another answer of
    [UpdateOfflineSince]. *)
Definition with_Connect (f : string -> option error) (w : World) : World :=
  mkWorld (firehose_NewClient w) (dht_New w)
    (GetDefaultBootstrapPeerAddrInfos w) f (InsertNode w) (Sprintf_addr w)
    (server_Shutdown w) (host_Close w) (UpdateOfflineSince w)
    (sched_before w) (sched_after w) (selected w).

Definition with_UpdateOfflineSince (res : option error) (w : World) : World :=
  mkWorld (firehose_NewClient w) (dht_New w)
    (GetDefaultBootstrapPeerAddrInfos w) (Connect w) (InsertNode w)
    (Sprintf_addr w) (server_Shutdown w) (host_Close w) res
    (sched_before w) (sched_after w) (selected w).

(** What the goroutines of [Shutdown] return. *)
Definition server_result (w : World) (s : Server) : option error :=
  if server s then server_Shutdown w else None.

(** What holds of the two goroutines of [Shutdown] while they run: the
    error of the group is that of the goroutines that have returned, the
    first of them if both have; each has made its call once it has
    returned. *)
Definition stop_err (w : World) (s : Server)
    (slot0 slot1 : option StopTask) (e : option error) : Prop :=
  match slot0, slot1 with
  | Some _, Some _ => e = None
  | None, Some _ => e = server_result w s
  | Some _, None => e = host_Close w
  | None, None =>
      e = errOnce (server_result w s) (host_Close w) \/
      e = errOnce (host_Close w) (server_result w s)
  end.

Definition stop_inv (w : World) (s : Server) (cancels : nat)
    (g : Group StopTask (list Call)) : Prop :=
  panicked g = None /\
  (exists slot0 slot1,
     tasks g = [slot0; slot1] /\
     (slot0 = Some TServerShutdown \/ slot0 = None) /\
     (slot1 = Some THostClose \/ slot1 = None) /\
     count is_server_shutdown (shared g) =
       match slot0 with
       | Some _ => 0%nat
       | None => if server s then 1%nat else 0%nat
       end /\
     count is_host_close (shared g) =
       match slot1 with Some _ => 0%nat | None => 1%nat end /\
     stop_err w s slot0 slot1 (err g)) /\
  hd_error (shared g) = Some CallStopNotify /\
  count is_update (shared g) = 0%nat /\
  count is_cancel (shared g) = cancels.

(** The first stop succeeds, or there is no server to stop. *)
Definition server_stopped (w : World) (s : Server) : Prop :=
  server_result w s = None.

End Lifecycle.

(* ===================================================================== *)
(** * More concrete surroundings *)
(* ===================================================================== *)

Module MoreExamples.
Import Golang Examples.

(** ** For the proxy and the agent *)

(** An agent that refuses an empty content id. *)
Definition env_strict : Server.Env :=
  Server.mkEnv
    (fun data => Ok (Server.mkRetrieveRequest data))
    (fun s => if decide (s = "") then Err (errorString "empty cid") else Ok s)
    (fun resp => Ok (show_response resp))
    (fun _ h => (h, Ok (Server.mkFindResponse [])))
    (fun _ _ h => (h, Server.ChanClosed Server.DeadlineExceeded))
    1000 1250.

Definition read_response (js : string) : Result Server.RetrievalResponse :=
  if decide (js = "bafy|not found")
  then Ok (Server.mkRetrievalResponse "bafy" 250 42 "not found")
  else Err (errorString "unexpected end of JSON input").

(** A proxy wired straight to the handler of an agent. *)
Definition loopback (senv : Server.Env) (content : string) : Client.Env :=
  let codec :=
    Client.mkEnv (fun rr => Ok (Server.Routing rr)) id (fun _ => None)
      (fun _ => Err (errorString "no transport")) read_response in
  Client.mkEnv (fun rr => Ok (Server.Routing rr)) id (fun _ => None)
    (fun req =>
       Ok (Client.outgoing
             (Server.retrieve tagIPNI tagDHT senv server0 rw0
                (Client.incoming codec req) content).2))
    read_response.

Definition proxy : Client.Client :=
  Client.mkClient "10.0.0.7:7070" "DHT" "scheduler-1".

(** ** For the coordinator *)

Import Scheduler.

(** The context is cancelled when round 2 starts. *)
Definition world_cancelled : World :=
  mkWorld (Ok dbClient) true (Ok (models.mkRun 1))
    (fun _ _ => Ok (mkAPIInfo "peer" "build"))
    (fun _ n _ _ => Ok (models.mkNode (Z.of_nat n)))
    []
    (fun r => if decide (r = 2%nat) then Some (errorString "context canceled")
              else None)
    (fun _ => Ok content0)
    (fun _ _ _ => Ok provided)
    (fun _ _ _ => None)
    (fun _ _ _ _ => Ok retrieved)
    (fun _ _ _ _ => None)
    (fun _ => []).

(** Node 12 cannot be retrieved from. *)
Definition world_retrieve_fails : World :=
  mkWorld (Ok dbClient) true (Ok (models.mkRun 1))
    (fun _ _ => Ok (mkAPIInfo "peer" "build"))
    (fun _ n _ _ => Ok (models.mkNode (Z.of_nat n)))
    []
    (fun _ => None)
    (fun _ => Ok content0)
    (fun _ _ _ => Ok provided)
    (fun _ _ _ => None)
    (fun _ n _ _ =>
       if decide (n = 12%nat) then Err (errorString "connection refused")
       else Ok retrieved)
    (fun _ _ _ _ => None)
    (fun _ => [1; 0]%nat).

(** Node 11 never becomes ready. *)
Definition world_unready : World :=
  mkWorld (Ok dbClient) true (Ok (models.mkRun 1))
    (fun n _ =>
       if decide (n = 11%nat) then Err (errorString "deadline exceeded")
       else Ok (mkAPIInfo "peer" "build"))
    (fun _ n _ _ => Ok (models.mkNode (Z.of_nat n)))
    []
    (fun _ => None)
    (fun _ => Ok content0)
    (fun _ _ _ => Ok provided)
    (fun _ _ _ => None)
    (fun _ _ _ _ => Ok retrieved)
    (fun _ _ _ _ => None)
    (fun _ => []).

(** The build information cannot be read. *)
Definition world_no_build : World :=
  mkWorld (Ok dbClient) false (Ok (models.mkRun 1))
    (fun _ _ => Ok (mkAPIInfo "peer" "build"))
    (fun _ n _ _ => Ok (models.mkNode (Z.of_nat n)))
    []
    (fun _ => None)
    (fun _ => Ok content0)
    (fun _ _ _ => Ok provided)
    (fun _ _ _ => None)
    (fun _ _ _ _ => Ok retrieved)
    (fun _ _ _ _ => None)
    (fun _ => []).

(** ** For the agent's server *)

(** The second bootstrap peer cannot be reached; stopping the HTTP server
    fails, and the goroutine closing the host runs first. *)
Definition life : Lifecycle.World :=
  Lifecycle.mkWorld None (Ok "QmAgent") ["QmBoot1"; "QmBoot2"]
    (fun bp => if decide (bp = "QmBoot2")
               then Some (errorString "dial timeout") else None)
    (fun _ => Ok (models.mkNode 7))
    (fun host port => host +:+ ":7070")
    (Some (errorString "context deadline exceeded")) None None
    [1%nat] [] Lifecycle.SelDone.

Definition conf0 : Lifecycle.ServerConfig :=
  Lifecycle.mkServerConfig "localhost" 7070 true.

End MoreExamples.
(* ===================================================================== *)
(** * Facts about the prelude *)
(* ===================================================================== *)

Module GolangFacts.
Import Golang.

Lemma wrap_id z : minInt <= z <= maxInt -> wrap z = z.
Proof.
  unfold wrap, minInt, maxInt. intros Hz.
  rewrite Z.mod_small by lia. lia.
Qed.

Lemma subMono_monotonic t u :
  minInt <= u <= maxInt -> minInt <= t <= maxInt -> u <= t ->
  0 <= subMono t u.
Proof.
  intros Hu Ht Hle. unfold subMono, int_sub.
  destruct (decide (t - u <= maxInt)) as [Hfit|Hbig].
  - rewrite wrap_id by (unfold minInt, maxInt in *; lia).
    destruct (t - u <? 0) eqn:E1; [apply Z.ltb_lt in E1; lia|]. simpl.
    destruct (0 <? t - u) eqn:E2; simpl.
    + destruct (t <? u) eqn:E3; [apply Z.ltb_lt in E3; lia|lia].
    + lia.
  - assert (Hw : wrap (t - u) = t - u - 2 ^ 64).
    { unfold wrap.
      replace (t - u + 2 ^ 63) with ((t - u - 2 ^ 63) + 1 * 2 ^ 64) by lia.
      rewrite Z.mod_add by lia.
      rewrite Z.mod_small by (unfold minInt, maxInt in *; lia). lia. }
    rewrite Hw.
    assert (Hneg : (t - u - 2 ^ 64 <? 0) = true)
      by (apply Z.ltb_lt; unfold minInt, maxInt in *; lia).
    assert (Hlt : (u <? t) = true)
      by (apply Z.ltb_lt; unfold minInt, maxInt in *; lia).
    rewrite Hneg, Hlt. simpl. unfold maxDuration, maxInt. lia.
Qed.

Lemma int_add_exact a b : minInt <= a + b <= maxInt -> int_add a b = a + b.
Proof. apply wrap_id. Qed.

Lemma int_sub_exact a b : minInt <= a - b <= maxInt -> int_sub a b = a - b.
Proof. apply wrap_id. Qed.

Lemma int_rem_exact a b :
  0 <= a <= maxInt -> 0 < b -> int_rem a b = a mod b.
Proof.
  intros Ha Hb. unfold int_rem. rewrite Z.rem_mod_nonneg by lia.
  apply wrap_id. pose proof (Z.mod_pos_bound a b Hb).
  pose proof (Z.mod_le a b ltac:(lia) Hb).
  unfold minInt, maxInt in *. lia.
Qed.

End GolangFacts.

(* ===================================================================== *)
(** * The agent's Retrieve handler: properties *)
(* ===================================================================== *)

Module ServerSpec.
Import Golang GolangFacts Server.

Section Handler.
Variables RoutingIPNI RoutingDHT : string.
Variable env : Env.

Local Abbreviation retrieve := (Server.retrieve RoutingIPNI RoutingDHT env).

(** The duration the handler reports: [time.Since(start)]. *)
Local Abbreviation measured := (subMono (clock_end env) (clock_start env)).

Lemma Write_fresh data rw :
  status rw = None -> body rw = "" -> broken rw = false ->
  Write data rw = (mkResponseWriter (Some StatusOK) data false, None).
Proof.
  destruct rw as [st bd br]; simpl; intros -> -> ->. reflexivity.
Qed.

Lemma Write_status data rw :
  status rw = None -> status (fst (Write data rw)) = Some StatusOK.
Proof.
  destruct rw as [st bd br]; simpl; intros ->.
  unfold Write, WriteHeader; simpl. by destruct br.
Qed.

Lemma Write_status_kept data rw code :
  status rw = Some code -> status (fst (Write data rw)) = Some code.
Proof.
  destruct rw as [st bd br]; simpl; intros ->.
  unfold Write, WriteHeader; simpl. by destruct br.
Qed.

Lemma WriteHeader_kept code' rw code :
  status rw = Some code -> WriteHeader code' rw = rw.
Proof. unfold WriteHeader. by intros ->. Qed.

(** Once the request is parsed the status line is 200 whatever happens:
    every later path writes to the body before it sets a status. *)
Lemma respond_status resp s rw :
  status rw = None -> status (snd (respond env resp s rw)) = Some StatusOK.
Proof.
  intros Hst. unfold respond.
  destruct (json_Marshal env resp) as [data|e]; simpl.
  - pose proof (Write_status data rw Hst) as Hw.
    destruct (Write data rw) as [rw1 [e|]]; simpl in *; [|done].
    pose proof (Write_status_kept (Error e) rw1 _ Hw) as Hw2.
    by rewrite (WriteHeader_kept _ _ _ Hw2).
  - pose proof (Write_status (Error e) rw Hst) as Hw.
    by rewrite (WriteHeader_kept _ _ _ Hw).
Qed.

Lemma respond_body resp s rw js :
  json_Marshal env resp = Ok js ->
  status rw = None -> body rw = "" -> broken rw = false ->
  snd (respond env resp s rw) = mkResponseWriter (Some StatusOK) js false.
Proof.
  intros Hm Hst Hbd Hbr. unfold respond. rewrite Hm.
  by rewrite (Write_fresh js rw Hst Hbd Hbr).
Qed.

Lemma Validate_empty id : Validate id <> None <-> id = "".
Proof. unfold Validate. case_decide; naive_solver. Qed.

Lemma not_found_iff_empty id :
  errors_Is (Validate id) ErrEmptyPeerID = true <-> id = "".
Proof.
  unfold Validate. destruct (decide (id = "")) as [->|Hne]; simpl.
  - split; [done|]. intros _. by destruct (decide (ErrEmptyPeerID = ErrEmptyPeerID)).
  - split; [done|]. intros ->. done.
Qed.

(** The handler on a request that parses. *)
Lemma retrieve_parsed s rw r cid_param data rr c :
  Body r = Ok data -> json_Unmarshal env data = Ok rr ->
  cid_Decode env cid_param = Ok c ->
  retrieve s rw r cid_param =
    let '(s1, resp) :=
      switch_Routing RoutingIPNI RoutingDHT env rr r c
        (mkRetrievalResponse c 0 (RoutingTableSize (host s)) "") s in
    respond env resp s1 rw.
Proof. intros Hb Hu Hc. unfold Server.retrieve. by rewrite Hb, Hu, Hc. Qed.

Lemma case_default_not_found s r c resp h ch :
  FindProvidersAsync env c 1 (host s) = (h, ch) -> ID (recv ch) = "" ->
  snd (case_default RoutingDHT env r c resp s) =
    mkRetrievalResponse (CID resp) measured (RoutingTableSize_ resp)
      "not found".
Proof.
  intros Hf Hid. unfold case_default. rewrite Hf.
  apply not_found_iff_empty in Hid. by rewrite Hid.
Qed.

Lemma case_default_found s r c resp h p :
  FindProvidersAsync env c 1 (host s) = (h, ChanValue p) -> ID p <> "" ->
  case_default RoutingDHT env r c resp s =
    (mkServer
       (ClearAddrs (ID p) (RemovePeer (ID p) (ClosePeer (ID p) h)))
       (latencies s ++
          [mkObservation "retrieval_ttfpr" RoutingDHT
             (bool_decide (Error_ resp = "")) (SchedulerID r) measured])
       (calls s ++ [CallFindProvidersAsync c 1] ++ [CallClosePeer (ID p)]
          ++ [CallRemovePeer (ID p)] ++ [CallClearAddrs (ID p)]),
     mkRetrievalResponse (CID resp) measured (RoutingTableSize_ resp)
       (Error_ resp)).
Proof.
  intros Hf Hid. unfold case_default. rewrite Hf. simpl.
  destruct (errors_Is (Validate (ID p)) ErrEmptyPeerID) eqn:E.
  - apply not_found_iff_empty in E. done.
  - unfold Observe, set_host, log_call; simpl.
    by rewrite <- !app_assoc.
Qed.

Lemma respond_calls resp s rw :
  exists post,
    calls (fst (respond env resp s rw)) = calls s ++ CallMarshal :: post /\
    Forall (fun c => exists data, c = CallWrite data) post /\
    host (fst (respond env resp s rw)) = host s.
Proof.
  unfold respond. destruct (json_Marshal env resp) as [data|e]; simpl.
  - exists [CallWrite data].
    destruct (Write data rw) as [rw1 [e|]]; simpl;
      (split; [by rewrite <- app_assoc|split; [|done]]);
      repeat constructor; by exists data.
  - exists []. by repeat split.
Qed.

(** C3: a DHT-strategy Retrieve whose provider identity comes back empty or
    invalid is answered over the normal path (status 200, the marshalled
    response as body) with the error field "not found" and the measured
    duration; that duration is not negative and the error field is not
    empty. *)
Theorem C3_dht_not_found s rw r cid_param data rr c h ch js :
  Body r = Ok data -> json_Unmarshal env data = Ok rr ->
  Routing rr <> RoutingIPNI -> cid_Decode env cid_param = Ok c ->
  FindProvidersAsync env c 1 (host s) = (h, ch) ->
  ID (recv ch) = "" \/ Validate (ID (recv ch)) <> None ->
  minInt <= clock_start env -> clock_start env <= clock_end env ->
  clock_end env <= maxInt ->
  status rw = None -> body rw = "" -> broken rw = false ->
  let resp :=
    mkRetrievalResponse c measured (RoutingTableSize (host s)) "not found" in
  json_Marshal env resp = Ok js ->
  snd (retrieve s rw r cid_param) = mkResponseWriter (Some StatusOK) js false
  /\ 0 <= Duration_ resp /\ Error_ resp <> "".
Proof.
  intros Hb Hu Hr Hc Hf Hid Hlo Hmono Hhi Hst Hbd Hbr resp Hm.
  assert (Hempty : ID (recv ch) = "").
  { destruct Hid as [?|Hv]; [done|]. by apply Validate_empty. }
  split; [|split].
  - rewrite (retrieve_parsed s rw r cid_param data rr c Hb Hu Hc).
    unfold switch_Routing. rewrite decide_False by done.
    pose proof (case_default_not_found s r c
      (mkRetrievalResponse c 0 (RoutingTableSize (host s)) "") h ch Hf Hempty)
      as Hresp.
    destruct (case_default _ _ _ _ _ _) as [s1 resp1]. simpl in Hresp.
    subst resp1. by apply respond_body.
  - simpl. apply subMono_monotonic; lia.
  - done.
Qed.

(** C4: an Indexer-strategy Retrieve records a failed lookup as the
    failure's error string and an empty result set as "not found"; in every
    case the status is 200 and, the client being there, the body is the
    marshalled response with the measured duration. *)
Theorem C4_indexer_outcomes s rw r cid_param data rr c h res :
  Body r = Ok data -> json_Unmarshal env data = Ok rr ->
  Routing rr = RoutingIPNI -> cid_Decode env cid_param = Ok c ->
  IndexerLookup env c (host s) = (h, res) ->
  status rw = None -> body rw = "" ->
  let err := match res with
             | Err e => Error e
             | Ok pr => match MultihashResults pr with
                        | [] => "not found"
                        | _ :: _ => ""
                        end
             end in
  let resp := mkRetrievalResponse c measured (RoutingTableSize (host s)) err in
  status (snd (retrieve s rw r cid_param)) = Some StatusOK /\
  (forall js, json_Marshal env resp = Ok js -> broken rw = false ->
     snd (retrieve s rw r cid_param) =
       mkResponseWriter (Some StatusOK) js false).
Proof.
  intros Hb Hu Hr Hc Hl Hst Hbd err resp.
  rewrite (retrieve_parsed s rw r cid_param data rr c Hb Hu Hc).
  unfold switch_Routing. rewrite decide_True by done.
  assert (Hresp : snd (case_RoutingIPNI RoutingIPNI env r c
            (mkRetrievalResponse c 0 (RoutingTableSize (host s)) "") s)
          = resp).
  { unfold case_RoutingIPNI. rewrite Hl. simpl. subst resp err.
    destruct res as [pr|e]; [|done].
    by destruct (MultihashResults pr). }
  destruct (case_RoutingIPNI _ _ _ _ _ _) as [s1 resp1]. simpl in Hresp.
  subst resp1. split.
  - by apply respond_status.
  - intros js Hm Hbr. by apply respond_body.
Qed.

(** C8: a DHT-strategy Retrieve that finds a provider closes the connection
    to it, removes its peerstore entry and clears its addresses, all before
    the response is marshalled and written; when the handler returns, the
    host has no connection, entry or address of that provider. *)
Theorem C8_found_provider_forgotten s rw r cid_param data rr c h p :
  Body r = Ok data -> json_Unmarshal env data = Ok rr ->
  Routing rr <> RoutingIPNI -> cid_Decode env cid_param = Ok c ->
  FindProvidersAsync env c 1 (host s) = (h, ChanValue p) -> ID p <> "" ->
  let s' := fst (retrieve s rw r cid_param) in
  (ID p ∉ conns (host s')) /\ (ID p ∉ peers (host s')) /\
  addrs (host s') !! ID p = None /\
  exists post,
    calls s' =
      calls s ++ [CallFindProvidersAsync c 1; CallClosePeer (ID p);
                  CallRemovePeer (ID p); CallClearAddrs (ID p); CallMarshal]
              ++ post /\
    Forall (fun c => exists data, c = CallWrite data) post.
Proof.
  intros Hb Hu Hr Hc Hf Hid s'. subst s'.
  rewrite (retrieve_parsed s rw r cid_param data rr c Hb Hu Hc).
  unfold switch_Routing. rewrite decide_False by done.
  rewrite (case_default_found s r c _ h p Hf Hid).
  match goal with |- context [respond env ?resp ?s1 rw] =>
    destruct (respond_calls resp s1 rw) as (post & Hcalls & Hpost & Hhost)
  end.
  rewrite Hhost, Hcalls. simpl.
  repeat split.
  - apply not_elem_of_difference. right. by apply elem_of_singleton.
  - apply not_elem_of_difference. right. by apply elem_of_singleton.
  - apply lookup_delete_eq.
  - exists post. split; [|done]. by rewrite <- !app_assoc.
Qed.

(** C9: a Retrieve whose selector is anything but the Indexer tag (unknown,
    empty, misspelt) runs the DHT strategy: the handler does exactly what it
    does for the DHT tag, it queries the DHT and not the indexer, and it does
    not answer 400. *)
Theorem C9_other_selector_runs_dht s rw r cid_param data rr c :
  Body r = Ok data -> json_Unmarshal env data = Ok rr ->
  Routing rr <> RoutingIPNI -> cid_Decode env cid_param = Ok c ->
  status rw = None ->
  (forall r' data',
     Body r' = Ok data' -> SchedulerID r' = SchedulerID r ->
     json_Unmarshal env data' = Ok (mkRetrieveRequest RoutingDHT) ->
     RoutingDHT <> RoutingIPNI ->
     retrieve s rw r' cid_param = retrieve s rw r cid_param) /\
  status (snd (retrieve s rw r cid_param)) = Some StatusOK /\
  exists post,
    calls (fst (retrieve s rw r cid_param)) =
      calls s ++ CallFindProvidersAsync c 1 :: post /\
    forall c', CallIndexerLookup c' ∉ post.
Proof.
  intros Hb Hu Hr Hc Hst.
  rewrite (retrieve_parsed s rw r cid_param data rr c Hb Hu Hc).
  unfold switch_Routing. rewrite decide_False by done.
  split; [|split].
  - intros r' data' Hb' Hsid Hu' Hne.
    rewrite (retrieve_parsed s rw r' cid_param data' _ c Hb' Hu' Hc).
    unfold switch_Routing. simpl. rewrite decide_False by done.
    unfold case_default. by rewrite Hsid.
  - destruct (case_default _ _ _ _ _ _) as [s1 resp1].
    by apply respond_status.
  - unfold case_default.
    destruct (FindProvidersAsync env c 1 (host s)) as [h ch].
    destruct (errors_Is _ _); simpl;
      match goal with |- context [respond env ?resp ?s1 rw] =>
        destruct (respond_calls resp s1 rw) as (post & Hcalls & Hpost & _)
      end; rewrite Hcalls; simpl.
    + exists (CallMarshal :: post). split; [by rewrite <- app_assoc|].
      intros c' Hin. apply elem_of_cons in Hin as [?|Hin]; [done|].
      rewrite Forall_forall in Hpost. by destruct (Hpost _ Hin).
    + eexists ([CallClosePeer _; CallRemovePeer _; CallClearAddrs _;
                CallMarshal] ++ post).
      split; [by rewrite <- !app_assoc|].
      intros c' Hin. rewrite !elem_of_app, !elem_of_cons in Hin.
      rewrite Forall_forall in Hpost.
      destruct Hin as [[?|[?|[?|[?|Hin]]]]|Hin]; try done.
      * by apply elem_of_nil in Hin.
      * by destruct (Hpost _ Hin).
Qed.

(** C10: when the provider channel closes with nothing in it, whether the
    deadline expired, the request was cancelled or there is no provider, a
    DHT-strategy Retrieve answers "not found" with the elapsed duration; the
    response is the same for every reason of the closing. *)
Theorem C10_closed_channel_is_not_found s rw r cid_param data rr c h why js :
  Body r = Ok data -> json_Unmarshal env data = Ok rr ->
  Routing rr <> RoutingIPNI -> cid_Decode env cid_param = Ok c ->
  FindProvidersAsync env c 1 (host s) = (h, ChanClosed why) ->
  status rw = None -> body rw = "" -> broken rw = false ->
  json_Marshal env
    (mkRetrievalResponse c measured (RoutingTableSize (host s)) "not found")
    = Ok js ->
  snd (retrieve s rw r cid_param) = mkResponseWriter (Some StatusOK) js false
  /\ forall h' why',
       snd (Server.retrieve RoutingIPNI RoutingDHT
              (with_FindProvidersAsync (fun _ _ _ => (h', ChanClosed why')) env)
              s rw r cid_param)
       = snd (retrieve s rw r cid_param).
Proof.
  intros Hb Hu Hr Hc Hf Hst Hbd Hbr Hm.
  assert (Hgen : forall env' h' why',
    json_Unmarshal env' = json_Unmarshal env ->
    cid_Decode env' = cid_Decode env -> json_Marshal env' = json_Marshal env ->
    clock_start env' = clock_start env -> clock_end env' = clock_end env ->
    FindProvidersAsync env' c 1 (host s) = (h', ChanClosed why') ->
    snd (Server.retrieve RoutingIPNI RoutingDHT env' s rw r cid_param)
    = mkResponseWriter (Some StatusOK) js false).
  { intros env' h' why' E1 E2 E3 E4 E5 Hf'.
    unfold Server.retrieve. rewrite Hb, E1, Hu, E2, Hc.
    unfold switch_Routing. rewrite decide_False by done.
    unfold case_default. rewrite Hf'. simpl.
    unfold respond. rewrite E3, E4, E5, Hm.
    by rewrite (Write_fresh js rw Hst Hbd Hbr). }
  split.
  - by apply (Hgen env h why).
  - intros h' why'. rewrite (Hgen env h why) by done.
    by apply (Hgen _ h' why').
Qed.

End Handler.

End ServerSpec.

(* ===================================================================== *)
(** * Error groups: what holds after [Wait] *)
(* ===================================================================== *)

Module errgroupFacts.
Import Golang errgroup.

Section Unary.
Context {T St : Type}.
Variable f : bool -> T -> St -> Step T St.

Lemma step_at_length i (g : Group T St) :
  length (tasks (step_at f i g)) = length (tasks g).
Proof.
  unfold step_at. destruct (panicked g); [done|].
  destruct (tasks g !! i) as [[t|]|]; [|done..].
  destruct (f _ _ _); simpl; by rewrite ?length_insert.
Qed.

Lemma finish_succ k i (g : Group T St) :
  finish f (S k) i g = finish f k i (step_at f i g).
Proof. unfold finish. by rewrite Nat.iter_succ_r. Qed.

(** A property kept by every step holds after [Wait]. *)
Lemma run_invariant (P : Group T St -> Prop) :
  (forall i g, P g -> P (step_at f i g)) ->
  forall sched g, P g -> P (run f sched g).
Proof.
  intros Hstep sched. unfold run.
  induction sched as [|i sched IH]; intros g Hg; simpl; [done|].
  apply IH. by apply Hstep.
Qed.

Lemma finish_invariant (P : Group T St -> Prop) :
  (forall i g, P g -> P (step_at f i g)) ->
  forall k i g, P g -> P (finish f k i g).
Proof.
  intros Hstep k i. induction k as [|k IH]; intros g Hg; [done|].
  rewrite finish_succ. apply IH. by apply Hstep.
Qed.

Lemma foldl_finish_invariant (P : Group T St -> Prop) :
  (forall i g, P g -> P (step_at f i g)) ->
  forall k l g, P g -> P (foldl (fun g i => finish f k i g) g l).
Proof.
  intros Hstep k l. induction l as [|i l IH]; intros g Hg; simpl; [done|].
  apply IH. by apply finish_invariant.
Qed.

Lemma Wait_invariant (P : Group T St -> Prop) :
  (forall i g, P g -> P (step_at f i g)) ->
  forall sched k g, P g -> P (Wait f sched k g).
Proof.
  intros Hstep sched k g Hg. unfold Wait, drain.
  apply foldl_finish_invariant; [done|]. by apply run_invariant.
Qed.

Lemma Wait_length sched k (g : Group T St) :
  length (tasks (Wait f sched k g)) = length (tasks g).
Proof.
  apply (Wait_invariant (fun g' => length (tasks g') = length (tasks g)));
    [|done].
  intros i g' Hg'. by rewrite step_at_length.
Qed.

Lemma step_at_over i j (g : Group T St) :
  over i g -> over i (step_at f j g).
Proof.
  intros [Hp|Hi]; unfold step_at.
  - destruct (panicked g) eqn:Ep; [left; congruence|done].
  - destruct (panicked g) eqn:Ep; [left; congruence|].
    destruct (tasks g !! j) as [[t|]|] eqn:Ej; [|by right..].
    destruct (f _ _ _); simpl; [right|right|by left]; intros tx; simpl;
      (destruct (decide (i = j)) as [->|Hne];
       [by destruct (Hi t)|by rewrite list_lookup_insert_ne]).
Qed.

(** Goroutines that need fewer than [k] steps are over after [Wait]. *)
Section Bounded.
Variable rank : T -> nat.
Hypothesis rank_decreases :
  forall c t s t' s', f c t s = Yield t' s' -> (rank t' < rank t)%nat.

Lemma finish_over k i g :
  (panicked g = None ->
   forall t, tasks g !! i = Some (Some t) -> (rank t < k)%nat) ->
  over i (finish f k i g).
Proof.
  revert g. induction k as [|k IH]; intros g Hrank.
  - destruct (panicked g) eqn:Ep; [left; simpl; congruence|].
    right. intros t Ht. specialize (Hrank eq_refl t Ht). lia.
  - rewrite finish_succ. apply IH. intros Hp t Ht.
    unfold step_at in Hp, Ht. destruct (panicked g) eqn:Ep; [congruence|].
    destruct (tasks g !! i) as [[t0|]|] eqn:Ei; [|congruence..].
    specialize (Hrank eq_refl t0 eq_refl).
    destruct (f (cancelled g) t0 (shared g)) as [t1 s1|e s1|why s1] eqn:Ef;
      simpl in Hp, Ht; [| |done].
    + assert (i < length (tasks g))%nat by (by eapply lookup_lt_Some).
      rewrite list_lookup_insert_eq in Ht by done.
      assert (t = t1) as -> by congruence.
      pose proof (rank_decreases _ _ _ _ _ Ef). lia.
    + assert (i < length (tasks g))%nat by (by eapply lookup_lt_Some).
      by rewrite list_lookup_insert_eq in Ht.
Qed.

Lemma foldl_finish_over k (Hk : forall t, (rank t < k)%nat) l i g :
  i ∈ l \/ over i g -> over i (foldl (fun g i => finish f k i g) g l).
Proof.
  revert g. induction l as [|a l IH]; intros g Hi; simpl.
  - destruct Hi as [Hi|Hi]; [by apply elem_of_nil in Hi|done].
  - apply IH. destruct Hi as [Hi|Hi].
    + apply elem_of_cons in Hi as [->|Hi]; [|by left].
      right. apply finish_over. intros _ t _. apply Hk.
    + right. apply (finish_invariant (over i)); [|done].
      intros j g'. apply step_at_over.
Qed.

Lemma Wait_over k (Hk : forall t, (rank t < k)%nat) sched g i :
  over i (Wait f sched k g).
Proof.
  unfold Wait, drain. apply (foldl_finish_over k Hk).
  destruct (decide (i < length (tasks (run f sched g)))%nat) as [Hlt|Hge].
  - left. apply elem_of_seq. lia.
  - right. right. intros t Ht. apply lookup_lt_Some in Ht. lia.
Qed.

(** So when [Wait] comes back without a panic, every goroutine returned. *)
Lemma Wait_all_returned k (Hk : forall t, (rank t < k)%nat) sched g :
  panicked (Wait f sched k g) = None ->
  tasks (Wait f sched k g) = replicate (length (tasks g)) None.
Proof.
  intros Hp. rewrite <- (Wait_length sched k g).
  apply list_eq_same_length with (length (tasks (Wait f sched k g)));
    [by rewrite length_replicate|done|].
  intros i x y Hi Hx Hy.
  apply lookup_replicate in Hy as [-> _].
  destruct (Wait_over k Hk sched g i) as [?|Hover]; [done|].
  destruct x as [t|]; [by destruct (Hover t)|done].
Qed.

End Bounded.
End Unary.

(** Two groups driven by the same scheduler stay related when each step
    keeps them related. *)
Section Binary.
Context {T1 T2 S1 S2 : Type}.
Variable f1 : bool -> T1 -> S1 -> Step T1 S1.
Variable f2 : bool -> T2 -> S2 -> Step T2 S2.
Variable R : Group T1 S1 -> Group T2 S2 -> Prop.
Hypothesis R_length :
  forall g1 g2, R g1 g2 -> length (tasks g1) = length (tasks g2).
Hypothesis R_step :
  forall i g1 g2, R g1 g2 -> R (step_at f1 i g1) (step_at f2 i g2).

Lemma run_related sched g1 g2 :
  R g1 g2 -> R (run f1 sched g1) (run f2 sched g2).
Proof.
  revert g1 g2. unfold run.
  induction sched as [|i sched IH]; intros g1 g2 HR; simpl; [done|].
  apply IH. by apply R_step.
Qed.

Lemma finish_related k i g1 g2 :
  R g1 g2 -> R (finish f1 k i g1) (finish f2 k i g2).
Proof.
  revert g1 g2. induction k as [|k IH]; intros g1 g2 HR; [done|].
  rewrite !finish_succ. apply IH. by apply R_step.
Qed.

Lemma Wait_related sched k g1 g2 :
  R g1 g2 -> R (Wait f1 sched k g1) (Wait f2 sched k g2).
Proof.
  intros HR. unfold Wait, drain.
  pose proof (run_related sched g1 g2 HR) as HR'.
  rewrite <- (R_length _ _ HR').
  generalize (seq 0 (length (tasks (run f1 sched g1)))).
  revert HR'. generalize (run f1 sched g1) (run f2 sched g2).
  intros g1' g2' HR' l. revert g1' g2' HR'.
  induction l as [|i l IH]; intros g1' g2' HR'; simpl; [done|].
  apply IH. by apply finish_related.
Qed.

End Binary.

Lemma Go_tasks {T St} (ts : list T) (g : Group T St) :
  foldl (fun g t => Go t g) g ts =
    mkGroup (tasks g ++ (Some <$> ts)) (err g) (panicked g) (shared g).
Proof.
  revert g. induction ts as [|t ts IH]; intros g; simpl.
  - rewrite app_nil_r. by destruct g.
  - rewrite IH. unfold Go; simpl. by rewrite <- app_assoc.
Qed.

End errgroupFacts.
(* ===================================================================== *)
(** * The coordinator: the goroutines of a round *)
(* ===================================================================== *)

Module RetrieveFacts.
Import Golang GolangFacts errgroup errgroupFacts Scheduler SchedulerInv.

Lemma omap_insert_perm {A B} (f : A -> option B) (l : list A) i x y :
  l !! i = Some x ->
  omap f (<[i:=y]> l) ++ option_list (f x) ≡ₚ omap f l ++ option_list (f y).
Proof.
  revert i. induction l as [|a l IH]; intros i Hi; [done|].
  destruct i as [|i]; simpl in *.
  - assert (a = x) as -> by congruence.
    destruct (f x), (f y); simpl; rewrite ?app_nil_r;
      rewrite <- ?Permutation_cons_append; try done.
    apply perm_swap.
  - specialize (IH i Hi). destruct (f a); simpl; [|done].
    by rewrite IH.
Qed.

Lemma omap_insert_None {A B} (f : A -> option B) (l : list A) i x y :
  l !! i = Some x -> f x = None -> f y = None ->
  omap f (<[i:=y]> l) ≡ₚ omap f l.
Proof.
  intros Hi Hx Hy. pose proof (omap_insert_perm f l i x y Hi) as H.
  by rewrite Hx, Hy, !app_nil_r in H.
Qed.

Lemma omap_snoc {A B} (f : A -> option B) (l : list A) x :
  omap f (l ++ [x]) = omap f l ++ option_list (f x).
Proof. rewrite omap_app. simpl. by destruct (f x). Qed.

Ltac split_inv :=
  refine (conj _ (conj _ (conj _ (conj _ (conj _ (conj _ _)))))).

Section Round.
Variable w : World.
Variable dbc : option DBClient.
Variable nodes : list Node.
Variable r : nat.
Variable content : Content.

Local Abbreviation task := (retrieve_task w dbc nodes r content).

Lemma retr_rank_decreases c t s t' s' :
  task c t s = Yield t' s' -> (retr_rank t' < retr_rank t)%nat.
Proof.
  destruct t as [rn|dbNode x]; simpl.
  - destruct (index nodes rn), (index (dbNodes s) rn); try done.
    destruct (Retrieve _ _ _ _ _); [|done]. destruct dbc; [|done].
    intros [= <- _]. simpl. lia.
  - destruct dbNode; [|done]. by destruct (InsertRetrieval _ _ _ _ _).
Qed.

Lemma retr_rank_bound t : (retr_rank t < 2)%nat.
Proof. destruct t; simpl; lia. Qed.

Lemma retr_inv_step rns tr0 dbN i g new :
  retr_inv dbc r rns tr0 dbN g new ->
  exists new', retr_inv dbc r rns tr0 dbN (step_at task i g) new'.
Proof.
  intros (Htr & Hdb & Hev & Hcalls & Hok & Hst & Hdry).
  unfold step_at. destruct (panicked g) eqn:Ep; [by exists new|].
  destruct (tasks g !! i) as [[t|]|] eqn:Ei; [|by exists new..].
  destruct t as [rn|dbNode x]; simpl.
  - destruct (index nodes rn) as [node|]; [|by exists new].
    destruct (index (dbNodes (shared g)) rn) as [dbNode|]; [|by exists new].
    set (res := Retrieve w r node (CID content) (cancelled g)).
    exists (new ++ [EvRetrieve r rn node (CID content) res]).
    assert (Hcall : omap (retrieve_call r)
                      (new ++ [EvRetrieve r rn node (CID content) res])
                    = omap (retrieve_call r) new ++ [rn]).
    { rewrite omap_snoc. simpl. by rewrite decide_True. }
    assert (Hstored : omap (stored_retrieval r)
                        (new ++ [EvRetrieve r rn node (CID content) res])
                      = omap (stored_retrieval r) new).
    { rewrite omap_snoc. simpl. by rewrite app_nil_r. }
    assert (Hpend : forall slot, pending_call slot = None ->
              (omap (retrieve_call r) new ++ [rn])
                ++ omap pending_call (<[i:=slot]> (tasks g)) ≡ₚ rns).
    { intros slot Hslot. rewrite <- Hcalls.
      pose proof (omap_insert_perm pending_call (tasks g) i _ slot Ei) as Hp.
      rewrite Hslot, app_nil_r in Hp. simpl in Hp.
      rewrite <- Hp. rewrite <- !app_assoc. apply Permutation_app_head.
      apply Permutation_app_comm. }
    destruct res as [x|e] eqn:Eres; [destruct dbc as [d|] eqn:Edbc|]; simpl.
    + (* the retrieval is kept for the insert *)
      split_inv; simpl.
      * rewrite Htr. by rewrite app_assoc.
      * done.
      * apply Forall_app. split; [done|]. by repeat constructor.
      * rewrite Hcall. by apply Hpend.
      * intros He. rewrite Hcall, omap_snoc. simpl.
        rewrite decide_True by done. simpl.
        rewrite !length_app. simpl. by rewrite Hok.
      * intros He _. rewrite Hstored, Hst by done.
        apply Permutation_length. symmetry.
        by apply (omap_insert_None returned_task _ _ _ _ Ei).
      * done.
    + (* dry run: the goroutine returns nil *)
      split_inv; simpl.
      * rewrite Htr. by rewrite app_assoc.
      * done.
      * apply Forall_app. split; [done|]. by repeat constructor.
      * rewrite Hcall. by apply Hpend.
      * intros He. destruct (err g); [done|].
        rewrite Hcall, omap_snoc. simpl.
        rewrite decide_True by done. simpl.
        rewrite !length_app. simpl. by rewrite Hok.
      * done.
      * intros _. destruct (Hdry eq_refl) as [Hd1 Hd2]. split.
        -- apply Forall_app. split; [done|]. by repeat constructor.
        -- apply Forall_insert; [done|]. by intros [].
    + (* the call failed *)
      split_inv; simpl.
      * rewrite Htr. by rewrite app_assoc.
      * done.
      * apply Forall_app. split; [done|]. by repeat constructor.
      * rewrite Hcall. by apply Hpend.
      * intros He. by destruct (err g).
      * intros He. by destruct (err g).
      * intros Hd. destruct (Hdry Hd) as [Hd1 Hd2]. split.
        -- apply Forall_app. split; [done|]. by repeat constructor.
        -- apply Forall_insert; [done|]. by intros [].
  - destruct dbNode as [dbNode|]; [|by exists new].
    set (res := InsertRetrieval w r (models.ID dbNode) x (cancelled g)).
    exists (new ++ [EvInsertRetrieval r (models.ID dbNode) x res]).
    assert (Hcall : omap (retrieve_call r)
                      (new ++ [EvInsertRetrieval r (models.ID dbNode) x res])
                    = omap (retrieve_call r) new).
    { rewrite omap_snoc. simpl. by rewrite app_nil_r. }
    assert (Hrec : omap (retrieval_record r)
                      (new ++ [EvInsertRetrieval r (models.ID dbNode) x res])
                    = omap (retrieval_record r) new).
    { rewrite omap_snoc. simpl. by rewrite app_nil_r. }
    assert (Hpend : omap (retrieve_call r) new
                      ++ omap pending_call (<[i:=None]> (tasks g)) ≡ₚ rns).
    { rewrite <- Hcalls. apply Permutation_app_head.
      by apply (omap_insert_None pending_call _ _ _ _ Ei). }
    assert (Hnodry : dbc <> None).
    { intros Hd. destruct (Hdry Hd) as [_ Hslots].
      rewrite Forall_lookup in Hslots. by apply (Hslots _ _ Ei). }
    destruct res as [e|] eqn:Eres; simpl.
    + split_inv; simpl.
      * rewrite Htr. by rewrite app_assoc.
      * done.
      * apply Forall_app. split; [done|]. by repeat constructor.
      * by rewrite Hcall.
      * intros He. by destruct (err g).
      * intros He. by destruct (err g).
      * done.
    + split_inv; simpl.
      * rewrite Htr. by rewrite app_assoc.
      * done.
      * apply Forall_app. split; [done|]. by repeat constructor.
      * by rewrite Hcall.
      * intros He. destruct (err g); [done|]. rewrite Hcall, Hrec. by apply Hok.
      * intros He _. destruct (err g); [done|].
        rewrite omap_snoc. simpl. rewrite decide_True by done. simpl.
        rewrite length_app, Hst by done. simpl.
        pose proof (omap_insert_perm returned_task (tasks g) i _ None Ei) as Hp.
        simpl in Hp. rewrite app_nil_r in Hp.
        apply Permutation_length in Hp. rewrite length_app in Hp.
        simpl in Hp. lia.
      * done.
Qed.

Lemma spawn_retrieve_tasks p s :
  spawn_retrieve nodes p (WithContext s) =
    mkGroup (Some <$> (TRetrieve <$> retrNodes nodes p)) None None s.
Proof.
  unfold spawn_retrieve, retrNodes.
  generalize (seqZ 0 (int_sub (len nodes) 1)). intros l.
  transitivity
    (foldl (fun g t => Go t g) (WithContext s)
       (TRetrieve <$> (retrNode nodes p <$> l))).
  - generalize (@WithContext RetrTask Shared s).
    induction l as [|i l IH]; intros g; simpl; [done|]. apply IH.
  - by rewrite Go_tasks.
Qed.

Lemma pending_spawned (l : list Z) :
  omap pending_call (Some <$> (TRetrieve <$> l)) = l.
Proof. induction l as [|x l IH]; csimpl; [done|]. by rewrite IH. Qed.

Lemma returned_spawned {T} (l : list T) :
  omap returned_task (Some <$> l) = [].
Proof. induction l as [|x l IH]; simpl; done. Qed.

Lemma pending_returned n : omap pending_call (replicate n None) = [].
Proof. induction n as [|n IH]; simpl; done. Qed.

Lemma returned_all {T} n :
  length (omap (@returned_task T) (replicate n None)) = n.
Proof. induction n as [|n IH]; csimpl; [done|]. by rewrite IH. Qed.

(** The goroutines of a round, from [errgroup.WithContext] to the return of
    [errg.Wait]. *)
Lemma retrieve_phase p s :
  let g := Wait task (sched_round w r) 2
             (spawn_retrieve nodes p (WithContext s)) in
  exists retr,
    trace (shared g) = trace s ++ retr /\
    dbNodes (shared g) = dbNodes s /\
    Forall (is_retr_event r) retr /\
    (dbc = None -> Forall (fun e => is_persistence e = false) retr) /\
    (panicked g = None -> err g = None ->
     omap (retrieve_call r) retr ≡ₚ retrNodes nodes p /\
     length (omap (retrieval_record r) retr) = length (retrNodes nodes p) /\
     (dbc <> None ->
      length (omap (stored_retrieval r) retr) =
        length (retrNodes nodes p))).
Proof.
  intros g. subst g. rewrite spawn_retrieve_tasks.
  set (g0 := mkGroup _ None None s).
  assert (Hinit : retr_inv dbc r (retrNodes nodes p) (trace s) (dbNodes s)
                    g0 []).
  { split_inv; simpl; try done.
    - by rewrite app_nil_r.
    - by rewrite pending_spawned.
    - intros _ _. by rewrite returned_spawned.
    - intros _. split; [done|].
      apply Forall_fmap, Forall_fmap, Forall_true. by intros x []. }
  destruct (Wait_invariant task
              (fun g => exists new,
                 retr_inv dbc r (retrNodes nodes p) (trace s) (dbNodes s)
                   g new)
              (fun i g '(ex_intro _ new H) =>
                 retr_inv_step (retrNodes nodes p) (trace s) (dbNodes s)
                   i g new H)
              (sched_round w r) 2 g0 (ex_intro _ [] Hinit))
    as (retr & Htr & Hdb & Hev & Hcalls & Hok & Hst & Hdry).
  exists retr. split; [done|]. split; [done|]. split; [done|].
  split; [intros Hd; by apply Hdry|].
  intros Hp He.
  pose proof (Wait_all_returned task retr_rank retr_rank_decreases 2
                retr_rank_bound (sched_round w r) g0 Hp) as Hall.
  rewrite Hall in Hcalls, Hst.
  rewrite pending_returned, app_nil_r in Hcalls.
  rewrite returned_all in Hst. simpl in Hst.
  split; [done|]. split.
  - rewrite (Hok He). by rewrite Hcalls.
  - intros Hd. rewrite (Hst He Hd). by rewrite !length_fmap.
Qed.

End Round.

Section RoundBody.
Variable w : World.
Variable nodes : list Node.

Lemma after_provide_shape dbc r p node content pr ins :
  index nodes p = Some node ->
  (ins = [] \/ exists id res, ins = [EvInsertProvide r id pr res]) ->
  (dbc = None -> ins = []) ->
  forall x,
    round_shape dbc nodes r p
      (EvProvide r p node content (Ok pr) :: ins) (Exited x).
Proof.
  intros Hnode Hins Hdry x. right. right.
  exists node, content, pr, ins, []. rewrite app_nil_r.
  repeat split; try done. by apply Hdry.
Qed.

(** One pass through the loop body only adds to the trace, and what it adds
    has the shape of a round. *)
Lemma round_body_shape dbc r p s :
  exists new,
    trace (round_body w dbc nodes r p s).1 = trace s ++ new /\
    dbNodes (round_body w dbc nodes r p s).1 = dbNodes s /\
    round_shape dbc nodes r p new (round_body w dbc nodes r p s).2.
Proof.
  unfold round_body.
  destruct (Context_Err w r) as [e|].
  { exists []. rewrite app_nil_r. repeat split. left. eauto. }
  destruct (NewRandomContent w r) as [content|e]; cycle 1.
  { exists []. rewrite app_nil_r. repeat split. left. eauto. }
  destruct (index nodes p) as [node|] eqn:Hnode; cycle 1.
  { exists []. rewrite app_nil_r. repeat split. left. eauto. }
  destruct (Provide w r node content) as [pr|e] eqn:Hprov; cycle 1.
  { exists [EvProvide r p node content (Err e)].
    destruct (index (dbNodes _) p) as [[d|]|]; simpl;
      (split; [done|split; [done|]]); right; left; eauto 10. }
  set (s1 := emit (EvProvide r p node content (Ok pr)) s).
  assert (Hphase : forall ins s2,
    trace s2 = trace s ++ EvProvide r p node content (Ok pr) :: ins ->
    dbNodes s2 = dbNodes s ->
    (ins = [] \/ exists id, ins = [EvInsertProvide r id pr None]) ->
    (dbc = None -> ins = []) ->
    (dbc <> None -> exists id, ins = [EvInsertProvide r id pr None]) ->
    let errg := Wait (retrieve_task w dbc nodes r content) (sched_round w r) 2
                  (spawn_retrieve nodes p (WithContext s2)) in
    let out :=
      match panicked errg, err errg with
      | Some why, _ => (shared errg, Exited (Panicked why))
      | None, Some err =>
          (shared errg, Exited (Returned (Errorf_w "waitgroup retrieve" err)))
      | None, None =>
          (shared errg, Completed (int_rem (int_add p 1) (len nodes)))
      end in
    exists new,
      trace out.1 = trace s ++ new /\ dbNodes out.1 = dbNodes s /\
      round_shape dbc nodes r p new out.2).
  { intros ins s2 Htr Hdb Hins Hdry Hnodry errg out.
    destruct (retrieve_phase w dbc nodes r content p s2)
      as (retr & Htr' & Hdb' & Hev & Hpers & Hdone).
    fold errg in Htr', Hdb', Hdone.
    exists (EvProvide r p node content (Ok pr) :: ins ++ retr).
    assert (Hshape : forall res,
      (forall p', res = Completed p' ->
         panicked errg = None /\ err errg = None /\
         p' = int_rem (int_add p 1) (len nodes)) ->
      round_shape dbc nodes r p
        (EvProvide r p node content (Ok pr) :: ins ++ retr) res).
    { intros res Hres. right. right.
      exists node, content, pr, ins, retr.
      split; [done|]. split; [done|].
      split; [destruct Hins as [?|[id ?]]; eauto|].
      split; [done|]. split; [intros Hd; split; auto|].
      intros p' Hp'. destruct (Hres p' Hp') as (Hp1 & Hp2 & ->).
      destruct (Hdone Hp1 Hp2) as (H1 & H2 & H3). done. }
    subst out. destruct (panicked errg) eqn:Ep; [|destruct (err errg) eqn:Ee];
      simpl; (split; [rewrite Htr', Htr, <- app_assoc; done|]);
      (split; [by rewrite Hdb'|]); apply Hshape; intros p' [=].
    by subst. }
  destruct dbc as [d|] eqn:Hdbc.
  - destruct (index (dbNodes s1) p) as [[dbNode|]|] eqn:Hdb.
    + destruct (InsertProvide w r (models.ID dbNode) pr) as [e|] eqn:Hins.
      * exists [EvProvide r p node content (Ok pr);
                EvInsertProvide r (models.ID dbNode) pr (Some e)].
        simpl. split; [by rewrite <- app_assoc|]. split; [done|].
        apply after_provide_shape; eauto. done.
      * apply (Hphase [EvInsertProvide r (models.ID dbNode) pr None]);
          simpl; eauto; [by rewrite <- app_assoc|done].
    + exists [EvProvide r p node content (Ok pr)].
      simpl. split; [done|]. split; [done|].
      apply after_provide_shape; eauto.
    + exists [EvProvide r p node content (Ok pr)].
      simpl. split; [done|]. split; [done|].
      apply after_provide_shape; eauto.
  - apply (Hphase []); simpl; eauto. done.
Qed.

End RoundBody.
End RetrieveFacts.

(* ===================================================================== *)
(** * The coordinator: the indices of a round *)
(* ===================================================================== *)

Module IndexFacts.
Import Golang GolangFacts Scheduler SchedulerInv.

Lemma mod_once x n :
  0 <= x < 2 * n -> x mod n = if x <? n then x else x - n.
Proof.
  intros Hx. destruct (x <? n) eqn:E.
  - apply Z.ltb_lt in E. apply Z.mod_small. lia.
  - apply Z.ltb_ge in E.
    replace x with ((x - n) + 1 * n) at 1 by lia.
    rewrite Z.mod_add by lia. apply Z.mod_small. lia.
Qed.

Section Fleet.
Variable nodes : list Node.
Local Abbreviation n := (len nodes).

Lemma index_Some {A} (l : list A) (i : Z) x :
  index l i = Some x -> 0 <= i < len l.
Proof.
  unfold index, len. destruct (0 <=? i) eqn:E; [|done].
  apply Z.leb_le in E. intros H. apply lookup_lt_Some in H. lia.
Qed.

Lemma next_provNode p :
  0 <= p < n -> n <= maxInt ->
  int_rem (int_add p 1) n = (p + 1) mod n.
Proof.
  intros Hp Hn. unfold maxInt, minInt in *.
  rewrite int_add_exact by (unfold maxInt, minInt; lia).
  apply int_rem_exact; unfold maxInt; lia.
Qed.

Lemma retrNode_exact p i :
  0 <= p < n -> 0 <= i < n - 1 -> n <= maxFleet ->
  retrNode nodes p i = (p + i + 1) mod n.
Proof.
  intros Hp Hi Hn. unfold retrNode, maxFleet in *.
  rewrite (int_add_exact p i) by (unfold maxInt, minInt; lia).
  rewrite int_add_exact by (unfold maxInt, minInt; lia).
  apply int_rem_exact; unfold maxInt; lia.
Qed.

(** [retrNode] as the specification writes it. *)
Lemma retrNodes_exact p :
  0 <= p < n -> n <= maxFleet ->
  retrNodes nodes p = (fun i => (p + i + 1) mod n) <$> seqZ 0 (n - 1).
Proof.
  intros Hp Hn. unfold retrNodes.
  rewrite int_sub_exact by (unfold maxInt, minInt, maxFleet in *; lia).
  apply Forall_fmap_ext, Forall_forall. intros i Hi.
  apply elem_of_seqZ in Hi. apply retrNode_exact; lia.
Qed.

Lemma retrNodes_length p :
  0 <= p < n -> n <= maxFleet ->
  length (retrNodes nodes p) = (length nodes - 1)%nat.
Proof.
  intros Hp Hn. rewrite retrNodes_exact by done.
  rewrite length_fmap, length_seqZ. unfold len. lia.
Qed.

(** The indices retrieved from are the fleet without the provider. *)
Lemma retrNodes_elem p j :
  0 <= p < n -> n <= maxFleet ->
  j ∈ retrNodes nodes p <-> 0 <= j < n /\ j <> p.
Proof.
  intros Hp Hn. rewrite retrNodes_exact by done.
  rewrite list_elem_of_fmap. split.
  - intros (i & -> & Hi). apply elem_of_seqZ in Hi.
    rewrite mod_once by lia. destruct (p + i + 1 <? n) eqn:E.
    + apply Z.ltb_lt in E. lia.
    + apply Z.ltb_ge in E. lia.
  - intros [Hj Hne].
    exists (if p <? j then j - p - 1 else j - p - 1 + n).
    destruct (p <? j) eqn:E.
    + apply Z.ltb_lt in E. split; [|apply elem_of_seqZ; lia].
      rewrite mod_once by lia.
      destruct (p + (j - p - 1) + 1 <? n) eqn:E'; [lia|].
      apply Z.ltb_ge in E'. lia.
    + apply Z.ltb_ge in E. split; [|apply elem_of_seqZ; lia].
      rewrite mod_once by lia.
      destruct (p + (j - p - 1 + n) + 1 <? n) eqn:E'; [|lia].
      apply Z.ltb_lt in E'. lia.
Qed.

(** Each of them once. *)
Lemma retrNodes_NoDup p :
  0 <= p < n -> n <= maxFleet -> NoDup (retrNodes nodes p).
Proof.
  intros Hp Hn. rewrite retrNodes_exact by done.
  apply NoDup_fmap_2_strong; [|apply NoDup_seqZ].
  intros i i' Hi Hi' Heq.
  apply elem_of_seqZ in Hi. apply elem_of_seqZ in Hi'.
  rewrite !mod_once in Heq by lia.
  destruct (p + i + 1 <? n) eqn:E, (p + i' + 1 <? n) eqn:E';
    repeat match goal with
           | H : (_ <? _) = true |- _ => apply Z.ltb_lt in H
           | H : (_ <? _) = false |- _ => apply Z.ltb_ge in H
           end; lia.
Qed.

End Fleet.
End IndexFacts.

(* ===================================================================== *)
(** * The coordinator: the loop *)
(* ===================================================================== *)

Module LoopFacts.
Import Golang GolangFacts errgroup errgroupFacts Scheduler SchedulerInv.
Import RetrieveFacts IndexFacts.

(** ** Induction over the rounds *)

Section LoopInvariant.
Variable w : World.
Variable dbc : option DBClient.
Variable nodes : list Node.
Variable I : nat -> Z -> Shared -> Prop.
Variable F : nat -> Z -> Shared -> option Exit -> Prop.
Hypothesis I_F : forall r p s, I r p s -> F r p s None.
Hypothesis I_completed :
  forall r p s s' p',
    I r p s -> round_body w dbc nodes r p s = (s', Completed p') ->
    I (S r) p' s'.
Hypothesis I_exited :
  forall r p s s' e,
    I r p s -> round_body w dbc nodes r p s = (s', Exited e) ->
    F r p s' (Some e).

Lemma loop_invariant fuel r p s :
  I r p s ->
  exists s',
    calls (loop w dbc nodes fuel r p s) = trace s' /\
    F (rounds (loop w dbc nodes fuel r p s))
      (provNode (loop w dbc nodes fuel r p s)) s'
      (exit (loop w dbc nodes fuel r p s)).
Proof.
  revert r p s. induction fuel as [|fuel IH]; intros r p s HI; simpl.
  - exists s. split; [done|]. by apply I_F.
  - destruct (round_body w dbc nodes r p s) as [s' [p'|e]] eqn:Hbody.
    + apply IH. by eapply I_completed.
    + exists s'. split; [done|]. by eapply I_exited.
Qed.

End LoopInvariant.

(** ** The events of a round *)

Lemma omap_none {A B} (f : A -> option B) (l : list A) :
  Forall (fun x => f x = None) l -> omap f l = [].
Proof.
  induction 1 as [|x l Hx _ IH]; csimpl; [done|]. by rewrite Hx.
Qed.

Lemma round_of_retr r e : is_retr_event r e -> round_of e = Some r.
Proof. destruct e; simpl; try done; by intros ->. Qed.

Section Shape.
Variable dbc : option DBClient.
Variable nodes : list Node.
Variables (r : nat) (p : Z) (new : list Event) (res : RoundResult).
Hypothesis Hshape : round_shape dbc nodes r p new res.

Lemma shape_round_of : Forall (fun e => round_of e = Some r) new.
Proof.
  destruct Hshape as [[-> _]|[(node & content & e & x & -> & _)
    |(node & content & pr & ins & retr & -> & _ & Hins & Hretr & _)]].
  - done.
  - by repeat constructor.
  - constructor; [done|]. apply Forall_app. split.
    + destruct Hins as [->|(id & res' & ->)]; by repeat constructor.
    + eapply Forall_impl; [done|]. intros e. apply round_of_retr.
Qed.

Lemma shape_provide r' p' n c res' :
  EvProvide r' p' n c res' ∈ new ->
  r' = r /\ p' = p /\ index nodes p = Some n.
Proof.
  destruct Hshape as [[-> _]|[(node & content & e & x & -> & Hnode & _)
    |(node & content & pr & ins & retr & -> & Hnode & Hins & Hretr & _)]].
  - by intros ?%elem_of_nil.
  - intros Hin%list_elem_of_singleton. by simplify_eq.
  - intros [Hin|Hin]%elem_of_cons; [by simplify_eq|].
    apply elem_of_app in Hin as [Hin|Hin].
    + destruct Hins as [->|(id & res'' & ->)].
      * by apply elem_of_nil in Hin.
      * by apply list_elem_of_singleton in Hin.
    + rewrite Forall_forall in Hretr. by destruct (Hretr _ Hin).
Qed.

Lemma shape_dry :
  dbc = None -> Forall (fun e => is_persistence e = false) new.
Proof.
  intros Hd.
  destruct Hshape as [[-> _]|[(node & content & e & x & -> & _)
    |(node & content & pr & ins & retr & -> & _ & _ & _ & Hdry & _)]].
  - done.
  - by repeat constructor.
  - destruct (Hdry Hd) as [-> Hretr]. by constructor.
Qed.

End Shape.

Lemma retr_no_provide r r0 retr :
  Forall (is_retr_event r) retr ->
  omap (provide_call r0) retr = [] /\ omap (provide_record r0) retr = [] /\
  omap (stored_provide r0) retr = [].
Proof.
  intros H. repeat split; apply omap_none; (eapply Forall_impl; [done|]);
    by intros [].
Qed.

(** The projections of a completed round. *)
Lemma shape_completed dbc nodes r p new p' :
  round_shape dbc nodes r p new (Completed p') ->
  p' = int_rem (int_add p 1) (len nodes) /\
  0 <= p < len nodes /\
  omap (provide_call r) new = [p] /\
  omap (retrieve_call r) new ≡ₚ retrNodes nodes p /\
  length (omap (provide_record r) new) = 1%nat /\
  length (omap (retrieval_record r) new) = length (retrNodes nodes p) /\
  (dbc <> None ->
   length (omap (stored_provide r) new) = 1%nat /\
   length (omap (stored_retrieval r) new) = length (retrNodes nodes p)).
Proof.
  intros [[_ [e [=]]]|[(node & content & e & x & _ & _ & [=])
    |(node & content & pr & ins & retr & -> & Hnode & Hins & Hretr & Hdry
      & Hdone)]].
  destruct (Hdone p' eq_refl) as (-> & Hstored & Hcalls & Hrecs & Hrows).
  destruct (retr_no_provide r r retr Hretr) as (Hn1 & Hn2 & Hn3).
  split; [done|]. split; [by eapply index_Some|].
  assert (Hins' : (dbc = None /\ ins = []) \/
                  (dbc <> None /\ exists id, ins = [EvInsertProvide r id pr None])).
  { destruct dbc as [d|]; [right|left].
    - split; [done|]. by apply Hstored.
    - split; [done|]. by apply Hdry. }
  destruct Hins' as [[Hd ->]|[Hd [id ->]]]; csimpl;
    rewrite ?decide_True by done; csimpl;
    rewrite ?Hn1, ?Hn2, ?Hn3; repeat split; try done.
  csimpl. by apply Hrows.
Qed.

(** ** The order of Provide and Retrieve *)

Lemma ordered_app_other tr l :
  ordered tr -> Forall (fun e => ~ is_retrieve e) l -> ordered (tr ++ l).
Proof.
  intros Htr Hl i r rn n c res Hi.
  destruct (decide (i < length tr)%nat) as [Hlt|Hge].
  - rewrite lookup_app_l in Hi by done.
    destruct (Htr _ _ _ _ _ _ Hi) as (j & e & Hj & He & Hp).
    exists j, e. split; [done|]. split; [|done].
    rewrite lookup_app_l by lia. done.
  - rewrite lookup_app_r in Hi by lia.
    rewrite Forall_lookup in Hl. by destruct (Hl _ _ Hi).
Qed.

Lemma ordered_app_round tr l r :
  ordered tr -> (exists j e, tr !! j = Some e /\ is_provided r e) ->
  Forall (is_retr_event r) l -> ordered (tr ++ l).
Proof.
  intros Htr (j0 & e0 & Hj0 & Hp0) Hl i r' rn n c res Hi.
  destruct (decide (i < length tr)%nat) as [Hlt|Hge].
  - rewrite lookup_app_l in Hi by done.
    destruct (Htr _ _ _ _ _ _ Hi) as (j & e & Hj & He & Hp).
    exists j, e. split; [done|]. split; [|done].
    rewrite lookup_app_l by lia. done.
  - rewrite lookup_app_r in Hi by lia.
    rewrite Forall_lookup in Hl. pose proof (Hl _ _ Hi) as Hr. simpl in Hr.
    subst r'. exists j0, e0. apply lookup_lt_Some in Hj0 as Hlt.
    split; [lia|]. split; [|done]. by rewrite lookup_app_l.
Qed.

Lemma shape_ordered dbc nodes r p new res tr :
  round_shape dbc nodes r p new res -> ordered tr -> ordered (tr ++ new).
Proof.
  intros [[-> _]|[(node & content & e & x & -> & _)
    |(node & content & pr & ins & retr & -> & _ & Hins & Hretr & _)]] Htr.
  - by rewrite app_nil_r.
  - apply ordered_app_other; [done|]. repeat constructor. by intros [].
  - replace (tr ++ EvProvide r p node content (Ok pr) :: ins ++ retr)
      with ((tr ++ EvProvide r p node content (Ok pr) :: ins) ++ retr)
      by (by rewrite <- app_assoc).
    apply ordered_app_round with r; [| |done].
    + apply ordered_app_other; [done|]. constructor; [by intros []|].
      destruct Hins as [->|(id & res' & ->)]; repeat constructor.
      by intros [].
    + exists (length tr), (EvProvide r p node content (Ok pr)).
      split; [|done]. by apply list_lookup_middle.
Qed.

(** ** The readiness barrier *)

Section Barrier.
Variable w : World.
Variable nodes : list Node.

Lemma ready_inv_step dbc dbRun tr0 n i g new :
  ready_inv dbc tr0 n g new ->
  exists new', ready_inv dbc tr0 n (step_at (ready_task w dbc dbRun) i g) new'.
Proof.
  intros (Htr & Hlen & Hev & Hdry).
  unfold step_at. destruct (panicked g) eqn:Ep; [by exists new|].
  destruct (tasks g !! i) as [[t|]|] eqn:Ei; [|by exists new..].
  destruct t as [i2 n2|i2 n2 info]; simpl.
  - set (res := WaitForAPI w n2 (cancelled g)).
    exists (new ++ [EvWaitForAPI n2 res]).
    assert (Hev' : Forall is_ready_event (new ++ [EvWaitForAPI n2 res])).
    { apply Forall_app. split; [done|]. by repeat constructor. }
    destruct res as [info|e] eqn:Eres; [destruct dbc as [d|] eqn:Edbc|];
      unfold ready_inv; simpl; (split; [by rewrite Htr, app_assoc|]);
      (split; [done|]); (split; [done|]); try done.
    + intros _. destruct (Hdry eq_refl) as [Hd1 Hd2]. split.
      * apply Forall_app. split; [done|]. by repeat constructor.
      * apply Forall_insert; [done|]. by intros [].
    + intros Hd. destruct (Hdry Hd) as [Hd1 Hd2]. split.
      * apply Forall_app. split; [done|]. by repeat constructor.
      * apply Forall_insert; [done|]. by intros [].
  - assert (Hnodry : dbc <> None).
    { intros Hd. destruct (Hdry Hd) as [_ Hslots].
      rewrite Forall_lookup in Hslots. by apply (Hslots _ _ Ei). }
    destruct dbRun as [run|]; [|by exists new].
    set (res := InsertNode w (models.RunID run) n2 info (cancelled g)).
    exists (new ++ [EvInsertNode (models.RunID run) n2 res]).
    assert (Hev' : Forall is_ready_event
                     (new ++ [EvInsertNode (models.RunID run) n2 res])).
    { apply Forall_app. split; [done|]. by repeat constructor. }
    destruct res as [dbNode|e] eqn:Eres; unfold ready_inv; simpl;
      (split; [by rewrite Htr, app_assoc|]);
      (split; [by rewrite ?length_insert|]); (split; [done|]); done.
Qed.

Lemma foldl_imap_ready (off : nat -> nat) (l : list Node)
    (g : Group ReadyTask Shared) :
  foldl (fun g '(i, n) => Go (TWaitForAPI i n) g) g
        (imap (fun i n => (off i, n)) l) =
  foldl (fun g t => Go t g) g (imap (fun i n => TWaitForAPI (off i) n) l).
Proof.
  revert off g. induction l as [|x l IH]; intros off g; [done|].
  simpl. apply (IH (off ∘ S)).
Qed.

Lemma spawn_ready_tasks s :
  spawn_ready nodes (WithContext s) =
    mkGroup (Some <$> imap (fun i n => TWaitForAPI i n) nodes) None None s.
Proof.
  unfold spawn_ready. rewrite (foldl_imap_ready id). by rewrite Go_tasks.
Qed.

Lemma ready_rank_decreases dbc dbRun c t s t' s' :
  ready_task w dbc dbRun c t s = Yield t' s' ->
  (ready_rank t' < ready_rank t)%nat.
Proof.
  destruct t as [i2 n2|i2 n2 info]; simpl.
  - destruct (WaitForAPI _ _ _); [|done]. destruct dbc; [|done].
    intros [= <- _]. simpl. lia.
  - destruct dbRun; [|done]. by destruct (InsertNode _ _ _ _ _).
Qed.

Lemma ready_rank_bound t : (ready_rank t < 2)%nat.
Proof. destruct t; simpl; lia. Qed.

(** The barrier, from [errgroup.WithContext] to the return of [errg.Wait]. *)
Lemma ready_phase dbc dbRun s :
  let g := Wait (ready_task w dbc dbRun) (sched_ready w) 2
             (spawn_ready nodes (WithContext s)) in
  exists new,
    trace (shared g) = trace s ++ new /\
    length (dbNodes (shared g)) = length (dbNodes s) /\
    Forall is_ready_event new /\
    (dbc = None -> Forall (fun e => is_persistence e = false) new).
Proof.
  intros g. subst g. rewrite spawn_ready_tasks.
  set (g0 := mkGroup _ None None s).
  assert (Hinit : ready_inv dbc (trace s) (length (dbNodes s)) g0 []).
  { unfold ready_inv; simpl. rewrite app_nil_r. repeat split; try done.
    apply Forall_fmap, Forall_forall. intros t Ht.
    apply elem_of_lookup_imap in Ht as (i & n & -> & _). by intros []. }
  destruct (Wait_invariant (ready_task w dbc dbRun)
              (fun g => exists new,
                 ready_inv dbc (trace s) (length (dbNodes s)) g new)
              (fun i g '(ex_intro _ new H) =>
                 ready_inv_step dbc dbRun (trace s) (length (dbNodes s))
                   i g new H)
              (sched_ready w) 2 g0 (ex_intro _ [] Hinit))
    as (new & Htr & Hlen & Hev & Hdry).
  exists new. repeat split; try done. intros Hd. by apply Hdry.
Qed.

End Barrier.

End LoopFacts.
(* ===================================================================== *)
(** * The coordinator: properties of [ScheduleAction] *)
(* ===================================================================== *)

Module SchedulerSpec.
Import Golang GolangFacts errgroup errgroupFacts Scheduler SchedulerInv.
Import RetrieveFacts IndexFacts LoopFacts.

(** The database handle of a run. *)
Local Abbreviation dbc_of dry := (if dry then None else Some dbClient).

Lemma ready_startup new : Forall is_ready_event new -> startup new.
Proof. intros H. eapply Forall_impl; [done|]. by intros []. Qed.

(** [ScheduleAction] stops during the start-up or enters the loop. *)
Lemma ScheduleAction_cases w (dry : bool) nodes fuel :
  (exists tr e,
     ScheduleAction w dry nodes fuel = stopped tr e /\
     startup tr /\
     (dry = true -> Forall (fun e => is_persistence e = false) tr)) \/
  (exists s,
     ScheduleAction w dry nodes fuel = loop w (dbc_of dry) nodes fuel 0 0 s /\
     startup (trace s) /\
     (dry = true -> Forall (fun e => is_persistence e = false) (trace s)) /\
     length (dbNodes s) = length nodes).
Proof.
  unfold ScheduleAction.
  assert (Hbarrier : forall dbc dbRun tr,
    startup tr ->
    (dbc = None -> Forall (fun e => is_persistence e = false) tr) ->
    let errg := Wait (ready_task w dbc dbRun) (sched_ready w) 2
                  (spawn_ready nodes
                     (WithContext (mkShared tr (replicate (length nodes) None))))
    in
    let run :=
      match panicked errg, err errg with
      | Some why, _ => stopped (trace (shared errg)) (Panicked why)
      | None, Some err =>
          stopped (trace (shared errg))
            (Returned (Errorf_w "waiting for parsec node APIs" err))
      | None, None => loop w dbc nodes fuel 0 0 (shared errg)
      end in
    (exists tr' e, run = stopped tr' e /\ startup tr' /\
       (dbc = None -> Forall (fun e => is_persistence e = false) tr')) \/
    (exists s, run = loop w dbc nodes fuel 0 0 s /\ startup (trace s) /\
       (dbc = None -> Forall (fun e => is_persistence e = false) (trace s)) /\
       length (dbNodes s) = length nodes)).
  { intros dbc dbRun tr Hst Hdry errg run.
    destruct (ready_phase w nodes dbc dbRun
                (mkShared tr (replicate (length nodes) None)))
      as (new & Htr & Hlen & Hev & Hpers).
    fold errg in Htr, Hlen. simpl in Htr, Hlen.
    rewrite length_replicate in Hlen.
    assert (Hst' : startup (trace (shared errg))).
    { rewrite Htr. apply Forall_app. split; [done|]. by apply ready_startup. }
    assert (Hdry' : dbc = None ->
              Forall (fun e => is_persistence e = false) (trace (shared errg))).
    { intros Hd. rewrite Htr. apply Forall_app. split; auto. }
    subst run. destruct (panicked errg); [|destruct (err errg)].
    - left. eauto.
    - left. eauto.
    - right. eauto. }
  destruct dry; simpl.
  - destruct (ReadBuildInfo w); simpl.
    + destruct (Hbarrier None None [] ltac:(by constructor) ltac:(by constructor))
        as [(tr' & e & -> & ? & ?)|(s & -> & ? & ? & ?)]; [left|right]; eauto 10.
    + left. do 2 eexists. split; [done|]. split; by constructor.
  - destruct (InitDBClient w) as [[]|e]; simpl; cycle 1.
    { left. do 2 eexists. split; [done|]. split; [|done]. by repeat constructor. }
    destruct (ReadBuildInfo w); simpl; cycle 1.
    { left. do 2 eexists. split; [done|]. split; [|done]. by repeat constructor. }
    destruct (InitRun w) as [dbRun|e]; simpl; cycle 1.
    { left. do 2 eexists. split; [done|]. split; [|done]. by repeat constructor. }
    destruct (Hbarrier (Some dbClient) (Some dbRun) [EvInitDBClient; EvInitRun]
                ltac:(by repeat constructor) ltac:(done))
      as [(tr' & e & -> & ? & ?)|(s & -> & ? & ? & ?)]; [left|right].
    + do 2 eexists. split; [done|]. split; [done|]. done.
    + eexists. split; [done|]. split; [done|]. split; done.
Qed.

(** A round's body, with the shape of what it adds. *)
Lemma round_body_inv w dbc nodes r p s s' res :
  round_body w dbc nodes r p s = (s', res) ->
  exists new,
    trace s' = trace s ++ new /\ dbNodes s' = dbNodes s /\
    round_shape dbc nodes r p new res.
Proof.
  intros Hbody. pose proof (round_body_shape w nodes dbc r p s) as H.
  by rewrite Hbody in H.
Qed.

(** ** Provide comes first *)

Lemma loop_ordered w dbc nodes fuel r p s :
  ordered (trace s) -> ordered (calls (loop w dbc nodes fuel r p s)).
Proof.
  intros Hs.
  destruct (loop_invariant w dbc nodes
              (fun _ _ s => ordered (trace s))
              (fun _ _ s _ => ordered (trace s))) with fuel r p s
    as (s' & -> & H); try done.
  - intros r0 p0 s0 s1 p1 H0 Hbody.
    destruct (round_body_inv _ _ _ _ _ _ _ _ Hbody) as (new & -> & _ & Hsh).
    by eapply shape_ordered.
  - intros r0 p0 s0 s1 e H0 Hbody.
    destruct (round_body_inv _ _ _ _ _ _ _ _ Hbody) as (new & -> & _ & Hsh).
    by eapply shape_ordered.
Qed.

Lemma startup_ordered tr : startup tr -> ordered tr.
Proof.
  intros Hst i r rn n c res Hi.
  unfold startup in Hst. rewrite Forall_lookup in Hst.
  by pose proof (Hst _ _ Hi).
Qed.

(** C6: in the trace of a run every Retrieve call comes after a Provide call
    of the same round whose response has been received: no retrieval of a
    round starts before the provide of that round has returned. *)
Theorem C6_provide_before_retrieve w dry nodes fuel i r rn n c res :
  calls (ScheduleAction w dry nodes fuel) !! i = Some (EvRetrieve r rn n c res) ->
  exists j p n' content provide,
    (j < i)%nat /\
    calls (ScheduleAction w dry nodes fuel) !! j =
      Some (EvProvide r p n' content (Ok provide)).
Proof.
  intros Hi.
  assert (Hord : ordered (calls (ScheduleAction w dry nodes fuel))).
  { destruct (ScheduleAction_cases w dry nodes fuel)
      as [(tr & e & -> & Hst & _)|(s & -> & Hst & _)].
    - by apply startup_ordered.
    - by apply loop_ordered, startup_ordered. }
  destruct (Hord _ _ _ _ _ _ Hi) as (j & e & Hj & He & Hp).
  destruct e as [| | | |r' p n' content [provide|]| | |]; try done.
  simpl in Hp. subst r'. by exists j, p, n', content, provide.
Qed.

(** ** The provider index *)

Lemma next_round r n p :
  0 < n -> p = Z.of_nat r mod n -> (p + 1) mod n = Z.of_nat (S r) mod n.
Proof.
  intros Hn ->. rewrite Zplus_mod_idemp_l. f_equal. lia.
Qed.

Lemma loop_providers w dbc nodes fuel r p s :
  1 <= len nodes -> len nodes <= maxInt ->
  p = Z.of_nat r mod len nodes -> providers_ok nodes (trace s) ->
  let run := loop w dbc nodes fuel r p s in
  provNode run = Z.of_nat (rounds run) mod len nodes /\
  providers_ok nodes (calls run).
Proof.
  intros Hn1 Hn2 Hp Hs run. subst run.
  destruct (loop_invariant w dbc nodes
              (fun r p s =>
                 p = Z.of_nat r mod len nodes /\ providers_ok nodes (trace s))
              (fun r p s _ =>
                 p = Z.of_nat r mod len nodes /\ providers_ok nodes (trace s)))
    with fuel r p s as (s' & -> & H); try done.
  - intros r0 p0 s0 s1 p1 [H0 H1] Hbody.
    destruct (round_body_inv _ _ _ _ _ _ _ _ Hbody) as (new & -> & _ & Hsh).
    destruct (shape_completed _ _ _ _ _ _ Hsh) as (-> & Hrange & _).
    split.
    + rewrite next_provNode by done. apply next_round; [lia|done].
    + intros r' p' n c res [Hin|Hin]%elem_of_app; [by eapply H1|].
      destruct (shape_provide _ _ _ _ _ _ Hsh _ _ _ _ _ Hin) as (-> & -> & _).
      done.
  - intros r0 p0 s0 s1 e [H0 H1] Hbody. split; [done|].
    destruct (round_body_inv _ _ _ _ _ _ _ _ Hbody) as (new & -> & _ & Hsh).
    intros r' p' n c res [Hin|Hin]%elem_of_app; [by eapply H1|].
    destruct (shape_provide _ _ _ _ _ _ Hsh _ _ _ _ _ Hin) as (-> & -> & Hn).
    split; [done|]. by eapply index_Some.
Qed.

Lemma startup_providers nodes tr : startup tr -> providers_ok nodes tr.
Proof.
  intros Hst r p n c res Hin. unfold startup in Hst.
  rewrite Forall_forall in Hst. by pose proof (Hst _ Hin).
Qed.

(** C2: with a fleet of [n >= 1] nodes, the Provide call of round [N] is made
    on index [N mod n]; a completed round takes the index from [p] to
    [(p + 1) mod n]; after [k] completed rounds the index is [k mod n], so it
    stays within [0, n). *)
Theorem C2_provider_index w dry nodes fuel :
  1 <= len nodes -> len nodes <= maxInt ->
  (forall N p n c res,
     EvProvide N p n c res ∈ calls (ScheduleAction w dry nodes fuel) ->
     p = Z.of_nat N mod len nodes) /\
  (forall dbc r p s s' p',
     round_body w dbc nodes r p s = (s', Completed p') ->
     p' = (p + 1) mod len nodes) /\
  provNode (ScheduleAction w dry nodes fuel) =
    Z.of_nat (rounds (ScheduleAction w dry nodes fuel)) mod len nodes /\
  0 <= provNode (ScheduleAction w dry nodes fuel) < len nodes.
Proof.
  intros Hn1 Hn2.
  assert (Hrun : provNode (ScheduleAction w dry nodes fuel) =
                   Z.of_nat (rounds (ScheduleAction w dry nodes fuel))
                     mod len nodes /\
                 providers_ok nodes (calls (ScheduleAction w dry nodes fuel))).
  { destruct (ScheduleAction_cases w dry nodes fuel)
      as [(tr & e & -> & Hst & _)|(s & -> & Hst & _)].
    - simpl. split; [simpl; by rewrite Zmod_0_l|].
      by apply startup_providers.
    - apply loop_providers; try done. by apply startup_providers. }
  destruct Hrun as [Hprov Hok]. split; [|split; [|split]].
  - intros N p n c res Hin. by destruct (Hok _ _ _ _ _ Hin).
  - intros dbc r p s s' p' Hbody.
    destruct (round_body_inv _ _ _ _ _ _ _ _ Hbody) as (new & _ & _ & Hsh).
    destruct (shape_completed _ _ _ _ _ _ Hsh) as (-> & Hrange & _).
    by apply next_provNode.
  - done.
  - rewrite Hprov. apply Z.mod_pos_bound. lia.
Qed.

(** ** The calls of a completed round *)

Lemma projections_other r0 l :
  Forall (fun e => round_of e <> Some r0) l ->
  omap (provide_call r0) l = [] /\ omap (retrieve_call r0) l = [] /\
  omap (provide_record r0) l = [] /\ omap (retrieval_record r0) l = [] /\
  omap (stored_provide r0) l = [] /\ omap (stored_retrieval r0) l = [].
Proof.
  intros H. repeat split; apply omap_none; (eapply Forall_impl; [done|]);
    intros e He; destruct e; simpl in *; try done;
    repeat match goal with
           | |- context [match ?x with _ => _ end] => destruct x
           end; try done; congruence.
Qed.

Lemma round_props_app_other dbc nodes r0 tr new :
  Forall (fun e => round_of e <> Some r0) new ->
  round_props dbc nodes r0 tr -> round_props dbc nodes r0 (tr ++ new).
Proof.
  intros Hnew. unfold round_props. rewrite !omap_app.
  destruct (projections_other r0 new Hnew) as (-> & -> & -> & -> & -> & ->).
  by rewrite !app_nil_r.
Qed.

Lemma round_props_new dbc nodes r p new p' tr :
  before_round r tr -> p = Z.of_nat r mod len nodes ->
  round_shape dbc nodes r p new (Completed p') ->
  round_props dbc nodes r (tr ++ new).
Proof.
  intros Htr Hp Hsh. unfold round_props. rewrite !omap_app.
  assert (Hold : Forall (fun e => round_of e <> Some r) tr).
  { eapply Forall_impl; [done|]. intros e He Hr. specialize (He _ Hr). lia. }
  destruct (projections_other r tr Hold) as (-> & -> & -> & -> & -> & ->).
  simpl. rewrite <- Hp.
  by destruct (shape_completed _ _ _ _ _ _ Hsh) as (_ & _ & H).
Qed.

Lemma loop_rounds w dbc nodes fuel s r0 :
  1 <= len nodes -> len nodes <= maxInt -> startup (trace s) ->
  (r0 < rounds (loop w dbc nodes fuel 0 0 s))%nat ->
  round_props dbc nodes r0 (calls (loop w dbc nodes fuel 0 0 s)).
Proof.
  intros Hn1 Hn2 Hst.
  destruct (loop_invariant w dbc nodes
              (fun r p s =>
                 p = Z.of_nat r mod len nodes /\ before_round r (trace s) /\
                 forall r0, (r0 < r)%nat -> round_props dbc nodes r0 (trace s))
              (fun r p s _ =>
                 forall r0, (r0 < r)%nat -> round_props dbc nodes r0 (trace s)))
    with fuel 0%nat 0 s as (s' & -> & H).
  - by intros r p s0 (_ & _ & H).
  - intros r p s0 s1 p1 (Hp & Hbefore & Hprops) Hbody.
    destruct (round_body_inv _ _ _ _ _ _ _ _ Hbody) as (new & -> & _ & Hsh).
    pose proof (shape_round_of _ _ _ _ _ _ Hsh) as Hnew.
    destruct (shape_completed _ _ _ _ _ _ Hsh) as (-> & Hrange & _).
    split; [|split].
    + rewrite next_provNode by done. apply next_round; [lia|done].
    + apply Forall_app. split.
      * eapply Forall_impl; [done|]. intros e He r' Hr'.
        specialize (He _ Hr'). lia.
      * eapply Forall_impl; [done|]. intros e He r' Hr'.
        rewrite He in Hr'. simplify_eq. lia.
    + intros r1 Hr1. destruct (decide (r1 = r)) as [->|Hne].
      * by eapply round_props_new.
      * apply round_props_app_other; [|apply Hprops; lia].
        eapply Forall_impl; [done|]. intros e He. rewrite He. congruence.
  - intros r p s0 s1 e (Hp & Hbefore & Hprops) Hbody r1 Hr1.
    destruct (round_body_inv _ _ _ _ _ _ _ _ Hbody) as (new & -> & _ & Hsh).
    pose proof (shape_round_of _ _ _ _ _ _ Hsh) as Hnew.
    apply round_props_app_other; [|by apply Hprops].
    eapply Forall_impl; [done|]. intros e' He. rewrite He.
    intros [= ->]. lia.
  - split; [simpl; by rewrite Zmod_0_l|]. split.
    + eapply Forall_impl; [done|]. intros e He r' Hr'. congruence.
    + intros r1 Hr1. lia.
  - intros Hr0. by apply H.
Qed.

(** C1: with a fleet of [n >= 2] nodes, a completed round [r] makes exactly
    one Provide call, on the provider index of the round, and its Retrieve
    calls are made on the indices [(provNode + i + 1) mod n] for
    [0 <= i <= n - 2]: every index of the fleet but the provider's, each
    once.  The round yields one Provide Record and [n - 1] Retrieval Records,
    and a run with a database stores as many rows. *)
Theorem C1_round_calls w dry nodes fuel r :
  2 <= len nodes -> len nodes <= maxFleet ->
  (r < rounds (ScheduleAction w dry nodes fuel))%nat ->
  let tr := calls (ScheduleAction w dry nodes fuel) in
  let p := Z.of_nat r mod len nodes in
  omap (provide_call r) tr = [p] /\
  omap (retrieve_call r) tr ≡ₚ
    (fun i => (p + i + 1) mod len nodes) <$> seqZ 0 (len nodes - 1) /\
  NoDup (omap (retrieve_call r) tr) /\
  (forall j, j ∈ omap (retrieve_call r) tr <-> 0 <= j < len nodes /\ j <> p) /\
  length (omap (provide_record r) tr) = 1%nat /\
  length (omap (retrieval_record r) tr) = (length nodes - 1)%nat /\
  (dry = false ->
   length (omap (stored_provide r) tr) = 1%nat /\
   length (omap (stored_retrieval r) tr) = (length nodes - 1)%nat).
Proof.
  intros Hn1 Hn2 Hr tr p.
  assert (Hp : 0 <= p < len nodes) by (apply Z.mod_pos_bound; lia).
  assert (Hprops : round_props (dbc_of dry) nodes r tr).
  { subst tr. revert Hr.
    destruct (ScheduleAction_cases w dry nodes fuel)
      as [(tr & e & -> & Hst & _)|(s & -> & Hst & _)]; simpl.
    - lia.
    - apply loop_rounds; try done; unfold maxFleet, maxInt in *; lia. }
  destruct Hprops as (Hprov & Hcalls & Hrec & Hrecs & Hrows). fold p in Hcalls, Hrecs, Hrows, Hprov.
  rewrite (retrNodes_length nodes p Hp Hn2) in Hrecs, Hrows.
  split; [done|]. split; [by rewrite Hcalls, retrNodes_exact|].
  split; [rewrite Hcalls; by apply retrNodes_NoDup|].
  split; [intros j; rewrite Hcalls; by apply retrNodes_elem|].
  split; [done|]. split; [done|].
  intros ->. by apply Hrows.
Qed.

(** ** Dry runs *)

Lemma loop_dry w nodes fuel r p s :
  Forall (fun e => is_persistence e = false) (trace s) ->
  Forall (fun e => is_persistence e = false)
    (calls (loop w None nodes fuel r p s)).
Proof.
  intros Hs.
  destruct (loop_invariant w None nodes
              (fun _ _ s => Forall (fun e => is_persistence e = false) (trace s))
              (fun _ _ s _ =>
                 Forall (fun e => is_persistence e = false) (trace s)))
    with fuel r p s as (s' & -> & H); try done.
  - intros r0 p0 s0 s1 p1 H0 Hbody.
    destruct (round_body_inv _ _ _ _ _ _ _ _ Hbody) as (new & -> & _ & Hsh).
    apply Forall_app. split; [done|]. by eapply shape_dry.
  - intros r0 p0 s0 s1 e H0 Hbody.
    destruct (round_body_inv _ _ _ _ _ _ _ _ Hbody) as (new & -> & _ & Hsh).
    apply Forall_app. split; [done|]. by eapply shape_dry.
Qed.

Lemma dry_run_no_persistence w nodes fuel :
  Forall (fun e => is_persistence e = false)
    (calls (ScheduleAction w true nodes fuel)).
Proof.
  destruct (ScheduleAction_cases w true nodes fuel)
    as [(tr & e & -> & _ & Hdry)|(s & -> & _ & Hdry & _)].
  - by apply Hdry.
  - apply loop_dry. by apply Hdry.
Qed.

End SchedulerSpec.
(* ===================================================================== *)
(** * The coordinator: a dry run beside a run with the database *)
(* ===================================================================== *)

Module DryRunFacts.
Import Golang GolangFacts errgroup errgroupFacts Scheduler SchedulerInv.
Import RetrieveFacts IndexFacts LoopFacts.

Local Abbreviation kept := (fun e => is_persistence e = false).

Lemma filter_snoc_kept (tr : list Event) e :
  is_persistence e = false -> filter kept (tr ++ [e]) = filter kept tr ++ [e].
Proof.
  intros He. rewrite filter_app. f_equal.
  rewrite filter_cons_True by done. by rewrite filter_nil.
Qed.

Lemma filter_snoc_dropped (tr : list Event) e :
  is_persistence e = true -> filter kept (tr ++ [e]) = filter kept tr.
Proof.
  intros He. rewrite filter_app.
  rewrite filter_cons_False by (by rewrite He). 
  by rewrite filter_nil, app_nil_r.
Qed.

Lemma filter_kept_idemp (tr : list Event) :
  filter kept (filter kept tr) = filter kept tr.
Proof.
  induction tr as [|e tr IH]; [done|].
  destruct (is_persistence e) eqn:He.
  - by rewrite filter_cons_False by (by rewrite He).
  - rewrite filter_cons_True by done. rewrite filter_cons_True by done.
    by rewrite IH.
Qed.

Lemma index_fmap_Some (ds : list models.Node) i x :
  index (Some <$> ds) i = Some x -> exists d, x = Some d.
Proof.
  unfold index. destruct (0 <=? i); [|done].
  rewrite list_lookup_fmap. destruct (ds !! Z.to_nat i); [|done].
  intros [= <-]. eauto.
Qed.

Lemma index_same_length {A B} (l1 : list A) (l2 : list B) i :
  length l1 = length l2 -> is_Some (index l1 i) <-> is_Some (index l2 i).
Proof.
  intros Hlen. unfold index. destruct (0 <=? i); [|by rewrite !is_Some_alt].
  by rewrite !lookup_lt_is_Some, Hlen.
Qed.

Ltac related :=
  unfold retr_related, same_measurement; simpl;
  repeat split; simpl; eauto; try congruence.

Section Goroutines.
Variable w : World.
Variable nodes : list Node.
Hypothesis Hpers : persistence_succeeds w.

(** The goroutines of a round. *)
Lemma retr_related_step r content i g1 g2 :
  retr_related (length nodes) g1 g2 ->
  retr_related (length nodes)
    (step_at (retrieve_task w (Some dbClient) nodes r content) i g1)
    (step_at (retrieve_task w None nodes r content) i g2).
Proof.
  intros (Hp & He & Hslots & Htr & (ds & Hds) & Hl1 & Hl2).
  unfold step_at. rewrite <- Hp. destruct (panicked g1) eqn:Ep.
  { related. }
  assert (Hc : cancelled g2 = cancelled g1) by (unfold cancelled; by rewrite He).
  destruct (tasks g1 !! i) as [slot1|] eqn:E1; cycle 1.
  { assert (tasks g2 !! i = None) as ->.
    { apply lookup_ge_None. apply lookup_ge_None in E1.
      by rewrite <- (Forall2_length _ _ _ Hslots). }
    related. }
  destruct (Forall2_lookup_l _ _ _ _ _ Hslots E1) as (slot2 & E2 & Hrel).
  rewrite E2.
  destruct slot1 as [[rn|dbNode x]|], slot2 as [[rn'|dbNode' x']|];
    simpl in Hrel; try done; try (by destruct dbNode).
  - (* both are about to call Retrieve *)
    subst rn'. simpl. rewrite Hc.
    destruct (index nodes rn) as [node|] eqn:Hnode; cycle 1.
    { related. }
    assert (Hin : is_Some (index (dbNodes (shared g1)) rn)).
    { apply (index_same_length nodes); [by rewrite Hl1|]. by rewrite Hnode. }
    destruct Hin as [dbNode HdbNode]. rewrite HdbNode.
    assert (Hin2 : is_Some (index (dbNodes (shared g2)) rn)).
    { apply (index_same_length nodes); [by rewrite Hl2|]. by rewrite Hnode. }
    destruct Hin2 as [dbNode2 ->].
    assert (exists d, dbNode = Some d) as [d ->].
    { rewrite Hds in HdbNode. by eapply index_fmap_Some. }
    destruct (Retrieve w r node (CID content) (cancelled g1)) as [x|e]; simpl.
    + related; first
        [ by rewrite <- He; destruct (err g1)
        | by apply Forall2_insert
        | by rewrite filter_snoc_kept, Htr by done ].
    + related; first
        [ by rewrite <- He; destruct (err g1)
        | by apply Forall2_insert
        | by rewrite filter_snoc_kept, Htr by done ].
  - (* the run with the database inserts, the dry run has returned *)
    destruct dbNode as [d|]; [|done]. simpl.
    destruct Hpers as (_ & _ & _ & _ & Hins). rewrite Hins.
    related; first
      [ by rewrite <- He; destruct (err g1)
      | by rewrite <- (list_insert_id (tasks g2) i None E2);
           apply Forall2_insert
      | by rewrite filter_snoc_dropped ].
  - related.
Qed.

Lemma retr_slots_spawned (l : list Z) :
  Forall2 retr_slots (Some <$> (TRetrieve <$> l)) (Some <$> (TRetrieve <$> l)).
Proof. induction l as [|x l IH]; csimpl; by constructor. Qed.

Lemma same_measurement_emit s1 s2 e :
  is_persistence e = false ->
  same_measurement (length nodes) s1 s2 ->
  same_measurement (length nodes) (emit e s1) (emit e s2).
Proof.
  intros He (Htr & Hds & Hl1 & Hl2). unfold same_measurement. simpl.
  rewrite filter_snoc_kept by done. by rewrite Htr.
Qed.

Lemma same_measurement_stored s1 s2 e :
  is_persistence e = true ->
  same_measurement (length nodes) s1 s2 ->
  same_measurement (length nodes) (emit e s1) s2.
Proof.
  intros He (Htr & Hds & Hl1 & Hl2). unfold same_measurement. simpl.
  by rewrite filter_snoc_dropped.
Qed.

(** The rows of a run with the database are there for every node. *)
Lemma same_measurement_row s1 s2 p node :
  same_measurement (length nodes) s1 s2 -> index nodes p = Some node ->
  (exists d, index (dbNodes s1) p = Some (Some d)) /\
  is_Some (index (dbNodes s2) p).
Proof.
  intros (Htr & (ds & Hds) & Hl1 & Hl2) Hnode. split.
  - assert (Hin : is_Some (index (dbNodes s1) p)).
    { apply (index_same_length nodes); [by rewrite Hl1|]. by rewrite Hnode. }
    destruct Hin as [x Hx]. rewrite Hx. rewrite Hds in Hx.
    apply index_fmap_Some in Hx as [d ->]. eauto.
  - apply (index_same_length nodes); [by rewrite Hl2|]. by rewrite Hnode.
Qed.

(** One pass through the loop body. *)
Lemma round_related r p s1 s2 :
  same_measurement (length nodes) s1 s2 ->
  same_measurement (length nodes)
    (round_body w (Some dbClient) nodes r p s1).1
    (round_body w None nodes r p s2).1 /\
  same_result (round_body w (Some dbClient) nodes r p s1).2
              (round_body w None nodes r p s2).2.
Proof.
  intros Hs. unfold round_body.
  destruct (Context_Err w r) as [e|]; [by split; [|left]|].
  destruct (NewRandomContent w r) as [content|e]; [|by split; [|left]].
  destruct (index nodes p) as [node|] eqn:Hnode; [|by split; [|left]].
  set (res := Provide w r node content).
  pose proof (same_measurement_emit s1 s2
                (EvProvide r p node content res) eq_refl Hs) as Hs'.
  destruct (same_measurement_row _ _ p node Hs' Hnode) as [[d Hd] [x Hx]].
  rewrite Hd, Hx.
  destruct res as [pr|e] eqn:Eres.
  - destruct Hpers as (_ & _ & _ & Hins & _). rewrite Hins. simpl.
    pose proof (same_measurement_stored _ _
                  (EvInsertProvide r (models.ID d) pr None) eq_refl Hs')
      as Hs''.
    rewrite !spawn_retrieve_tasks.
    set (g1 := mkGroup (Some <$> (TRetrieve <$> retrNodes nodes p)) None None
                 (emit (EvInsertProvide r (models.ID d) pr None)
                    (emit (EvProvide r p node content (Ok pr)) s1))).
    set (g2 := mkGroup (Some <$> (TRetrieve <$> retrNodes nodes p)) None None
                 (emit (EvProvide r p node content (Ok pr)) s2)).
    assert (Hlen : forall g1 g2 : Group RetrTask Shared,
              retr_related (length nodes) g1 g2 ->
              length (tasks g1) = length (tasks g2)).
    { intros h1 h2 (_ & _ & H & _). by eapply Forall2_length. }
    pose proof (Wait_related _ _ (retr_related (length nodes)) Hlen
                  (retr_related_step r content) (sched_round w r) 2 g1 g2)
      as Hrel.
    assert (Hinit : retr_related (length nodes) g1 g2).
    { unfold retr_related. simpl.
      split; [done|]. split; [done|]. split; [|exact Hs''].
      apply retr_slots_spawned. }
    destruct (Hrel Hinit) as (Hp & He & _ & Hfinal).
    rewrite <- Hp, <- He.
    match goal with
    | |- context [panicked ?g] => destruct (panicked g); [|destruct (err g)]
    end; simpl; (split; [done|by left]).
  - simpl. destruct x as [d'|]; simpl; (split; [done|]).
    + by left.
    + right. eauto.
Qed.

Lemma same_measurement_calls s1 s2 :
  same_measurement (length nodes) s1 s2 ->
  filter kept (trace s1) = filter kept (trace s2).
Proof. intros (<- & _). by rewrite filter_kept_idemp. Qed.

(** The loop. *)
Lemma loop_related fuel r p s1 s2 :
  same_measurement (length nodes) s1 s2 ->
  measurement (loop w None nodes fuel r p s2) =
    measurement (loop w (Some dbClient) nodes fuel r p s1) \/
  exit (loop w None nodes fuel r p s2) = Some (Panicked NilDereference).
Proof.
  revert r p s1 s2. induction fuel as [|fuel IH]; intros r p s1 s2 Hs; simpl.
  - left. unfold measurement. simpl.
    by rewrite (same_measurement_calls _ _ Hs).
  - destruct (round_related r p s1 s2 Hs) as [Hs' Hres].
    destruct (round_body w (Some dbClient) nodes r p s1) as [s1' res1].
    destruct (round_body w None nodes r p s2) as [s2' res2].
    simpl in Hs', Hres. destruct Hres as [->|[[e ->] ->]].
    + destruct res2 as [p'|e]; [by apply IH|].
      left. unfold measurement. simpl.
      by rewrite (same_measurement_calls _ _ Hs').
    + by right.
Qed.

(** The barrier. *)
Lemma ready_related_step dbRun i g1 g2 :
  ready_related g1 g2 ->
  ready_related
    (step_at (ready_task w (Some dbClient) (Some dbRun)) i g1)
    (step_at (ready_task w None None) i g2).
Proof.
  intros (Hp & He & Hslots & Htr & Hl1 & Hl2 & Htag & Hrows).
  unfold step_at. rewrite <- Hp. destruct (panicked g1) eqn:Ep.
  { unfold ready_related. repeat split; eauto; congruence. }
  assert (Hc : cancelled g2 = cancelled g1) by (unfold cancelled; by rewrite He).
  destruct (tasks g1 !! i) as [slot1|] eqn:E1; cycle 1.
  { assert (tasks g2 !! i = None) as ->.
    { apply lookup_ge_None. apply lookup_ge_None in E1.
      by rewrite <- (Forall2_length _ _ _ Hslots). }
    unfold ready_related. repeat split; eauto; congruence. }
  destruct (Forall2_lookup_l _ _ _ _ _ Hslots E1) as (slot2 & E2 & Hrel).
  rewrite E2. pose proof (lookup_lt_Some _ _ _ E1) as Hi.
  destruct slot1 as [[i2 n2|i2 n2 info]|], slot2 as [[j2 m2|j2 m2 info']|];
    simpl in Hrel; try done.
  - (* both are about to wait for the API *)
    destruct Hrel as [<- <-]. simpl. rewrite Hc.
    destruct (WaitForAPI w n2 (cancelled g1)) as [info|e]; simpl;
      unfold ready_related; simpl; rewrite ?length_insert;
      (split; [done|]); (split; [by rewrite <- He; destruct (err g1)|]);
      (split; [by apply Forall2_insert|]);
      (split; [by rewrite filter_snoc_kept, Htr by done|]);
      (split; [done|]); (split; [done|]); split.
    + intros j t Hj. destruct (decide (j = i)) as [->|Hne].
      * rewrite list_lookup_insert_eq in Hj by done. simplify_eq.
        by apply (Htag _ _ E1).
      * rewrite list_lookup_insert_ne in Hj by done. by apply Htag.
    + intros Herr j Hj. destruct (decide (j = i)) as [->|Hne].
      * by rewrite list_lookup_insert_eq in Hj by done.
      * rewrite list_lookup_insert_ne in Hj by done. by apply Hrows.
    + intros j t Hj. destruct (decide (j = i)) as [->|Hne].
      * by rewrite list_lookup_insert_eq in Hj by done.
      * rewrite list_lookup_insert_ne in Hj by done. by apply Htag.
    + intros Herr. by destruct (err g1).
  - (* the run with the database inserts the node *)
    simpl. destruct Hpers as (_ & _ & Hins & _).
    destruct (Hins (models.RunID dbRun) n2 info (cancelled g1)) as [d ->].
    pose proof (Htag _ _ E1) as Hi2. simpl in Hi2. subst i2.
    unfold ready_related; simpl; rewrite ?length_insert.
    split; [done|]. split; [by destruct (err g1)|].
    split; [by rewrite <- (list_insert_id (tasks g2) i None E2);
               apply Forall2_insert|].
    split; [by rewrite filter_snoc_dropped|].
    split; [done|]. split; [done|]. split.
    + intros j t Hj. destruct (decide (j = i)) as [->|Hne].
      * by rewrite list_lookup_insert_eq in Hj by done.
      * rewrite list_lookup_insert_ne in Hj by done. by apply Htag.
    + intros Herr j Hj. destruct (decide (j = i)) as [->|Hne].
      * exists d. apply list_lookup_insert_eq. by rewrite Hl1.
      * rewrite list_lookup_insert_ne in Hj by done.
        rewrite list_lookup_insert_ne by done.
        apply Hrows; [|done]. by destruct (err g1).
  - unfold ready_related. repeat split; eauto; congruence.
Qed.

Lemma all_rows (l : list (option models.Node)) :
  (forall i, (i < length l)%nat -> exists d, l !! i = Some (Some d)) ->
  exists ds, l = Some <$> ds.
Proof.
  induction l as [|x l IH]; intros H.
  - by exists [].
  - destruct (H 0%nat ltac:(simpl; lia)) as [d Hd]. simpl in Hd.
    destruct IH as [ds ->].
    { intros i Hi. apply (H (S i)). simpl. lia. }
    exists (d :: ds). by simplify_eq.
Qed.

Lemma ready_slots_spawned (l : list ReadyTask) :
  Forall (fun t => match t with TWaitForAPI _ _ => True | _ => False end) l ->
  Forall2 ready_slots (Some <$> l) (Some <$> l).
Proof.
  induction 1 as [|t l Ht _ IH]; csimpl; constructor; [|done].
  by destruct t.
Qed.

(** The whole action. *)
Lemma ScheduleAction_related fuel :
  measurement (ScheduleAction w true nodes fuel) =
    measurement (ScheduleAction w false nodes fuel) \/
  exit (ScheduleAction w true nodes fuel) = Some (Panicked NilDereference).
Proof.
  unfold ScheduleAction. simpl.
  destruct Hpers as ([[] Hdbc] & [dbRun HdbRun] & _). rewrite Hdbc. simpl.
  destruct (ReadBuildInfo w); simpl; [|by left].
  rewrite HdbRun. simpl. rewrite !spawn_ready_tasks.
  set (tasks0 := Some <$> imap (fun i n => TWaitForAPI i n) nodes).
  set (g1 := mkGroup tasks0 None None
               (mkShared [EvInitDBClient; EvInitRun]
                  (replicate (length nodes) None))).
  set (g2 := mkGroup tasks0 None None
               (mkShared [] (replicate (length nodes) None))).
  assert (Hlen0 : length tasks0 = length nodes).
  { unfold tasks0. by rewrite length_fmap, length_imap. }
  assert (Hinit : ready_related g1 g2).
  { unfold ready_related. simpl. rewrite !length_replicate, Hlen0.
    split; [done|]. split; [done|]. split.
    { apply ready_slots_spawned, Forall_forall. intros t Ht.
      by apply elem_of_lookup_imap in Ht as (i & n & -> & _). }
    split; [done|]. split; [done|]. split; [done|]. split.
    - intros i t Hi. unfold tasks0 in Hi.
      rewrite list_lookup_fmap, list_lookup_imap in Hi.
      destruct (nodes !! i); simpl in Hi; by simplify_eq.
    - intros _ i Hi. unfold tasks0 in Hi.
      rewrite list_lookup_fmap, list_lookup_imap in Hi.
      destruct (nodes !! i); simpl in Hi; by simplify_eq. }
  assert (Hlen : forall g1 g2 : Group ReadyTask Shared,
            ready_related g1 g2 -> length (tasks g1) = length (tasks g2)).
  { intros h1 h2 (_ & _ & H & _). by eapply Forall2_length. }
  pose proof (Wait_related _ _ ready_related Hlen
                (ready_related_step dbRun) (sched_ready w) 2 g1 g2 Hinit)
    as (Hp & He & _ & Htr & Hl1 & Hl2 & _ & Hrows).
  pose proof (Wait_length (ready_task w (Some dbClient) (Some dbRun))
                (sched_ready w) 2 g1) as Hlen1.
  rewrite Hlen1 in Hl1, Hl2. simpl in Hl1, Hl2. rewrite Hlen0 in Hl1, Hl2.
  set (h1 := Wait (ready_task w (Some dbClient) (Some dbRun))
               (sched_ready w) 2 g1) in *.
  set (h2 := Wait (ready_task w None None) (sched_ready w) 2 g2) in *.
  assert (Hcalls : filter kept (trace (shared h2))
                   = filter kept (trace (shared h1))).
  { rewrite <- Htr. by rewrite filter_kept_idemp. }
  rewrite <- Hp, <- He.
  destruct (panicked h1) eqn:Ep; [|destruct (err h1) eqn:Eerr].
  - left. unfold measurement. simpl. by rewrite Hcalls.
  - left. unfold measurement. simpl. by rewrite Hcalls.
  - apply loop_related. split; [done|]. split; [|done].
    apply all_rows. intros i Hi. apply (Hrows eq_refl).
    pose proof (Wait_all_returned (ready_task w (Some dbClient) (Some dbRun))
                  ready_rank
                  (ready_rank_decreases w (Some dbClient) (Some dbRun))
                  2 ready_rank_bound (sched_ready w) g1 Ep) as Hall.
    fold h1 in Hall. rewrite Hall. apply lookup_replicate. split; [done|].
    simpl. rewrite Hlen0. by rewrite Hl1 in Hi.
Qed.

End Goroutines.
(** ** What a failed Provide does to the round *)

Lemma provide_failure_round w dbc nodes K p s node content e :
  Context_Err w K = None -> NewRandomContent w K = Ok content ->
  index nodes p = Some node -> Provide w K node content = Err e ->
  trace (round_body w dbc nodes K p s).1 =
    trace s ++ [EvProvide K p node content (Err e)] /\
  (forall d, index (dbNodes s) p = Some (Some d) ->
     (round_body w dbc nodes K p s).2 =
       Exited (Returned (Errorf_w "provide content" e))) /\
  (index (dbNodes s) p = Some None ->
     (round_body w dbc nodes K p s).2 = Exited (Panicked NilDereference)).
Proof.
  intros Hctx Hcontent Hnode Hprov. unfold round_body.
  rewrite Hctx, Hcontent, Hnode, Hprov. simpl.
  split; [by destruct (index (dbNodes s) p) as [[?|]|]|]. split.
  - by intros d ->.
  - by intros ->.
Qed.

End DryRunFacts.

(* ===================================================================== *)
(** * The coordinator: dry runs and failed provides *)
(* ===================================================================== *)

Module DryRunSpec.
Import Golang errgroup Scheduler SchedulerInv SchedulerSpec DryRunFacts.
Import Examples.

(** C7, as the code has it: a dry run makes no persistence call at all.  When
    every persistence call of the run with the database succeeds, and the dry
    run does not die on the nil row of a provider whose Provide failed, both
    runs make the same measurement: the same calls to the agents in the same
    order, the same rounds, the same provider index, the same end. *)
Theorem C7_dry_run_measurement w nodes fuel :
  Forall (fun e => is_persistence e = false)
    (calls (ScheduleAction w true nodes fuel)) /\
  (persistence_succeeds w ->
   exit (ScheduleAction w true nodes fuel) <> Some (Panicked NilDereference) ->
   measurement (ScheduleAction w true nodes fuel) =
     measurement (ScheduleAction w false nodes fuel)).
Proof.
  split; [apply dry_run_no_persistence|].
  intros Hpers Hexit.
  by destruct (ScheduleAction_related w nodes Hpers fuel).
Qed.

(** C7 as it is stated fails: when the database refuses the provide of round
    0 the run with the database ends there, while the dry run goes on to the
    retrievals. *)
Lemma C7_counterexample :
  measurement (ScheduleAction world_insert_fails true fleet 1) <>
  measurement (ScheduleAction world_insert_fails false fleet 1).
Proof. vm_compute. discriminate. Qed.

(** C5 fails in a dry run: when the Provide call of round 1 fails, the run
    with the database returns the error "provide content: ...", but the dry
    run dies of a nil dereference in the log line that reads
    [dbNodes[provNode].ID].  Neither makes a Retrieve call in round 1. *)
Theorem C5_dry_run_provide_failure_panics :
  exit (ScheduleAction world_provide_fails true fleet 5) =
    Some (Panicked NilDereference) /\
  exit (ScheduleAction world_provide_fails false fleet 5) =
    Some (Returned
            (wrapError "provide content" (errorString "connection refused")))
  /\
  omap (retrieve_call 1)
    (calls (ScheduleAction world_provide_fails true fleet 5)) = [] /\
  omap (retrieve_call 1)
    (calls (ScheduleAction world_provide_fails false fleet 5)) = [] /\
  omap (stored_retrieval 1)
    (calls (ScheduleAction world_provide_fails false fleet 5)) = [].
Proof. vm_compute. done. Qed.

End DryRunSpec.
(* ===================================================================== *)
(** * The properties at concrete surroundings *)
(* ===================================================================== *)

Module Witnesses.
Import Golang errgroup Scheduler SchedulerInv Examples.
Import ServerSpec SchedulerSpec DryRunSpec.

Local Abbreviation handler env := (Server.retrieve tagIPNI tagDHT env).

(** The deadline expires on a DHT query: the agent answers 200 with
    ["bafy|not found"]. *)
Lemma C3_dht_not_found_witness :
  (handler env_nothing server0 rw0 (request "DHT") "bafy").2 =
    Server.mkResponseWriter (Some Server.StatusOK) "bafy|not found" false /\
  0 <= 250 /\ "not found" <> "".
Proof.
  apply (C3_dht_not_found tagIPNI tagDHT env_nothing server0 rw0
           (request "DHT") "bafy" "DHT" (Server.mkRetrieveRequest "DHT")
           "bafy" empty_host (Server.ChanClosed Server.DeadlineExceeded)
           "bafy|not found");
    first [reflexivity | discriminate | by left | by vm_compute].
Defined.

(** The indexer knows nothing: 200 with ["bafy|not found"]. *)
Lemma C4_indexer_outcomes_witness :
  Server.status (handler env_nothing server0 rw0 (request "IPNI") "bafy").2
    = Some Server.StatusOK /\
  (forall js,
     Server.json_Marshal env_nothing
       (Server.mkRetrievalResponse "bafy"
          (subMono (Server.clock_end env_nothing)
             (Server.clock_start env_nothing))
          (Server.RoutingTableSize (Server.host server0)) "not found")
       = Ok js ->
     Server.broken rw0 = false ->
     (handler env_nothing server0 rw0 (request "IPNI") "bafy").2 =
       Server.mkResponseWriter (Some Server.StatusOK) js false).
Proof.
  apply (C4_indexer_outcomes tagIPNI tagDHT env_nothing server0 rw0
           (request "IPNI") "bafy" "IPNI" (Server.mkRetrieveRequest "IPNI")
           "bafy" empty_host (Ok (Server.mkFindResponse [])));
    reflexivity.
Defined.

(** The provider found by the DHT query is forgotten again. *)
Lemma C8_found_provider_forgotten_witness :
  let s' := (handler env_found server0 rw0 (request "DHT") "bafy").1 in
  ("QmProvider" ∉ Server.conns (Server.host s')) /\
  ("QmProvider" ∉ Server.peers (Server.host s')) /\
  Server.addrs (Server.host s') !! "QmProvider" = None /\
  exists post,
    Server.calls s' =
      Server.calls server0 ++
        [Server.CallFindProvidersAsync "bafy" 1;
         Server.CallClosePeer "QmProvider"; Server.CallRemovePeer "QmProvider";
         Server.CallClearAddrs "QmProvider"; Server.CallMarshal] ++ post /\
    Forall (fun c => exists data, c = Server.CallWrite data) post.
Proof.
  apply (C8_found_provider_forgotten tagIPNI tagDHT env_found server0 rw0
           (request "DHT") "bafy" "DHT" (Server.mkRetrieveRequest "DHT")
           "bafy" (dialled "QmProvider" empty_host)
           (Server.mkAddrInfo "QmProvider" ["/ip4/10.0.0.1/tcp/4001"]));
    first [reflexivity | discriminate].
Defined.

(** A misspelt selector is served by the DHT. *)
Lemma C9_other_selector_runs_dht_witness :
  Server.status (handler env_nothing server0 rw0 (request "ipni?") "bafy").2
    = Some Server.StatusOK.
Proof.
  apply (C9_other_selector_runs_dht tagIPNI tagDHT env_nothing server0 rw0
           (request "ipni?") "bafy" "ipni?" (Server.mkRetrieveRequest "ipni?")
           "bafy");
    first [reflexivity | discriminate].
Defined.

(** A deadline that expires reads as "not found". *)
Lemma C10_closed_channel_is_not_found_witness :
  (handler env_nothing server0 rw0 (request "DHT") "bafy").2 =
    Server.mkResponseWriter (Some Server.StatusOK) "bafy|not found" false.
Proof.
  apply (C10_closed_channel_is_not_found tagIPNI tagDHT env_nothing server0
           rw0 (request "DHT") "bafy" "DHT" (Server.mkRetrieveRequest "DHT")
           "bafy" empty_host Server.DeadlineExceeded "bafy|not found");
    first [reflexivity | discriminate].
Defined.

(** Round 1 of a run of three nodes with a database. *)
Lemma C1_round_calls_witness :
  let tr := calls (ScheduleAction world_ok false fleet 2) in
  let p := Z.of_nat 1 mod len fleet in
  omap (provide_call 1) tr = [p] /\
  omap (retrieve_call 1) tr ≡ₚ
    (fun i => (p + i + 1) mod len fleet) <$> seqZ 0 (len fleet - 1) /\
  NoDup (omap (retrieve_call 1) tr) /\
  (forall j, j ∈ omap (retrieve_call 1) tr <-> 0 <= j < len fleet /\ j <> p) /\
  length (omap (provide_record 1) tr) = 1%nat /\
  length (omap (retrieval_record 1) tr) = (length fleet - 1)%nat /\
  (false = false ->
   length (omap (stored_provide 1) tr) = 1%nat /\
   length (omap (stored_retrieval 1) tr) = (length fleet - 1)%nat).
Proof.
  apply (C1_round_calls world_ok false fleet 2 1); vm_compute;
    first [lia | discriminate].
Defined.

Lemma C2_provider_index_witness :
  provNode (ScheduleAction world_ok true fleet 4) =
    Z.of_nat (rounds (ScheduleAction world_ok true fleet 4)) mod len fleet.
Proof.
  apply (C2_provider_index world_ok true fleet 4); vm_compute; discriminate.
Defined.

(** The fifth call of a dry run of three nodes is a Retrieve of round 0. *)
Lemma C6_provide_before_retrieve_witness :
  exists j p n' content provide,
    (j < 4)%nat /\
    calls (ScheduleAction world_ok true fleet 1) !! j =
      Some (EvProvide 0 p n' content (Ok provide)).
Proof.
  apply (C6_provide_before_retrieve world_ok true fleet 1 4 0 2 12%nat "bafy"
           (Ok retrieved)).
  reflexivity.
Defined.

Lemma C7_dry_run_measurement_witness :
  measurement (ScheduleAction world_ok true fleet 3) =
    measurement (ScheduleAction world_ok false fleet 3).
Proof.
  apply (C7_dry_run_measurement world_ok fleet 3).
  - repeat split; try (by eexists); done.
  - vm_compute. discriminate.
Defined.

End Witnesses.
(* ===================================================================== *)
(** * The agent's Retrieve handler: further properties *)
(* ===================================================================== *)

Module ServerExtra.
Import Golang GolangFacts Server ServerInv ServerSpec.

Section Handler.
Variables RoutingIPNI RoutingDHT : string.
Variable env : Env.

Local Abbreviation retrieve := (Server.retrieve RoutingIPNI RoutingDHT env).
Local Abbreviation measured := (subMono (clock_end env) (clock_start env)).
Local Abbreviation switch := (switch_Routing RoutingIPNI RoutingDHT env).

Lemma parse_Some s rw r cid_param rr c :
  parse env r cid_param = Some (rr, c) ->
  retrieve s rw r cid_param =
    let '(s1, resp) :=
      switch rr r c (mkRetrievalResponse c 0 (RoutingTableSize (host s)) "") s
    in respond env resp s1 rw.
Proof.
  unfold parse. destruct (Body r) as [data|] eqn:Hb; [|done].
  destruct (json_Unmarshal env data) as [rr'|] eqn:Hu; [|done].
  destruct (cid_Decode env cid_param) as [c'|] eqn:Hc; [|done].
  intros [= -> ->]. by eapply retrieve_parsed.
Qed.

Lemma retrieve_rejected s rw r cid_param :
  parse env r cid_param = None -> status rw = None ->
  (retrieve s rw r cid_param).1 = s /\
  body (retrieve s rw r cid_param).2 = body rw /\
  status (retrieve s rw r cid_param).2 =
    Some (match Body r with
          | Err _ => StatusInternalServerError
          | Ok _ => StatusBadRequest
          end).
Proof.
  unfold parse, Server.retrieve. intros Hp Hst.
  destruct (Body r) as [data|]; [|by unfold WriteHeader; rewrite Hst].
  destruct (json_Unmarshal env data) as [rr|];
    [|by unfold WriteHeader; rewrite Hst].
  destruct (cid_Decode env cid_param) as [c|]; [done|].
  by unfold WriteHeader; rewrite Hst.
Qed.

(** X1: a request that cannot be read or decoded is turned away before
    anything is looked up: the server (host, histogram, calls) is as before,
    nothing is written to the body, and the status is 500 for an unreadable
    body and 400 for bad JSON or a bad content id. *)
Theorem X1_rejected_request_untouched s rw r cid_param :
  parse env r cid_param = None -> status rw = None ->
  (retrieve s rw r cid_param).1 = s /\
  body (retrieve s rw r cid_param).2 = body rw /\
  status (retrieve s rw r cid_param).2 =
    Some (match Body r with
          | Err _ => StatusInternalServerError
          | Ok _ => StatusBadRequest
          end).
Proof. apply retrieve_rejected. Qed.

(** X2: the handler answers 200 exactly when the request parses.  After the
    lookup nothing changes the status any more: when marshalling fails or the
    client is gone the handler writes to the body first, which fixes the
    status at 200, and its [WriteHeader(500)] comes too late. *)
Theorem X2_status_200_iff_parsed s rw r cid_param :
  status rw = None ->
  status (retrieve s rw r cid_param).2 = Some StatusOK <->
  parse env r cid_param <> None.
Proof.
  intros Hst. destruct (parse env r cid_param) as [[rr c]|] eqn:Hp.
  - split; [done|]. intros _. rewrite (parse_Some s rw r cid_param rr c Hp).
    destruct (switch _ _ _ _ _) as [s1 resp]. by apply respond_status.
  - destruct (retrieve_rejected s rw r cid_param Hp Hst)
      as (_ & _ & ->).
    split; [|done]. by destruct (Body r).
Qed.

Lemma respond_latencies resp s rw :
  latencies (respond env resp s rw).1 = latencies s.
Proof.
  unfold respond. destruct (json_Marshal env resp); [|done].
  by destruct (Write _ rw) as [? [?|]].
Qed.

Lemma switch_response rr r c resp0 s :
  let tag := if decide (Routing rr = RoutingIPNI)
             then RoutingIPNI else RoutingDHT in
  let out := switch rr r c resp0 s in
  CID out.2 = CID resp0 /\
  RoutingTableSize_ out.2 = RoutingTableSize_ resp0 /\
  Duration_ out.2 = measured /\
  latencies out.1 =
    latencies s ++
      [mkObservation "retrieval_ttfpr" tag (bool_decide (Error_ out.2 = ""))
         (SchedulerID r) (Duration_ out.2)].
Proof.
  unfold switch_Routing. case_decide; simpl.
  - unfold case_RoutingIPNI.
    by destruct (IndexerLookup env c (host s)) as [h res].
  - unfold case_default.
    destruct (FindProvidersAsync env c 1 (host s)) as [h ch].
    by destruct (errors_Is _ _).
Qed.

(** X3: a request that parses is measured exactly once, and the sample
    agrees with the response: one observation is added to the histogram,
    labelled with the tag of the strategy that ran and the scheduler id of
    the request, its success flag says whether the error field is empty and
    its value is the reported duration.  The response carries the decoded
    content id, the routing-table size read before the lookup and
    [time.Since(start)]; it is what goes to the client. *)
Theorem X3_one_sample_agrees_with_response s rw r cid_param rr c :
  parse env r cid_param = Some (rr, c) ->
  exists resp,
    CID resp = c /\
    RoutingTableSize_ resp = RoutingTableSize (host s) /\
    Duration_ resp = measured /\
    latencies (retrieve s rw r cid_param).1 =
      latencies s ++
        [mkObservation "retrieval_ttfpr"
           (if decide (Routing rr = RoutingIPNI) then RoutingIPNI
            else RoutingDHT)
           (bool_decide (Error_ resp = "")) (SchedulerID r) (Duration_ resp)]
    /\
    (forall js,
       json_Marshal env resp = Ok js ->
       status rw = None -> body rw = "" -> broken rw = false ->
       (retrieve s rw r cid_param).2 =
         mkResponseWriter (Some StatusOK) js false).
Proof.
  intros Hp. rewrite (parse_Some s rw r cid_param rr c Hp).
  pose proof (switch_response rr r c
                (mkRetrievalResponse c 0 (RoutingTableSize (host s)) "") s)
    as (H1 & H2 & H3 & H4).
  destruct (switch _ _ _ _ _) as [s1 resp]. simpl in *.
  exists resp. split; [done|]. split; [done|]. split; [done|]. split.
  - by rewrite respond_latencies.
  - intros js Hm Hst Hbd Hbr. by apply respond_body.
Qed.

Lemma respond_state resp s rw rw' :
  (respond env resp s rw).1 = (respond env resp s rw').1.
Proof.
  unfold respond. destruct (json_Marshal env resp); [|done].
  by destruct (Write _ rw) as [? [?|]], (Write _ rw') as [? [?|]].
Qed.

Lemma respond_post resp s rw :
  host (respond env resp s rw).1 = host s /\
  exists post,
    calls (respond env resp s rw).1 = calls s ++ post /\
    Forall (fun c => ~ is_lookup c /\ ~ is_cleanup c) post.
Proof.
  destruct (respond_calls env resp s rw) as (post & Hc & Hpost & Hh).
  split; [done|]. exists (CallMarshal :: post). split; [done|].
  constructor; [by split; intros []|].
  eapply Forall_impl; [done|]. intros c [data ->]. by split; intros [].
Qed.

(** X4: a request that parses makes exactly one routing call, the one of the
    selected strategy: the indexer lookup under the Indexer tag, otherwise
    the DHT query for a single provider.  It is the first call of the handler,
    and no other lookup follows it. *)
Theorem X4_one_lookup_per_request s rw r cid_param rr c :
  parse env r cid_param = Some (rr, c) ->
  exists post,
    calls (retrieve s rw r cid_param).1 =
      calls s ++
        (if decide (Routing rr = RoutingIPNI) then CallIndexerLookup c
         else CallFindProvidersAsync c 1) :: post /\
    Forall (fun c => ~ is_lookup c) post.
Proof.
  intros Hp. rewrite (parse_Some s rw r cid_param rr c Hp).
  unfold switch_Routing. case_decide.
  - unfold case_RoutingIPNI.
    destruct (IndexerLookup env c (host s)) as [h res]. simpl.
    match goal with |- context [respond env ?resp ?s1 rw] =>
      destruct (respond_post resp s1 rw) as (_ & post & -> & Hpost)
    end. simpl. exists post. split; [by rewrite <- app_assoc|].
    eapply Forall_impl; [done|]. by intros ? [? _].
  - unfold case_default.
    destruct (FindProvidersAsync env c 1 (host s)) as [h ch].
    destruct (errors_Is _ _); simpl;
      match goal with |- context [respond env ?resp ?s1 rw] =>
        destruct (respond_post resp s1 rw) as (_ & post & -> & Hpost)
      end; simpl.
    + exists post. split; [by rewrite <- app_assoc|].
      eapply Forall_impl; [done|]. by intros ? [? _].
    + eexists ([CallClosePeer _; CallRemovePeer _; CallClearAddrs _] ++ post).
      split; [by rewrite <- !app_assoc|].
      apply Forall_app. split; [by repeat constructor; intros []|].
      eapply Forall_impl; [done|]. by intros ? [? _].
Qed.

(** X5: the handler forgets no peer but a provider the DHT found.  Under the
    Indexer tag, when the DHT found nothing, and for every peer other than
    the one found, the host keeps what the lookup left: the same connection,
    peerstore entry and addresses, and no [ClosePeer], [RemovePeer] or
    [ClearAddrs] is called on that peer.  The routing-table size is never
    touched. *)
Theorem X5_forgets_only_the_found_provider s rw r cid_param rr c id :
  parse env r cid_param = Some (rr, c) ->
  Routing rr = RoutingIPNI \/
  ID (recv (FindProvidersAsync env c 1 (host s)).2) = "" \/
  id <> ID (recv (FindProvidersAsync env c 1 (host s)).2) ->
  let h := if decide (Routing rr = RoutingIPNI)
           then (IndexerLookup env c (host s)).1
           else (FindProvidersAsync env c 1 (host s)).1 in
  let s' := (retrieve s rw r cid_param).1 in
  RoutingTableSize (host s') = RoutingTableSize h /\
  (id ∈ conns (host s') <-> id ∈ conns h) /\
  (id ∈ peers (host s') <-> id ∈ peers h) /\
  addrs (host s') !! id = addrs h !! id /\
  exists new,
    calls s' = calls s ++ new /\
    (CallClosePeer id ∉ new) /\ (CallRemovePeer id ∉ new) /\
    (CallClearAddrs id ∉ new).
Proof.
  intros Hp Hid. rewrite (parse_Some s rw r cid_param rr c Hp).
  unfold switch_Routing. case_decide as Hr.
  - unfold case_RoutingIPNI.
    destruct (IndexerLookup env c (host s)) as [h res]. simpl.
    match goal with |- context [respond env ?resp ?s1 rw] =>
      destruct (respond_post resp s1 rw) as (-> & post & -> & Hpost)
    end. simpl. repeat split; try done.
    eexists (_ :: post). split; [by rewrite <- app_assoc|].
    rewrite Forall_forall in Hpost.
    repeat split; intros [?|Hin]%elem_of_cons; try done;
      by destruct (Hpost _ Hin) as [_ []].
  - destruct Hid as [?|Hid]; [done|]. unfold case_default.
    destruct (FindProvidersAsync env c 1 (host s)) as [h ch]. simpl in *.
    destruct (errors_Is (Validate (ID (recv ch))) ErrEmptyPeerID) eqn:E;
      simpl;
      match goal with |- context [respond env ?resp ?s1 rw] =>
        destruct (respond_post resp s1 rw) as (-> & post & -> & Hpost)
      end; simpl; rewrite Forall_forall in Hpost.
    + repeat split; try done.
      eexists (_ :: post). split; [by rewrite <- app_assoc|].
      repeat split; intros [?|Hin]%elem_of_cons; try done;
        by destruct (Hpost _ Hin) as [_ []].
    + assert (Hne : id <> ID (recv ch)).
      { destruct Hid as [Hid|Hid]; [|done].
        apply not_found_iff_empty in Hid. congruence. }
      split; [done|].
      split; [rewrite elem_of_difference, elem_of_singleton;
              split; [by intros [? _]|by intros ?; split]|].
      split; [rewrite elem_of_difference, elem_of_singleton;
              split; [by intros [? _]|by intros ?; split]|].
      split; [by rewrite lookup_delete_ne|].
      eexists ([_; _; _; _] ++ post). split; [by rewrite <- !app_assoc|].
      repeat split; rewrite elem_of_app, !elem_of_cons, elem_of_nil;
        intros [[?|[?|[?|[?|[]]]]]|Hin]; simplify_eq;
        by destruct (Hpost _ Hin) as [_ []].
Qed.

(** X6: what the handler does to the agent does not depend on the client:
    whether the response can be written or not, the lookup is made, the
    sample is recorded and a found provider is forgotten. *)
Theorem X6_state_independent_of_client s rw rw' r cid_param :
  (retrieve s rw r cid_param).1 = (retrieve s rw' r cid_param).1.
Proof.
  unfold Server.retrieve. destruct (Body r) as [data|]; [|done].
  destruct (json_Unmarshal env data) as [rr|]; [|done].
  destruct (cid_Decode env cid_param) as [c|]; [|done].
  destruct (switch_Routing _ _ _ _ _ _ _ _) as [s1 resp].
  apply respond_state.
Qed.

End Handler.
End ServerExtra.
(* ===================================================================== *)
(** * The proxy and the agent together *)
(* ===================================================================== *)

Module ClientExtra.
Import Golang Server ServerInv ServerSpec ServerExtra.

Section Together.
Variables RoutingIPNI RoutingDHT : string.
Variable cenv : Client.Env.
Variable senv : Server.Env.
Variable c : Client.Client.
Variable content : string.
Variable s : Server.
Variable rw0 : ResponseWriter.

Local Abbreviation handler := (Server.retrieve RoutingIPNI RoutingDHT senv).

(** The agent answers every request with what its handler writes for the
    content id of the URL. *)
Hypothesis transport :
  forall req,
    Client.Do cenv req =
      Ok (Client.outgoing
            (handler s rw0 (Client.incoming cenv req) content).2).
Hypothesis url_ok : Client.url_Parse cenv (Client.endpoint c content) = None.
Hypothesis keys_differ :
  Client.canonical cenv "Content-Type" <>
  Client.canonical cenv Client.headerSchedulerID.

Lemma sent_scheduler_id :
  Client.Header_Get cenv Client.headerSchedulerID
    (Client.Header_Add cenv Client.headerSchedulerID (Client.schedulerID c)
       (Client.Header_Add cenv "Content-Type" "application/json" []))
  = Client.schedulerID c.
Proof using keys_differ.
  unfold Client.Header_Get, Client.Header_Add. cbn [app].
  rewrite !filter_cons. simpl.
  rewrite decide_False by congruence. by rewrite decide_True.
Qed.

Lemma Retrieve_sent data :
  Client.json_Marshal cenv (mkRetrieveRequest (Client.routing c)) = Ok data ->
  Client.Retrieve cenv c content =
    match Client.json_Unmarshal cenv
            (body (handler s rw0
                     (mkRequest (Ok data) (Client.schedulerID c)) content).2)
    with
    | Err err => Err (Errorf_w "unmarshal retrieval response" err)
    | Ok retrieval => Ok retrieval
    end.
Proof using transport url_ok keys_differ.
  intros Hm. unfold Client.Retrieve, Client.NewRequest.
  rewrite Hm, url_ok, transport. simpl.
  unfold Client.incoming. simpl. by rewrite sent_scheduler_id.
Qed.



End Together.
End ClientExtra.
(* ===================================================================== *)
(** * The coordinator: failures of the goroutines of a round *)
(* ===================================================================== *)

Module RetrieveMore.
Import Golang GolangFacts errgroup errgroupFacts Scheduler SchedulerInv.
Import FailureInv RetrieveFacts IndexFacts LoopFacts.

Lemma index_is_Some {A} (l : list A) (i : Z) :
  0 <= i < len l -> is_Some (index l i).
Proof.
  intros Hi. unfold index, len in *.
  destruct (0 <=? i) eqn:E; [|apply Z.leb_gt in E; lia].
  apply lookup_lt_is_Some. lia.
Qed.

Lemma errOnce_inv old new e :
  errOnce old new = Some e -> old = Some e \/ (old = None /\ new = Some e).
Proof. destruct old; simpl; [left|right]; by simplify_eq. Qed.

Ltac split_facts :=
  refine (conj _ (conj _ (conj _ (conj _ (conj _ (conj _ (conj _
    (conj _ _)))))))).

Section Round.
Variable w : World.
Variable dbc : option DBClient.
Variable nodes : list Node.
Variable r : nat.
Variable content : Content.

Local Abbreviation task := (retrieve_task w dbc nodes r content).

Lemma retr_facts_step rns tr0 dbN i g new :
  retr_facts nodes r content rns tr0 dbN g new ->
  exists new', retr_facts nodes r content rns tr0 dbN (step_at task i g) new'.
Proof.
  intros (Htr & Hdb & Hev & Hcalls & Hok & Herr & Htask & Hins & Hretr).
  unfold step_at. destruct (panicked g) eqn:Ep; [by exists new|].
  destruct (tasks g !! i) as [[t|]|] eqn:Ei; [|by exists new..].
  pose proof (lookup_lt_Some _ _ _ Ei) as Hi.
  destruct t as [rn|dbNode x]; simpl.
  - destruct (index nodes rn) as [node|] eqn:Hnode; [|by exists new].
    destruct (index (dbNodes (shared g)) rn) as [dbNode|] eqn:HdbNode;
      [|by exists new].
    rewrite Hdb in HdbNode.
    set (res := Retrieve w r node (CID content) (cancelled g)).
    set (ev := EvRetrieve r rn node (CID content) res).
    exists (new ++ [ev]).
    assert (Hcall : omap (retrieve_call r) (new ++ [ev])
                    = omap (retrieve_call r) new ++ [rn]).
    { rewrite omap_snoc. simpl. by rewrite decide_True. }
    assert (Hpend : forall slot, pending_call slot = None ->
              omap (retrieve_call r) (new ++ [ev])
                ++ omap pending_call (<[i:=slot]> (tasks g)) ≡ₚ rns).
    { intros slot Hslot. rewrite Hcall, <- Hcalls.
      pose proof (omap_insert_perm pending_call (tasks g) i _ slot Ei) as Hp.
      rewrite Hslot, app_nil_r in Hp. simpl in Hp.
      rewrite <- Hp. rewrite <- !app_assoc. apply Permutation_app_head.
      apply Permutation_app_comm. }
    assert (Hold_ins : forall id x res',
              EvInsertRetrieval r id x res' ∈ new ++ [ev] ->
              exists rn n d,
                EvRetrieve r rn n (CID content) (Ok x) ∈ new ++ [ev] /\
                index nodes rn = Some n /\ index dbN rn = Some (Some d) /\
                models.ID d = id).
    { intros id x res' [Hin|Hin]%elem_of_app;
        [|by apply list_elem_of_singleton in Hin].
      destruct (Hins _ _ _ Hin) as (rn' & n' & d & H1 & H2 & H3 & H4).
      exists rn', n', d. rewrite elem_of_app. eauto. }
    assert (Hold_retr : forall rn' n cid res',
              EvRetrieve r rn' n cid res' ∈ new ++ [ev] ->
              index nodes rn' = Some n /\ cid = CID content).
    { intros rn' n cid res' [Hin|Hin]%elem_of_app; [by eapply Hretr|].
      apply list_elem_of_singleton in Hin. unfold ev in Hin.
      by simplify_eq. }
    assert (Hold_task : forall slot,
              ~ inserting slot ->
              forall dbNode' x j,
                <[i:=slot]> (tasks g) !! j
                  = Some (Some (TInsertRetrieval dbNode' x)) ->
                exists rn n,
                  EvRetrieve r rn n (CID content) (Ok x) ∈ new ++ [ev] /\
                  index nodes rn = Some n /\ index dbN rn = Some dbNode').
    { intros slot Hslot dbNode' x j Hj.
      destruct (decide (j = i)) as [->|Hne].
      - rewrite list_lookup_insert_eq in Hj by done. simplify_eq.
        by destruct Hslot.
      - rewrite list_lookup_insert_ne in Hj by done.
        destruct (Htask _ _ _ Hj) as (rn' & n' & H1 & H2 & H3).
        exists rn', n'. rewrite elem_of_app. eauto. }
    assert (Hevs : Forall (is_retr_event r) (new ++ [ev])).
    { apply Forall_app. split; [done|]. by repeat constructor. }
    destruct res as [x|e] eqn:Eres; [destruct dbc as [d|] eqn:Edbc|]; simpl.
    + split_facts; simpl; try done.
      * by rewrite Htr, app_assoc.
      * by apply Hpend.
      * intros He. apply Forall_app. split; [by apply Hok|].
        by repeat constructor.
      * intros e He. destruct (Herr e He) as (ev' & Hin & Hf).
        exists ev'. rewrite elem_of_app. eauto.
      * intros dbNode' x' j Hj. destruct (decide (j = i)) as [->|Hne].
        -- rewrite list_lookup_insert_eq in Hj by done. simplify_eq.
           exists rn, node. rewrite elem_of_app, list_elem_of_singleton.
           eauto.
        -- rewrite list_lookup_insert_ne in Hj by done.
           destruct (Htask _ _ _ Hj) as (rn' & n' & H1 & H2 & H3).
           exists rn', n'. rewrite elem_of_app. eauto.
    + split_facts; simpl; try done.
      * by rewrite Htr, app_assoc.
      * by apply Hpend.
      * intros He. destruct (err g); [done|].
        apply Forall_app. split; [by apply Hok|]. by repeat constructor.
      * intros e He. destruct (err g) as [e0|] eqn:E0; [|done].
        destruct (Herr e0 eq_refl) as (ev' & Hin & Hf). simpl in He.
        simplify_eq. exists ev'. rewrite elem_of_app. eauto.
      * apply Hold_task. by intros [].
    + split_facts; simpl; try done.
      * by rewrite Htr, app_assoc.
      * by apply Hpend.
      * intros He. by destruct (err g).
      * intros e' He. apply errOnce_inv in He as [He|[He Hnew]].
        -- destruct (Herr e' He) as (ev' & Hin & Hf).
           exists ev'. rewrite elem_of_app. eauto.
        -- exists ev. rewrite elem_of_app, list_elem_of_singleton.
           split; [by right|]. unfold ev. simpl. congruence.
      * apply Hold_task. by intros [].
  - destruct dbNode as [dbNode|]; [|by exists new].
    set (res := InsertRetrieval w r (models.ID dbNode) x (cancelled g)).
    set (ev := EvInsertRetrieval r (models.ID dbNode) x res).
    exists (new ++ [ev]).
    assert (Hcall : omap (retrieve_call r) (new ++ [ev])
                    = omap (retrieve_call r) new).
    { rewrite omap_snoc. simpl. by rewrite app_nil_r. }
    assert (Hpend : omap (retrieve_call r) (new ++ [ev])
                      ++ omap pending_call (<[i:=None]> (tasks g)) ≡ₚ rns).
    { rewrite Hcall, <- Hcalls. apply Permutation_app_head.
      by apply (omap_insert_None pending_call _ _ _ _ Ei). }
    assert (Hevs : Forall (is_retr_event r) (new ++ [ev])).
    { apply Forall_app. split; [done|]. by repeat constructor. }
    assert (Hnew_ins : forall id x' res',
              EvInsertRetrieval r id x' res' ∈ new ++ [ev] ->
              exists rn n d,
                EvRetrieve r rn n (CID content) (Ok x') ∈ new ++ [ev] /\
                index nodes rn = Some n /\ index dbN rn = Some (Some d) /\
                models.ID d = id).
    { intros id x' res' [Hin|Hin]%elem_of_app.
      - destruct (Hins _ _ _ Hin) as (rn' & n' & d & H1 & H2 & H3 & H4).
        exists rn', n', d. rewrite elem_of_app. eauto.
      - apply list_elem_of_singleton in Hin. unfold ev in Hin. simplify_eq.
        destruct (Htask _ _ _ Ei) as (rn' & n' & H1 & H2 & H3).
        exists rn', n', dbNode. rewrite elem_of_app. eauto. }
    assert (Hnew_retr : forall rn' n cid res',
              EvRetrieve r rn' n cid res' ∈ new ++ [ev] ->
              index nodes rn' = Some n /\ cid = CID content).
    { intros rn' n cid res' [Hin|Hin]%elem_of_app; [by eapply Hretr|].
      by apply list_elem_of_singleton in Hin. }
    assert (Hnew_task : forall dbNode' x' j,
              <[i:=None]> (tasks g) !! j
                = Some (Some (TInsertRetrieval dbNode' x')) ->
              exists rn n,
                EvRetrieve r rn n (CID content) (Ok x') ∈ new ++ [ev] /\
                index nodes rn = Some n /\ index dbN rn = Some dbNode').
    { intros dbNode' x' j Hj. destruct (decide (j = i)) as [->|Hne].
      - by rewrite list_lookup_insert_eq in Hj by done.
      - rewrite list_lookup_insert_ne in Hj by done.
        destruct (Htask _ _ _ Hj) as (rn' & n' & H1 & H2 & H3).
        exists rn', n'. rewrite elem_of_app. eauto. }
    destruct res as [e|] eqn:Eres; simpl.
    + split_facts; simpl; try done.
      * by rewrite Htr, app_assoc.
      * intros He. by destruct (err g).
      * intros e' He. apply errOnce_inv in He as [He|[He Hnew]].
        -- destruct (Herr e' He) as (ev' & Hin & Hf).
           exists ev'. rewrite elem_of_app. eauto.
        -- exists ev. rewrite elem_of_app, list_elem_of_singleton.
           split; [by right|]. unfold ev. simpl. congruence.
    + split_facts; simpl; try done.
      * by rewrite Htr, app_assoc.
      * intros He. destruct (err g); [done|].
        apply Forall_app. split; [by apply Hok|]. by repeat constructor.
      * intros e He. destruct (err g) as [e0|] eqn:E0; [|done].
        destruct (Herr e0 eq_refl) as (ev' & Hin & Hf). simpl in He.
        simplify_eq. exists ev'. rewrite elem_of_app. eauto.
Qed.

Lemma retr_safe_step dbN i g :
  rows_ok dbc nodes dbN ->
  retr_safe nodes dbN g -> retr_safe nodes dbN (step_at task i g).
Proof.
  intros [Hlen Hrows] (Hp & Hdb & Hslots). unfold step_at. rewrite Hp.
  destruct (tasks g !! i) as [[t|]|] eqn:Ei; [|done..].
  rewrite Forall_lookup in Hslots. pose proof (Hslots _ _ Ei) as Hsafe.
  assert (Hkeep : forall slot, slot_safe nodes slot ->
            Forall (slot_safe nodes) (<[i:=slot]> (tasks g))).
  { intros slot Hslot. apply Forall_insert; [|done].
    by apply Forall_lookup. }
  destruct t as [rn|dbNode x]; simpl in *.
  - destruct (index_is_Some nodes rn Hsafe) as [node ->].
    assert (Hin : is_Some (index (dbNodes (shared g)) rn)).
    { apply index_is_Some. rewrite Hdb. unfold len in *. by rewrite Hlen. }
    destruct Hin as [dbNode HdbNode]. rewrite HdbNode.
    destruct (Retrieve w r node (CID content) (cancelled g)) as [x|e];
      [destruct dbc as [d|] eqn:Edbc|]; simpl; unfold retr_safe; simpl;
      (split; [done|]); (split; [done|]); apply Hkeep; simpl; try done.
    destruct Hrows as [?|[ds Hds]]; [done|].
    rewrite Hdb, Hds in HdbNode.
    unfold index in HdbNode. destruct (0 <=? rn); [|done].
    rewrite list_lookup_fmap in HdbNode.
    destruct (ds !! Z.to_nat rn); simpl in HdbNode; by simplify_eq.
  - destruct dbNode as [dbNode|]; [|done].
    destruct (InsertRetrieval w r (models.ID dbNode) x (cancelled g));
      simpl; unfold retr_safe; simpl;
      (split; [done|]); (split; [done|]); by apply Hkeep.
Qed.

(** The goroutines of a round, from [errgroup.WithContext] to the return of
    [errg.Wait]: what is known of them in every case. *)
Lemma retrieve_phase_facts p s :
  let g := Wait task (sched_round w r) 2
             (spawn_retrieve nodes p (WithContext s)) in
  exists retr rest,
    retr_facts nodes r content (retrNodes nodes p) (trace s) (dbNodes s)
      g retr /\
    omap (retrieve_call r) retr ++ rest ≡ₚ retrNodes nodes p /\
    (panicked g = None -> rest = []).
Proof.
  intros g. subst g. rewrite spawn_retrieve_tasks.
  set (g0 := mkGroup _ None None s).
  assert (Hinit : retr_facts nodes r content (retrNodes nodes p) (trace s)
                    (dbNodes s) g0 []).
  { split_facts; simpl; try done.
    - by rewrite app_nil_r.
    - by rewrite pending_spawned.
    - intros dbNode x i Hi. rewrite !list_lookup_fmap in Hi.
      destruct (retrNodes nodes p !! i); by simplify_eq.
    - by intros ? ? ? ?%elem_of_nil.
    - by intros ? ? ? ? ?%elem_of_nil. }
  destruct (Wait_invariant task
              (fun g => exists new,
                 retr_facts nodes r content (retrNodes nodes p) (trace s)
                   (dbNodes s) g new)
              (fun i g '(ex_intro _ new H) =>
                 retr_facts_step (retrNodes nodes p) (trace s) (dbNodes s)
                   i g new H)
              (sched_round w r) 2 g0 (ex_intro _ [] Hinit))
    as (retr & Hfacts).
  exists retr. eexists. split; [done|].
  split; [apply Hfacts|]. intros Hp.
  pose proof (Wait_all_returned task retr_rank
                (retr_rank_decreases w dbc nodes r content) 2
                retr_rank_bound (sched_round w r) g0 Hp) as Hall.
  rewrite Hall. apply pending_returned.
Qed.

Lemma retrieve_phase_safe p s :
  rows_ok dbc nodes (dbNodes s) ->
  0 <= p < len nodes -> len nodes <= maxFleet ->
  panicked (Wait task (sched_round w r) 2
              (spawn_retrieve nodes p (WithContext s))) = None.
Proof.
  intros Hrows Hp Hn. rewrite spawn_retrieve_tasks.
  set (g0 := mkGroup _ None None s).
  apply (Wait_invariant task (retr_safe nodes (dbNodes s))
           (fun i g => retr_safe_step (dbNodes s) i g Hrows)).
  unfold retr_safe. simpl. split; [done|]. split; [done|].
  apply Forall_fmap, Forall_fmap, Forall_forall. intros rn Hrn. simpl.
  by apply (retrNodes_elem nodes p rn Hp Hn) in Hrn as [? _].
Qed.

End Round.
End RetrieveMore.

(* ===================================================================== *)
(** * The coordinator: the rounds of a run, case by case *)
(* ===================================================================== *)

Module RoundCases.
Import Golang GolangFacts errgroup errgroupFacts Scheduler SchedulerInv.
Import FailureInv RetrieveFacts IndexFacts LoopFacts RetrieveMore.

Section Rounds.
Variable w : World.
Variable nodes : list Node.

Lemma round_body_case dbc r p s :
  round_case w dbc nodes r p s (round_body w dbc nodes r p s).
Proof.
  unfold round_body.
  destruct (Context_Err w r) as [e|] eqn:Hctx; [by constructor|].
  destruct (NewRandomContent w r) as [content|e] eqn:Hcontent;
    [|by constructor].
  destruct (index nodes p) as [node|] eqn:Hnode; [|by econstructor].
  destruct (Provide w r node content) as [pr|e] eqn:Hprov; cycle 1.
  { pose proof (case_provide_failed w dbc nodes r p s content node e
                  Hctx Hcontent Hnode Hprov) as H.
    simpl. by destruct (index (dbNodes s) p) as [[?|]|]. }
  assert (Hphase : forall ins,
    (dbc = None /\ ins = [] \/
     dbc <> None /\
     exists d, index (dbNodes s) p = Some (Some d) /\
               InsertProvide w r (models.ID d) pr = None /\
               ins = [EvInsertProvide r (models.ID d) pr None]) ->
    forall s2,
      s2 = mkShared (trace s ++ EvProvide r p node content (Ok pr) :: ins)
             (dbNodes s) ->
      let errg := Wait (retrieve_task w dbc nodes r content) (sched_round w r)
                    2 (spawn_retrieve nodes p (WithContext s2)) in
      round_case w dbc nodes r p s
        match panicked errg, err errg with
        | Some why, _ => (shared errg, Exited (Panicked why))
        | None, Some err =>
            (shared errg,
             Exited (Returned (Errorf_w "waitgroup retrieve" err)))
        | None, None =>
            (shared errg, Completed (int_rem (int_add p 1) (len nodes)))
        end).
  { intros ins Hins s2 -> errg.
    destruct (panicked errg) eqn:Ep; [|destruct (err errg) eqn:Ee];
      (eapply (case_retrievals w dbc nodes r p s content node pr ins errg);
       [done|done|done|done|done|done|by rewrite Ep, ?Ee]). }
  destruct dbc as [d|] eqn:Hdbc.
  - simpl. destruct (index (dbNodes s) p) as [[dbNode|]|] eqn:Hdb.
    + destruct (InsertProvide w r (models.ID dbNode) pr) as [e|] eqn:Hins.
      * pose proof (case_insert_failed w (Some d) nodes r p s content node pr
                      dbNode e Hctx Hcontent Hnode Hprov ltac:(done) Hdb Hins)
          as H.
        unfold emit. simpl. by rewrite <- app_assoc.
      * apply (Hphase [EvInsertProvide r (models.ID dbNode) pr None]).
        -- right. split; [done|]. eauto.
        -- unfold emit. simpl. by rewrite <- app_assoc.
    + pose proof (case_no_row w (Some d) nodes r p s content node pr
                    Hctx Hcontent Hnode Hprov ltac:(done)) as H.
      rewrite Hdb in H. apply H. by intros ?.
    + pose proof (case_no_row w (Some d) nodes r p s content node pr
                    Hctx Hcontent Hnode Hprov ltac:(done)) as H.
      rewrite Hdb in H. apply H. by intros ?.
  - apply (Hphase []); [by left|done].
Qed.

End Rounds.
End RoundCases.

(* ===================================================================== *)
(** * The coordinator: the barrier and the start-up, in every case *)
(* ===================================================================== *)

Module StartupCases.
Import Golang GolangFacts errgroup errgroupFacts Scheduler SchedulerInv.
Import FailureInv RetrieveFacts IndexFacts LoopFacts RetrieveMore.

Ltac split_ready :=
  refine (conj _ (conj _ (conj _ (conj _ (conj _ (conj _ (conj _
    (conj _ (conj _ (conj _ _)))))))))).

Lemma pending_wait_spawned (off : nat -> nat) (l : list Node) :
  omap pending_wait (Some <$> imap (fun i n => TWaitForAPI (off i) n) l) = l.
Proof.
  revert off. induction l as [|x l IH]; intros off; [done|].
  csimpl. f_equal. apply (IH (off ∘ S)).
Qed.

Section Barrier.
Variable w : World.
Variable nodes : list Node.
Variable dbc : option DBClient.
Variable dbRun : option models.Run.
Hypothesis run_known : dbc = None \/ dbRun <> None.

Local Abbreviation task := (ready_task w dbc dbRun).

Lemma ready_facts_step tr0 i g new :
  ready_facts nodes dbc tr0 g new ->
  exists new', ready_facts nodes dbc tr0 (step_at task i g) new'.
Proof using run_known.
  intros (Htr & Hev & Hp & Hlen & Hwaits & Hok & Herr & Htag & Hdry & Hattr
          & Hrows).
  unfold step_at. rewrite Hp.
  destruct (tasks g !! i) as [[t|]|] eqn:Ei; [|by exists new..].
  pose proof (lookup_lt_Some _ _ _ Ei) as Hi.
  pose proof (Htag _ _ Ei) as Hti.
  assert (Htag' : forall slot,
            match slot with
            | Some (TWaitForAPI i2 n2) | Some (TInsertNode i2 n2 _) =>
                i2 = i /\ nodes !! i = Some n2
            | None => True
            end ->
            forall j t',
              <[i:=slot]> (tasks g) !! j = Some (Some t') ->
              match t' with
              | TWaitForAPI i2 n2 | TInsertNode i2 n2 _ =>
                  i2 = j /\ nodes !! j = Some n2
              end).
  { intros slot Hslot j t' Hj. destruct (decide (j = i)) as [->|Hne].
    - rewrite list_lookup_insert_eq in Hj by done. by simplify_eq.
    - rewrite list_lookup_insert_ne in Hj by done. by apply Htag. }
  destruct t as [i2 n2|i2 n2 info]; simpl in *.
  - destruct Hti as [-> Hn2].
    set (res := WaitForAPI w n2 (cancelled g)).
    set (ev := EvWaitForAPI n2 res).
    exists (new ++ [ev]).
    assert (Hevs : Forall is_ready_event (new ++ [ev])).
    { apply Forall_app. split; [done|]. by repeat constructor. }
    assert (Hpend : forall slot, pending_wait slot = None ->
              omap wait_call (new ++ [ev])
                ++ omap pending_wait (<[i:=slot]> (tasks g)) ≡ₚ nodes).
    { intros slot Hslot. rewrite omap_snoc. simpl. rewrite <- Hwaits.
      pose proof (omap_insert_perm pending_wait (tasks g) i _ slot Ei) as Hq.
      rewrite Hslot, app_nil_r in Hq. simpl in Hq.
      rewrite <- Hq. rewrite <- !app_assoc. apply Permutation_app_head.
      apply Permutation_app_comm. }
    assert (Hattr' : forall j d,
              dbNodes (shared g) !! j = Some (Some d) ->
              exists n runID,
                nodes !! j = Some n /\
                EvInsertNode runID n (Ok d) ∈ new ++ [ev]).
    { intros j d Hj. destruct (Hattr _ _ Hj) as (n & runID & H1 & H2).
      exists n, runID. rewrite elem_of_app. eauto. }
    clearbody res.
    destruct res as [info|e]; [destruct dbc as [d|] eqn:Edbc|]; simpl.
    + split_ready; simpl; try done.
      * by rewrite Htr, app_assoc.
      * by apply Hpend.
      * intros He. apply Forall_app. split; [by apply Hok|].
        by repeat constructor.
      * intros e He. destruct (Herr e He) as (ev' & Hin & Hf).
        exists ev'. rewrite elem_of_app. eauto.
      * by apply Htag'.
      * intros _ He j Hj. destruct (decide (j = i)) as [->|Hne].
        -- by rewrite list_lookup_insert_eq in Hj by done.
        -- rewrite list_lookup_insert_ne in Hj by done. by apply Hrows.
    + split_ready; simpl; try done.
      * by rewrite Htr, app_assoc.
      * by apply Hpend.
      * intros He. destruct (err g); [done|].
        apply Forall_app. split; [by apply Hok|]. by repeat constructor.
      * intros e He. destruct (err g) as [e0|] eqn:E0; [|done].
        destruct (Herr e0 eq_refl) as (ev' & Hin & Hf). simpl in He.
        simplify_eq. exists ev'. rewrite elem_of_app. eauto.
      * by apply Htag'.
      * intros _. apply Forall_insert; [by apply Hdry|]. by intros [].
    + split_ready; simpl; try done.
      * by rewrite Htr, app_assoc.
      * by apply Hpend.
      * intros He. by destruct (err g).
      * intros e' He. apply errOnce_inv in He as [He|[He Hnew]].
        -- destruct (Herr e' He) as (ev' & Hin & Hf).
           exists ev'. rewrite elem_of_app. eauto.
        -- exists ev. rewrite elem_of_app, list_elem_of_singleton.
           split; [by right|]. unfold ev. simpl. congruence.
      * by apply Htag'.
      * intros Hd. apply Forall_insert; [by apply Hdry|]. by intros [].
      * intros Hd He. by destruct (err g).
  - destruct Hti as [-> Hn2].
    assert (Hnodry : dbc <> None).
    { intros Hd. specialize (Hdry Hd). rewrite Forall_lookup in Hdry.
      by apply (Hdry _ _ Ei). }
    destruct dbRun as [run|]; [|by destruct run_known].
    set (res := InsertNode w (models.RunID run) n2 info (cancelled g)).
    set (ev := EvInsertNode (models.RunID run) n2 res).
    exists (new ++ [ev]).
    assert (Hevs : Forall is_ready_event (new ++ [ev])).
    { apply Forall_app. split; [done|]. by repeat constructor. }
    assert (Hpend : omap wait_call (new ++ [ev])
                      ++ omap pending_wait (<[i:=None]> (tasks g)) ≡ₚ nodes).
    { rewrite omap_snoc. simpl. rewrite app_nil_r, <- Hwaits.
      apply Permutation_app_head.
      by apply (omap_insert_None pending_wait _ _ _ _ Ei). }
    assert (Hi' : (i < length (dbNodes (shared g)))%nat).
    { rewrite Hlen. by eapply lookup_lt_Some. }
    clearbody res.
    destruct res as [d|e]; simpl.
    + split_ready; simpl; try done.
      * by rewrite Htr, app_assoc.
      * by rewrite length_insert.
      * intros He. destruct (err g); [done|].
        apply Forall_app. split; [by apply Hok|]. by repeat constructor.
      * intros e He. destruct (err g) as [e0|] eqn:E0; [|done].
        destruct (Herr e0 eq_refl) as (ev' & Hin & Hf). simpl in He.
        simplify_eq. exists ev'. rewrite elem_of_app. eauto.
      * by apply Htag'.
      * intros j d' Hj. destruct (decide (j = i)) as [->|Hne].
        -- rewrite list_lookup_insert_eq in Hj by done. simplify_eq.
           exists n2, (models.RunID run).
           rewrite elem_of_app, list_elem_of_singleton. eauto.
        -- rewrite list_lookup_insert_ne in Hj by done.
           destruct (Hattr _ _ Hj) as (n & runID & H1 & H2).
           exists n, runID. rewrite elem_of_app. eauto.
      * intros _ He j Hj. destruct (err g); [done|].
        destruct (decide (j = i)) as [->|Hne].
        -- exists d. by apply list_lookup_insert_eq.
        -- rewrite list_lookup_insert_ne in Hj by done.
           rewrite list_lookup_insert_ne by done. by apply Hrows.
    + split_ready; simpl; try done.
      * by rewrite Htr, app_assoc.
      * intros He. by destruct (err g).
      * intros e' He. apply errOnce_inv in He as [He|[He Hnew]].
        -- destruct (Herr e' He) as (ev' & Hin & Hf).
           exists ev'. rewrite elem_of_app. eauto.
        -- exists ev. rewrite elem_of_app, list_elem_of_singleton.
           split; [by right|]. unfold ev. simpl. congruence.
      * by apply Htag'.
      * intros j d' Hj. destruct (Hattr _ _ Hj) as (n & runID & H1 & H2).
        exists n, runID. rewrite elem_of_app. eauto.
      * intros Hd He. by destruct (err g).
Qed.

Lemma ready_faithful_step i g :
  Forall (faithful w) (trace (shared g)) /\
  (dbc = None ->
   Forall (fun row => row = None) (dbNodes (shared g)) /\
   Forall (fun slot => ~ inserting_node slot) (tasks g)) ->
  Forall (faithful w) (trace (shared (step_at task i g))) /\
  (dbc = None ->
   Forall (fun row => row = None) (dbNodes (shared (step_at task i g))) /\
   Forall (fun slot => ~ inserting_node slot) (tasks (step_at task i g))).
Proof using run_known.
  intros [Hf Hdry]. unfold step_at.
  destruct (panicked g); [done|].
  destruct (tasks g !! i) as [[t|]|] eqn:Ei; [|done..].
  destruct t as [i2 n2|i2 n2 info]; simpl.
  - assert (Hf' : Forall (faithful w)
                    (trace (shared g)
                       ++ [EvWaitForAPI n2 (WaitForAPI w n2 (cancelled g))])).
    { apply Forall_app. split; [done|]. repeat constructor. simpl. eauto. }
    destruct (WaitForAPI w n2 (cancelled g)) as [info|e];
      [destruct dbc as [d|]|]; simpl; (split; [done|]); try done.
    + intros Hd. destruct (Hdry Hd) as [H1 H2]. split; [done|].
      apply Forall_insert; [done|]. by intros [].
    + intros Hd. destruct (Hdry Hd) as [H1 H2]. split; [done|].
      apply Forall_insert; [done|]. by intros [].
  - assert (Hnodry : dbc <> None).
    { intros Hd. destruct (Hdry Hd) as [_ H2]. rewrite Forall_lookup in H2.
      by apply (H2 _ _ Ei). }
    destruct dbRun as [run|]; simpl; [|done].
    assert (Hf' : Forall (faithful w)
                    (trace (shared g)
                       ++ [EvInsertNode (models.RunID run) n2
                             (InsertNode w (models.RunID run) n2 info
                                (cancelled g))])).
    { apply Forall_app. split; [done|]. repeat constructor. simpl. eauto. }
    destruct (InsertNode w (models.RunID run) n2 info (cancelled g));
      simpl; by split.
Qed.

Lemma rows_all_there {A} (l : list (option A)) :
  (forall i, (i < length l)%nat -> exists d, l !! i = Some (Some d)) ->
  exists ds, l = Some <$> ds.
Proof.
  induction l as [|x l IH]; intros H; [by exists []|].
  destruct (H 0%nat) as (d & Hd); [simpl; lia|]. simpl in Hd. simplify_eq.
  destruct IH as (ds & ->).
  { intros i Hi. apply (H (S i)). simpl. lia. }
  by exists (d :: ds).
Qed.

(** The barrier, from [errgroup.WithContext] to the return of [errg.Wait]. *)
Lemma ready_phase_facts tr :
  Forall (faithful w) tr ->
  let g := Wait task (sched_ready w) 2
             (spawn_ready nodes
                (WithContext (mkShared tr (replicate (length nodes) None)))) in
  exists new,
    trace (shared g) = tr ++ new /\
    Forall is_ready_event new /\
    Forall (faithful w) (tr ++ new) /\
    panicked g = None /\
    omap wait_call new ≡ₚ nodes /\
    (err g = None ->
     Forall (fun e => failure_of e = None) new /\
     rows_ok dbc nodes (dbNodes (shared g))) /\
    (forall e, err g = Some e ->
               exists ev, ev ∈ new /\ failure_of ev = Some e) /\
    (forall i d,
       dbNodes (shared g) !! i = Some (Some d) ->
       exists n runID,
         nodes !! i = Some n /\ EvInsertNode runID n (Ok d) ∈ new) /\
    (dbc = None -> Forall (fun row => row = None) (dbNodes (shared g))).
Proof using run_known.
  intros Htr g.
  assert (Hg : g = Wait task (sched_ready w) 2
                 (mkGroup (Some <$> imap (fun i n => TWaitForAPI i n) nodes)
                    None None
                    (mkShared tr (replicate (length nodes) None)))).
  { subst g. by rewrite spawn_ready_tasks. }
  clearbody g. subst g.
  set (g0 := mkGroup _ None None _).
  assert (Hinit : ready_facts nodes dbc tr g0 []).
  { split_ready; simpl; try done.
    - by rewrite app_nil_r.
    - by rewrite length_replicate.
    - by rewrite (pending_wait_spawned id).
    - intros i t Hi. rewrite list_lookup_fmap, list_lookup_imap in Hi.
      destruct (nodes !! i) as [n|] eqn:En; simpl in Hi; by simplify_eq.
    - intros _. apply Forall_fmap, Forall_forall. intros t Ht.
      apply elem_of_lookup_imap in Ht as (i & n & -> & _). by intros [].
    - intros i d Hi. by apply lookup_replicate in Hi as [? _].
    - intros _ _ i Hi. rewrite list_lookup_fmap, list_lookup_imap in Hi.
      destruct (nodes !! i); by simplify_eq. }
  destruct (Wait_invariant task
              (fun g => exists new, ready_facts nodes dbc tr g new)
              (fun i g '(ex_intro _ new H) =>
                 ready_facts_step tr i g new H)
              (sched_ready w) 2 g0 (ex_intro _ [] Hinit))
    as (new & Hfacts).
  destruct (Wait_invariant task
              (fun g =>
                 Forall (faithful w) (trace (shared g)) /\
                 (dbc = None ->
                  Forall (fun row => row = None) (dbNodes (shared g)) /\
                  Forall (fun slot => ~ inserting_node slot) (tasks g)))
              ready_faithful_step (sched_ready w) 2 g0) as [Hfaith Hdry].
  { simpl. split; [done|]. intros _. split.
    - by apply Forall_replicate.
    - apply Forall_fmap, Forall_forall. intros t Ht.
      apply elem_of_lookup_imap in Ht as (i & n & -> & _). by intros []. }
  pose proof Hfacts as (Htrace & Hev & Hp & Hlen & Hwaits & Hok & Herr & _
                        & _ & Hattr & Hrows).
  pose proof (Wait_all_returned task ready_rank
                (ready_rank_decreases w dbc dbRun) 2 ready_rank_bound
                (sched_ready w) g0 Hp) as Hall.
  exists new. refine (conj Htrace (conj Hev (conj _ (conj Hp (conj _
                (conj _ (conj Herr (conj Hattr _)))))))).
  - by rewrite <- Htrace.
  - rewrite Hall in Hwaits. rewrite <- Hwaits.
    assert (Hnone : forall k, omap pending_wait (replicate k None) = []).
    { intros k. induction k; [done|]. simpl. apply IHk. }
    by rewrite Hnone, app_nil_r.
  - intros He. split; [by apply Hok|]. split; [done|].
    destruct dbc as [d|] eqn:Edbc; [right|by left].
    apply rows_all_there. intros i Hi. apply Hrows; [done|done|].
    rewrite Hall. apply lookup_replicate. split; [done|].
    subst g0. simpl. rewrite length_fmap, length_imap. lia.
  - intros Hd. by destruct (Hdry Hd).
Qed.

End Barrier.

Section Start.
Variable w : World.
Variable nodes : list Node.

Lemma ScheduleAction_case dry fuel :
  run_case w dry nodes fuel (ScheduleAction w dry nodes fuel).
Proof.
  assert (Hbarrier : forall dbc dbRun tr,
    dbc = (if dry then None else Some dbClient) ->
    dbc = None \/ dbRun <> None ->
    setup_succeeds w dry ->
    Forall (fun ev => ev = EvInitDBClient \/ ev = EvInitRun) tr ->
    let errg := Wait (ready_task w dbc dbRun) (sched_ready w) 2
                  (spawn_ready nodes
                     (WithContext
                        (mkShared tr (replicate (length nodes) None)))) in
    run_case w dry nodes fuel
      match panicked errg, err errg with
      | Some why, _ => stopped (trace (shared errg)) (Panicked why)
      | None, Some err =>
          stopped (trace (shared errg))
            (Returned (Errorf_w "waiting for parsec node APIs" err))
      | None, None => loop w dbc nodes fuel 0 0 (shared errg)
      end).
  { intros dbc dbRun tr Hdbc Hknown Hsetup Htr errg.
    assert (Htr1 : Forall (faithful w) tr).
    { eapply Forall_impl; [exact Htr|]. by intros ev [->| ->]. }
    assert (Htr2 : startup tr).
    { unfold startup. eapply Forall_impl; [exact Htr|]. by intros ev [->| ->]. }
    assert (Htr3 : omap wait_call tr = []).
    { apply omap_none. eapply Forall_impl; [exact Htr|]. by intros ev [->| ->]. }
    assert (Htr4 : Forall (fun e => failure_of e = None) tr).
    { eapply Forall_impl; [exact Htr|]. by intros ev [->| ->]. }
    assert (Htr5 : forall runID n d, EvInsertNode runID n (Ok d) ∉ tr).
    { intros runID n d Hin. rewrite Forall_forall in Htr.
      by destruct (Htr _ Hin). }
    destruct (ready_phase_facts w nodes dbc dbRun Hknown tr Htr1)
      as (new & Htrace & Hev & Hfaith & Hp & Hwaits & Hok & Herr & Hattr
          & Hdry).
    fold errg in Htrace, Hfaith, Hp, Hwaits, Hok, Herr, Hattr, Hdry.
    assert (Hbt : barrier_trace w nodes (trace (shared errg))).
    { rewrite Htrace. split; [|split]; [|done|].
      - apply Forall_app. split; [done|]. by apply SchedulerSpec.ready_startup.
      - by rewrite omap_app, Htr3. }
    rewrite Hp. destruct (err errg) as [e|] eqn:Ee.
    - destruct (Herr e eq_refl) as (ev & Hin & Hfail).
      apply run_barrier_failed with ev; try done.
      rewrite Htrace, elem_of_app. by right.
    - destruct (Hok eq_refl) as [Hnofail Hrows]. subst dbc.
      apply run_loop; try done.
      + rewrite Htrace. apply Forall_app. by split.
      + intros ->. by apply Hdry.
      + intros i d Hi. destruct (Hattr i d Hi) as (n & runID & Hn & Hin).
        exists n, runID. split; [done|]. rewrite Htrace, elem_of_app.
        by right. }
  assert (Hsetup : forall tr,
            tr = [EvInitDBClient] \/ tr = [EvInitDBClient; EvInitRun] ->
            Forall (fun ev => ev = EvInitDBClient \/ ev = EvInitRun) tr).
  { intros tr [->| ->]; repeat (apply Forall_cons; split; [tauto|]);
      apply Forall_nil_2. }
  unfold ScheduleAction. destruct dry; simpl.
  - destruct (ReadBuildInfo w) eqn:Hbuild; simpl.
    + apply (Hbarrier None None []); try done; by left.
    + apply run_setup_failed; [done|]. right. left. by split.
  - destruct (InitDBClient w) as [dbc|e] eqn:Hinit; simpl; cycle 1.
    { apply run_setup_failed; [apply Hsetup; by left|].
      left. split; [done|]. by exists e. }
    destruct (ReadBuildInfo w) eqn:Hbuild; simpl; cycle 1.
    { apply run_setup_failed; [apply Hsetup; by left|].
      right. left. by split. }
    destruct (InitRun w) as [dbRun|e] eqn:Hrun; simpl; cycle 1.
    { apply run_setup_failed.
      - apply Hsetup. by right.
      - right. right. split; [done|]. by exists e. }
    destruct dbc.
    apply (Hbarrier (Some dbClient) (Some dbRun)); try done.
    + by right.
    + split; [done|]. intros _. split; eauto.
    + apply Hsetup. by right.
Qed.

End Start.
End StartupCases.

(* ===================================================================== *)
(** * The coordinator: what a round keeps, and what ends a run *)
(* ===================================================================== *)

Module LoopMore.
Import Golang GolangFacts errgroup errgroupFacts Scheduler SchedulerInv.
Import FailureInv RetrieveFacts IndexFacts LoopFacts RetrieveMore RoundCases.
Import StartupCases.

Local Abbreviation dbc_of dry := (if dry then None else Some dbClient).
Local Abbreviation no_failure := (fun e : Event => failure_of e = None).

Section Rounds.
Variable w : World.
Variable dbc : option DBClient.
Variable nodes : list Node.

Lemma retr_faithful_step r content i g :
  Forall (faithful w) (trace (shared g)) ->
  Forall (faithful w)
    (trace (shared (step_at (retrieve_task w dbc nodes r content) i g))).
Proof.
  intros Hf. unfold step_at. destruct (panicked g); [done|].
  destruct (tasks g !! i) as [[t|]|]; [|done..].
  destruct t as [rn|dbNode x]; simpl.
  - destruct (index nodes rn) as [node|]; [|done].
    destruct (index (dbNodes (shared g)) rn) as [dbNode|]; [|done].
    assert (Hf' : Forall (faithful w)
                    (trace (shared g)
                       ++ [EvRetrieve r rn node (CID content)
                             (Retrieve w r node (CID content) (cancelled g))])).
    { apply Forall_app. split; [done|]. repeat constructor. simpl. eauto. }
    destruct (Retrieve w r node (CID content) (cancelled g));
      [destruct dbc|]; done.
  - destruct dbNode as [d|]; [|done].
    assert (Hf' : Forall (faithful w)
                    (trace (shared g)
                       ++ [EvInsertRetrieval r (models.ID d) x
                             (InsertRetrieval w r (models.ID d) x
                                (cancelled g))])).
    { apply Forall_app. split; [done|]. repeat constructor. simpl. eauto. }
    by destruct (InsertRetrieval w r (models.ID d) x (cancelled g)).
Qed.

(** The goroutines of a round, from [errgroup.WithContext] to the return of
    [errg.Wait]. *)
Lemma retrieve_phase_all r content p s :
  Forall (faithful w) (trace s) ->
  let g := Wait (retrieve_task w dbc nodes r content) (sched_round w r) 2
             (spawn_retrieve nodes p (WithContext s)) in
  exists retr,
    retr_facts nodes r content (retrNodes nodes p) (trace s) (dbNodes s)
      g retr /\
    Forall (faithful w) retr /\
    (panicked g = None ->
     omap (retrieve_call r) retr ≡ₚ retrNodes nodes p) /\
    (rows_ok dbc nodes (dbNodes s) -> 0 <= p < len nodes ->
     len nodes <= maxFleet -> panicked g = None).
Proof.
  intros Hf g.
  destruct (retrieve_phase_facts w dbc nodes r content p s)
    as (retr & rest & Hfacts & Hcalls & Hrest).
  fold g in Hfacts, Hcalls, Hrest.
  exists retr. split; [done|]. split; [|split].
  - assert (Hall : Forall (faithful w) (trace (shared g))).
    { subst g. apply (Wait_invariant (retrieve_task w dbc nodes r content)
               (fun g => Forall (faithful w) (trace (shared g)))
               (retr_faithful_step r content)).
      by rewrite spawn_retrieve_tasks. }
    destruct Hfacts as (Htr & _). rewrite Htr in Hall.
    by apply Forall_app in Hall as [_ ?].
  - intros Hp. rewrite (Hrest Hp), app_nil_r in Hcalls. done.
  - intros Hrows Hp Hn. by apply retrieve_phase_safe.
Qed.

Lemma rows_ok_row dbN p :
  rows_ok dbc nodes dbN -> dbc <> None -> 0 <= p < len nodes ->
  exists d, index dbN p = Some (Some d).
Proof.
  intros [Hlen [?|(ds & ->)]] Hdbc Hp; [done|].
  rewrite length_fmap in Hlen.
  destruct (index_is_Some ds p) as [d Hd]; [unfold len in *; lia|].
  exists d. unfold index in *. destruct (0 <=? p); [|done].
  by rewrite list_lookup_fmap, Hd.
Qed.

Lemma rows_ok_index dbN p :
  rows_ok dbc nodes dbN -> 0 <= p < len nodes -> is_Some (index dbN p).
Proof.
  intros [Hlen _] Hp. apply index_is_Some. unfold len in *. lia.
Qed.

Ltac elems :=
  repeat match goal with
         | H : _ ∈ [] |- _ => by apply elem_of_nil in H
         | H : _ ∈ _ :: _ |- _ => apply elem_of_cons in H as [H|H]
         | H : _ ∈ _ ++ _ |- _ => apply elem_of_app in H as [H|H]
         end.

Ltac vacuous :=
  try (intros; csimpl in *; elems; simplify_eq; done).

(** Every way through the body of the loop. *)
Lemma round_body_detail r p s s' res :
  round_body w dbc nodes r p s = (s', res) ->
  Forall (faithful w) (trace s) ->
  exists new,
    trace s' = trace s ++ new /\ dbNodes s' = dbNodes s /\
    round_detail w dbc nodes r p (dbNodes s) new res.
Proof.
  intros Hbody Hfaith.
  pose proof (round_body_case w nodes dbc r p s) as Hc. rewrite Hbody in Hc.
  inversion Hc as
    [e Hctx
    |e Hctx Hcont
    |content Hctx Hcont Hidx
    |content node e Hctx Hcont Hidx Hprov
    |content node pr Hctx Hcont Hidx Hprov Hdbc Hrow
    |content node pr d e Hctx Hcont Hidx Hprov Hdbc Hrow Hins
    |content node pr ins g res' Hctx Hcont Hidx Hprov Hins Hg Hres];
    clear Hc; simplify_eq.
  - exists []. rewrite app_nil_r. split; [done|]. split; [done|].
    split; vacuous.
    intros x [= <-]. left. eauto.
  - exists []. rewrite app_nil_r. split; [done|]. split; [done|].
    split; vacuous.
    intros x [= <-]. right. left. eauto.
  - exists []. rewrite app_nil_r. split; [done|]. split; [done|].
    split; vacuous.
    intros x [= <-]. right. right. right. eexists. split; [done|].
    intros (_ & Hp & _). destruct (index_is_Some nodes p Hp). congruence.
  - exists [EvProvide r p node content (Err e)].
    split; [done|]. split; [done|]. split; vacuous.
    + by repeat constructor.
    + by repeat constructor.
    + intros _. eauto.
    + intros x [= <-]. right. right.
      destruct (index (dbNodes s) p) as [[d|]|] eqn:Hrow.
      * left. exists (EvProvide r p node content (Err e)), (Errorf_w "provide content" e).
        split; [by apply list_elem_of_singleton|]. split; [done|]. by left.
      * destruct (decide (dbc = None)) as [Edbc|Edbc]; cycle 1.
        -- right. eexists. split; [done|]. intros (Hrows & Hp & _).
           destruct (rows_ok_row _ p Hrows) as (d & Hd); [done|done|].
           congruence.
        -- left. exists (EvProvide r p node content (Err e)), (Errorf_w "provide content" e).
           split; [by apply list_elem_of_singleton|]. split; [done|].
           right. right. split; [done|]. split; [done|]. eauto.
      * right. eexists. split; [done|]. intros (Hrows & Hp & _).
        destruct (rows_ok_index _ p Hrows Hp). congruence.
    + intros r' p' n c e' Hin. apply list_elem_of_singleton in Hin.
      simplify_eq. split; [done|]. eexists. split; [done|].
      split; [by intros d ->|by intros ->].
  - exists [EvProvide r p node content (Ok pr)].
    split; [done|]. split; [done|]. split; vacuous.
    + by repeat constructor.
    + by repeat constructor.
    + intros _. eauto.
    + intros x [= <-]. right. right. right. eexists. split; [done|].
      intros (Hrows & Hp & _).
      destruct (rows_ok_row _ p Hrows) as (d & Hd); [done|done|].
      by destruct (Hrow d).
    + intros r' p' n c pr' Hin Hins _. destruct (Hins Hdbc) as (id & Hid).
      elems. by simplify_eq.
  - exists [EvProvide r p node content (Ok pr);
            EvInsertProvide r (models.ID d) pr (Some e)].
    split; [done|]. split; [done|]. split; vacuous.
    + by repeat constructor.
    + by repeat constructor.
    + intros _. eauto.
    + intros x [= <-]. right. right. left.
      exists (EvInsertProvide r (models.ID d) pr (Some e)),
        (Errorf_w "insert provide" e).
      split; [|split; [done|by left]].
      apply elem_of_cons. right. by apply list_elem_of_singleton.
    + intros r' id pr' e' Hin. elems; simplify_eq.
      split; [|done]. repeat constructor; by intros [].
    + intros r' p' n c pr' Hin Hins' _. destruct (Hins' Hdbc) as (id & Hid).
      elems; by simplify_eq.
    + intros r' id pr' res' Hin. elems; simplify_eq.
      exists node, content, d. split; [|done]. apply elem_of_cons. by left.
  - set (s0 := mkShared (trace s ++ EvProvide r p node content (Ok pr) :: ins)
                 (dbNodes s)).
    set (g := Wait (retrieve_task w dbc nodes r content) (sched_round w r) 2
                (spawn_retrieve nodes p (WithContext s0))).
    assert (Hins_ev : Forall (fun ev =>
                        round_of ev = Some r /\ faithful w ev /\
                        failure_of ev = None /\ ~ is_retr_event r ev /\
                        retrieve_call r ev = None) ins).
    { destruct Hins as [[_ ->]|(_ & d & _ & Hi & ->)]; [done|].
      repeat constructor; try done. by intros []. }
    destruct (retrieve_phase_all r content p s0)
      as (retr & Hfacts & Hfretr & Hperm & Hsafe).
    { subst s0. simpl. apply Forall_app. split; [done|].
      constructor; [done|]. eapply Forall_impl; [exact Hins_ev|].
      by intros ev (_ & ? & _). }
    fold g in Hfacts, Hperm, Hsafe.
    destruct Hfacts as (Htr & Hdb & Hev & Hcalls & Hok & Herr & _ & Hinsr
                        & Hretr).
    simpl in Htr, Hdb.
    assert (Homap : omap (retrieve_call r)
                      (EvProvide r p node content (Ok pr) :: ins ++ retr)
                    = omap (retrieve_call r) retr).
    { csimpl. rewrite omap_app. rewrite (omap_none _ ins); [done|].
      eapply Forall_impl; [exact Hins_ev|]. by intros ev (_ & _ & _ & _ & ?). }
    assert (Hsub : forall rn, rn ∈ omap (retrieve_call r) retr ->
                              rn ∈ retrNodes nodes p).
    { intros rn Hrn. rewrite <- Hcalls. apply elem_of_app. by left. }
    assert (Hform : forall ev, ev ∈ ins ->
              exists d, ev = EvInsertProvide r (models.ID d) pr None /\
                        index (dbNodes s) p = Some (Some d)).
    { intros ev Hin. destruct Hins as [[_ ->]|(_ & d & Hd & Hi & ->)];
        elems. eauto. }
    rewrite Forall_forall in Hev.
    exists (EvProvide r p node content (Ok pr) :: ins ++ retr).
    split; [by rewrite Htr, <- app_assoc|]. split; [done|]. split.
    + constructor; [done|]. apply Forall_app. split.
      * eapply Forall_impl; [exact Hins_ev|]. by intros ev (? & _).
      * apply Forall_forall. intros ev Hin. by apply round_of_retr, Hev.
    + constructor; [done|]. apply Forall_app. split; [|done].
      eapply Forall_impl; [exact Hins_ev|]. by intros ev (_ & ? & _).
    + intros _. eauto.
    + intros e' He'. congruence.
    + intros p'. destruct (panicked g); [done|].
      destruct (err g); [done|]. intros _.
      constructor; [done|]. apply Forall_app. split; [|by apply Hok].
      eapply Forall_impl; [exact Hins_ev|]. by intros ev (_ & _ & ? & _).
    + intros x Hx. right. right. destruct (panicked g) as [why|] eqn:Ep.
      * right. exists why. split; [congruence|].
        intros (Hrows & Hp & Hn). by specialize (Hsafe Hrows Hp Hn).
      * destruct (err g) as [e|] eqn:Ee; [|done]. left.
        destruct (Herr e eq_refl) as (ev & Hin & Hf).
        exists ev, e. split; [|split; [done|]].
        -- apply elem_of_cons. right. apply elem_of_app. by right.
        -- right. left. congruence.
    + intros r' p' n c res' Hin. elems; simplify_eq.
      * done.
      * by destruct (Hform _ Hin) as (d & ? & _).
      * by destruct (Hev _ Hin).
    + intros r' p' n c e Hin. elems; simplify_eq.
      * by destruct (Hform _ Hin) as (d & ? & _).
      * by destruct (Hev _ Hin).
    + intros r' id pr' e Hin. elems; simplify_eq.
      * by destruct (Hform _ Hin) as (d & ? & _).
      * by destruct (Hev _ Hin).
    + intros rn. rewrite Homap. apply Hsub.
    + intros r' p' n c pr' _ _ Hnopanic. rewrite Homap. apply Hperm.
      destruct (panicked g) as [why|]; [|done]. by destruct (Hnopanic why).
    + intros r' id pr' res' Hin. elems; simplify_eq.
      * destruct (Hform _ Hin) as (d & ? & Hd). simplify_eq.
        exists node, content, d. split; [|done]. apply elem_of_cons. by left.
      * by destruct (Hev _ Hin).
    + intros r' id x res' Hin. elems; simplify_eq.
      * by destruct (Hform _ Hin) as (d & ? & _).
      * pose proof (Hev _ Hin) as Hr. simpl in Hr. subst r'.
        destruct (Hinsr _ _ _ Hin) as (rn & n & d & H1 & H2 & H3 & H4).
        exists rn, n, (CID content), d. split; [|done].
        apply elem_of_cons. right. apply elem_of_app. by right.
    + intros r' rn n cid res' Hin. elems; simplify_eq.
      * by destruct (Hform _ Hin) as (d & ? & _).
      * pose proof (Hev _ Hin) as Hr. simpl in Hr. subst r'.
        destruct (Hretr _ _ _ _ Hin) as [H1 ->]. split; [done|].
        split; [|eauto]. apply Hsub.
        apply (list_elem_of_omap (retrieve_call r)).
        exists (EvRetrieve r rn n (CID content) res'). split; [done|].
        simpl. by rewrite decide_True.
Qed.

End Rounds.

(** ** An invariant of the loop, with what is known at every round *)

Section Loop.
Variable w : World.
Variable dbc : option DBClient.
Variable nodes : list Node.
Variable J : nat -> Z -> Shared -> Prop.
Variable F : nat -> Z -> Shared -> option Exit -> Prop.

Hypothesis J_F :
  forall r p s,
    loop_state w dbc nodes r s -> prov_ok nodes r p -> J r p s ->
    F r p s None.
Hypothesis J_completed :
  forall r p s s' p' new,
    loop_state w dbc nodes r s -> prov_ok nodes r p -> J r p s ->
    trace s' = trace s ++ new -> dbNodes s' = dbNodes s ->
    round_detail w dbc nodes r p (dbNodes s) new (Completed p') ->
    J (S r) p' s'.
Hypothesis J_exited :
  forall r p s s' e new,
    loop_state w dbc nodes r s -> prov_ok nodes r p -> J r p s ->
    trace s' = trace s ++ new -> dbNodes s' = dbNodes s ->
    round_detail w dbc nodes r p (dbNodes s) new (Exited e) ->
    F r p s' (Some e).

Lemma loop_state_invariant fuel r p s :
  loop_state w dbc nodes r s -> prov_ok nodes r p -> J r p s ->
  exists s',
    calls (loop w dbc nodes fuel r p s) = trace s' /\
    F (rounds (loop w dbc nodes fuel r p s))
      (provNode (loop w dbc nodes fuel r p s)) s'
      (exit (loop w dbc nodes fuel r p s)).
Proof using J_F J_completed J_exited.
  intros Hstate Hprov HJ.
  apply (loop_invariant w dbc nodes
           (fun r p s =>
              loop_state w dbc nodes r s /\ prov_ok nodes r p /\ J r p s)
           F).
  - intros r0 p0 s0 (H1 & H2 & H3). by apply J_F.
  - intros r0 p0 s0 s1 p1 (H1 & H2 & H3) Hbody.
    pose proof H1 as (Hrows & Hnone & Hattr & Hfaith & Hnofail & Hbefore).
    destruct (round_body_detail w dbc nodes r0 p0 s0 s1 _ Hbody Hfaith)
      as (new & Htr & Hdb & Hd).
    split; [|split].
    + unfold loop_state. rewrite Htr, Hdb.
      refine (conj Hrows (conj Hnone (conj _ (conj _ (conj _ _))))).
      * intros i d Hi. rewrite Hdb in Hi.
        destruct (Hattr i d Hi) as (n & runID & Hn & Hin).
        exists n, runID. rewrite Htr, elem_of_app. eauto.
      * apply Forall_app. split; [done|]. apply (rd_faithful _ _ _ _ _ _ _ _ Hd).
      * apply Forall_app. split; [done|].
        by apply (rd_completed _ _ _ _ _ _ _ _ Hd p1).
      * apply Forall_app. split.
        -- eapply Forall_impl; [exact Hbefore|]. intros e He r' Hr'.
           specialize (He r' Hr'). lia.
        -- eapply Forall_impl; [apply (rd_round _ _ _ _ _ _ _ _ Hd)|].
           intros e He r' Hr'. rewrite He in Hr'. simplify_eq. lia.
    + intros Hn1 Hn2.
      destruct (SchedulerSpec.round_body_inv _ _ _ _ _ _ _ _ Hbody)
        as (new' & _ & _ & Hsh).
      destruct (shape_completed _ _ _ _ _ _ Hsh) as (-> & Hrange & _).
      rewrite next_provNode by done.
      apply SchedulerSpec.next_round; [lia|]. by apply H2.
    + by eapply J_completed.
  - intros r0 p0 s0 s1 e (H1 & H2 & H3) Hbody.
    pose proof H1 as (_ & _ & _ & Hfaith & _).
    destruct (round_body_detail w dbc nodes r0 p0 s0 s1 _ Hbody Hfaith)
      as (new & Htr & Hdb & Hd).
    by eapply J_exited.
  - done.
Qed.

End Loop.

(** The state in which [ScheduleAction] enters the loop. *)
Lemma loop_state_start w (dry : bool) nodes s :
  barrier_trace w nodes (trace s) ->
  Forall no_failure (trace s) ->
  rows_ok (dbc_of dry) nodes (dbNodes s) ->
  (dry = true -> Forall (fun row => row = None) (dbNodes s)) ->
  rows_attributed nodes s ->
  loop_state w (dbc_of dry) nodes 0 s /\ prov_ok nodes 0 0.
Proof.
  intros (Hst & Hfaith & _) Hnofail Hrows Hnone Hattr. split.
  - refine (conj Hrows (conj _ (conj Hattr (conj Hfaith (conj Hnofail _))))).
    + intros Hd. apply Hnone. by destruct dry.
    + eapply Forall_impl; [exact Hst|]. intros e He r' Hr'. congruence.
  - intros _ _. simpl. by rewrite Zmod_0_l.
Qed.

Lemma no_round_omap r tr :
  no_round r tr ->
  omap (provide_call r) tr = [] /\ omap (retrieve_call r) tr = [] /\
  omap (stored_retrieval r) tr = [].
Proof.
  intros H. repeat split; apply omap_none; (eapply Forall_impl; [exact H|]);
    intros [| | | |r' ? ? ? ?|r' ? ? ?|r' ? ? ? ?|r' ? ? [?|]] He; simpl;
    try done; destruct (decide (r' = r)); simpl in *; congruence.
Qed.

Lemma before_no_round r r' tr :
  before_round r tr -> (r <= r')%nat -> no_round r' tr.
Proof.
  intros H Hr. eapply Forall_impl; [exact H|]. intros e He Heq.
  specialize (He _ Heq). lia.
Qed.

Lemma other_no_round r r' tr :
  Forall (fun e => round_of e = Some r) tr -> r <> r' -> no_round r' tr.
Proof.
  intros H Hr. eapply Forall_impl; [exact H|]. intros e He Heq. congruence.
Qed.

Lemma startup_no_round r tr : startup tr -> no_round r tr.
Proof.
  intros H. eapply Forall_impl; [exact H|]. intros e He Heq. congruence.
Qed.

(** The loop has no way out but an error or a panic. *)
Lemma loop_going w dbc nodes fuel r p s :
  (r <= rounds (loop w dbc nodes fuel r p s) <= r + fuel)%nat /\
  (exit (loop w dbc nodes fuel r p s) = None ->
   rounds (loop w dbc nodes fuel r p s) = (r + fuel)%nat).
Proof.
  revert r p s. induction fuel as [|fuel IH]; intros r p s; simpl.
  - split; [lia|]. intros _. lia.
  - destruct (round_body w dbc nodes r p s) as [s' [p'|e]]; simpl.
    + destruct (IH (S r) p' s') as [H1 H2]. split; [lia|].
      intros H. rewrite (H2 H). lia.
    + split; [lia|done].
Qed.

End LoopMore.

(* ===================================================================== *)
(** * The coordinator: failures, cancellation and the barrier *)
(* ===================================================================== *)

Module SchedulerExtra.
Import Golang GolangFacts errgroup errgroupFacts Scheduler SchedulerInv.
Import FailureInv RetrieveFacts IndexFacts LoopFacts RetrieveMore RoundCases.
Import StartupCases LoopMore.

Local Abbreviation dbc_of dry := (if dry then None else Some dbClient).
Local Abbreviation no_failure := (fun e : Event => failure_of e = None).

Ltac run_cases w dry nodes fuel :=
  let Hcase := fresh "Hcase" in
  pose proof (ScheduleAction_case w nodes dry fuel) as Hcase;
  inversion Hcase as
    [tr e0 Htr Hfail Heq
    |tr e0 ev0 Hset Hbt Hin0 Hf0 Heq
    |s Hset Hbt Hnf Hrows Hnone Hattr Heq];
  clear Hcase; try rewrite <- Heq in *; clear Heq.

Lemma setup_events_startup tr :
  Forall (fun ev => ev = EvInitDBClient \/ ev = EvInitRun) tr ->
  startup tr /\ Forall no_failure tr /\ omap wait_call tr = [].
Proof.
  intros H. split; [|split]; [| |apply omap_none];
    (eapply Forall_impl; [exact H|]); by intros ev [->| ->].
Qed.

(** X9: a call that fails ends the run, in the round it was made in: the
    coordinator returns or dies, and completes no further round. *)
Theorem X9_failed_call_ends_the_run w dry nodes fuel ev :
  ev ∈ calls (ScheduleAction w dry nodes fuel) ->
  failure_of ev <> None ->
  exit (ScheduleAction w dry nodes fuel) <> None /\
  rounds (ScheduleAction w dry nodes fuel) =
    match round_of ev with Some r => r | None => 0%nat end.
Proof.
  intros Hin Hfailed. run_cases w dry nodes fuel; simpl in *.
  - destruct (setup_events_startup _ Htr) as (_ & Hnf & _).
    rewrite Forall_forall in Hnf. by destruct Hfailed; apply Hnf.
  - split; [done|]. destruct Hbt as (Hst & _).
    unfold startup in Hst. rewrite Forall_forall in Hst.
    by rewrite (Hst _ Hin).
  - destruct (loop_state_start w dry nodes s) as [Hstate Hprov]; try done.
    destruct (loop_state_invariant w (dbc_of dry) nodes
                (fun _ _ _ => True)
                (fun r p s x =>
                   forall ev, ev ∈ trace s -> failure_of ev <> None ->
                              x <> None /\ round_of ev = Some r))
      with fuel 0%nat 0 s as (s' & Hcalls & HF); try done.
    + intros r p s0 (_ & _ & _ & _ & Hnf' & _) _ _ ev' Hin' Hf'.
      rewrite Forall_forall in Hnf'. by destruct Hf'; apply Hnf'.
    + intros r p s0 s1 e new (_ & _ & _ & _ & Hnf' & _) _ _ Htr' _ Hd
        ev' Hin' Hf'.
      split; [done|]. rewrite Htr' in Hin'.
      apply elem_of_app in Hin' as [Hin'|Hin'].
      * rewrite Forall_forall in Hnf'. by destruct Hf'; apply Hnf'.
      * pose proof (rd_round _ _ _ _ _ _ _ _ Hd) as Hround.
        rewrite Forall_forall in Hround. by apply Hround.
    + rewrite Hcalls in Hin. destruct (HF _ Hin Hfailed) as [H1 H2].
      split; [done|]. by rewrite H2.
Qed.

(** X10: when the context is cancelled at the check of round [r], the loop
    completes no round from [r] on and makes no call in them; it has ended
    once it gets there, and from round 1 on what it returns is the error of
    the context. *)
Theorem X10_cancellation_stops_the_loop w dry nodes fuel r e :
  Context_Err w r = Some e -> (r < fuel)%nat ->
  (rounds (ScheduleAction w dry nodes fuel) <= r)%nat /\
  exit (ScheduleAction w dry nodes fuel) <> None /\
  (forall r', (r <= r')%nat ->
              no_round r' (calls (ScheduleAction w dry nodes fuel))) /\
  ((0 < r)%nat -> rounds (ScheduleAction w dry nodes fuel) = r ->
   exit (ScheduleAction w dry nodes fuel) = Some (Returned e)).
Proof.
  intros Hctx Hfuel. run_cases w dry nodes fuel; simpl in *.
  - split; [lia|]. split; [done|]. split; [|lia].
    intros r' _. apply startup_no_round.
    by destruct (setup_events_startup _ Htr).
  - split; [lia|]. split; [done|]. split; [|lia].
    intros r' _. apply startup_no_round. by destruct Hbt.
  - destruct (loop_state_start w dry nodes s) as [Hstate Hprov]; try done.
    destruct (loop_going w (dbc_of dry) nodes fuel 0 0 s) as [_ Hgoing].
    destruct (loop_state_invariant w (dbc_of dry) nodes
                (fun r0 _ _ => (r0 <= r)%nat)
                (fun r0 p s x =>
                   (r0 <= r)%nat /\
                   (forall r', (r <= r')%nat -> no_round r' (trace s)) /\
                   (r0 = r -> x = None \/ x = Some (Returned e))))
      with fuel 0%nat 0 s as (s' & Hcalls & Hle & Hno & Hexit);
      try done; try (simpl; lia).
    + intros r0 p s0 (_ & _ & _ & _ & _ & Hbefore) _ Hr0.
      split; [done|]. split; [|by left].
      intros r' Hr'. eapply before_no_round; [done|lia].
    + intros r0 p s0 s1 p1 new _ _ Hr0 _ _ Hd.
      destruct (decide (r0 = r)) as [->|Hne]; [|lia].
      by destruct (rd_cancelled _ _ _ _ _ _ _ _ Hd e Hctx) as [_ ?].
    + intros r0 p s0 s1 x new (_ & _ & _ & _ & _ & Hbefore) _ Hr0 Htr' _ Hd.
      split; [done|]. split.
      * intros r' Hr'. rewrite Htr'. apply Forall_app. split.
        -- eapply before_no_round; [done|lia].
        -- destruct (decide (r0 = r)) as [->|Hne].
           ++ by destruct (rd_cancelled _ _ _ _ _ _ _ _ Hd e Hctx) as [-> _].
           ++ eapply other_no_round;
                [apply (rd_round _ _ _ _ _ _ _ _ Hd)|lia].
      * intros ->. right.
        destruct (rd_cancelled _ _ _ _ _ _ _ _ Hd e Hctx) as [_ Hres].
        by simplify_eq.
    + assert (Hended : exit (loop w (dbc_of dry) nodes fuel 0 0 s) <> None).
      { intros Hnone'. specialize (Hgoing Hnone'). lia. }
      split; [done|]. split; [done|]. split; [by rewrite Hcalls|].
      intros _ Hr. by destruct (Hexit Hr).
Qed.

(** X11: a Provide call that fails is the last call of the run.  With the
    database the coordinator returns the error, wrapped in "provide content";
    in a dry run the process dies of the nil dereference of the log line.
    No Retrieve call is made in that round. *)
Theorem X11_failed_provide_ends_the_run w dry nodes fuel r p n c e :
  EvProvide r p n c (Err e) ∈ calls (ScheduleAction w dry nodes fuel) ->
  rounds (ScheduleAction w dry nodes fuel) = r /\
  last (calls (ScheduleAction w dry nodes fuel)) =
    Some (EvProvide r p n c (Err e)) /\
  omap (retrieve_call r) (calls (ScheduleAction w dry nodes fuel)) = [] /\
  exit (ScheduleAction w dry nodes fuel) =
    Some (if dry then Panicked NilDereference
          else Returned (Errorf_w "provide content" e)).
Proof.
  intros Hin. run_cases w dry nodes fuel; simpl in *.
  - rewrite Forall_forall in Htr. by destruct (Htr _ Hin).
  - destruct Hbt as (Hst & _). unfold startup in Hst.
    rewrite Forall_forall in Hst. by specialize (Hst _ Hin).
  - destruct (loop_state_start w dry nodes s) as [Hstate Hprov]; try done.
    destruct (loop_state_invariant w (dbc_of dry) nodes
                (fun _ _ _ => True)
                (fun r0 _ s x =>
                   forall r p n c e,
                     EvProvide r p n c (Err e) ∈ trace s ->
                     r0 = r /\
                     last (trace s) = Some (EvProvide r p n c (Err e)) /\
                     omap (retrieve_call r) (trace s) = [] /\
                     x = Some (if dry then Panicked NilDereference
                               else Returned (Errorf_w "provide content" e))))
      with fuel 0%nat 0 s as (s' & Hcalls & HF); try done.
    + intros r0 p0 s0 (_ & _ & _ & _ & Hnf' & _) _ _ r1 p1 n1 c1 e1 Hin'.
      rewrite Forall_forall in Hnf'. by specialize (Hnf' _ Hin').
    + intros r0 p0 s0 s1 x new (Hrows' & Hnone' & _ & _ & Hnf' & Hbefore) _ _
        Htr' _ Hd r1 p1 n1 c1 e1 Hin'.
      rewrite Htr' in Hin'. apply elem_of_app in Hin' as [Hin'|Hin'].
      { rewrite Forall_forall in Hnf'. by specialize (Hnf' _ Hin'). }
      destruct (rd_provide _ _ _ _ _ _ _ _ Hd _ _ _ _ _ Hin')
        as (-> & -> & Hidx & _).
      destruct (rd_provide_failed _ _ _ _ _ _ _ _ Hd _ _ _ _ _ Hin')
        as (-> & x' & [= <-] & Hrow & Hnil).
      split; [done|]. rewrite Htr'. split; [by rewrite last_snoc|].
      split.
      * rewrite omap_app. csimpl. rewrite app_nil_r.
        by apply no_round_omap, (before_no_round r0).
      * f_equal. apply index_Some in Hidx.
        destruct dry.
        -- apply Hnil. destruct (rows_ok_index _ _ _ _ Hrows' Hidx)
             as [row Hrow'].
           rewrite Hrow'. f_equal.
           specialize (Hnone' eq_refl). rewrite Forall_forall in Hnone'.
           apply Hnone'. unfold index in Hrow'.
           destruct (0 <=? p0); [|done]. by eapply list_elem_of_lookup_2.
        -- destruct (rows_ok_row _ _ _ _ Hrows' ltac:(done) Hidx)
             as (d & Hd').
           by apply (Hrow d).
    + rewrite Hcalls in Hin. destruct (HF _ _ _ _ _ Hin) as (? & ? & ? & ?).
      by rewrite Hcalls.
Qed.

(** X12: the database refusing the provide of a round ends the run with the
    error, wrapped in "insert provide"; the retrievals of the round are not
    started. *)
Theorem X12_failed_insert_provide_ends_the_run w dry nodes fuel r id pr e :
  EvInsertProvide r id pr (Some e) ∈ calls (ScheduleAction w dry nodes fuel) ->
  rounds (ScheduleAction w dry nodes fuel) = r /\
  omap (retrieve_call r) (calls (ScheduleAction w dry nodes fuel)) = [] /\
  exit (ScheduleAction w dry nodes fuel) =
    Some (Returned (Errorf_w "insert provide" e)).
Proof.
  intros Hin. run_cases w dry nodes fuel; simpl in *.
  - rewrite Forall_forall in Htr. by destruct (Htr _ Hin).
  - destruct Hbt as (Hst & _). unfold startup in Hst.
    rewrite Forall_forall in Hst. by specialize (Hst _ Hin).
  - destruct (loop_state_start w dry nodes s) as [Hstate Hprov]; try done.
    destruct (loop_state_invariant w (dbc_of dry) nodes
                (fun _ _ _ => True)
                (fun r0 _ s x =>
                   forall r id pr e,
                     EvInsertProvide r id pr (Some e) ∈ trace s ->
                     r0 = r /\
                     omap (retrieve_call r) (trace s) = [] /\
                     x = Some (Returned (Errorf_w "insert provide" e))))
      with fuel 0%nat 0 s as (s' & Hcalls & HF); try done.
    + intros r0 p0 s0 (_ & _ & _ & _ & Hnf' & _) _ _ r1 id1 pr1 e1 Hin'.
      rewrite Forall_forall in Hnf'. by specialize (Hnf' _ Hin').
    + intros r0 p0 s0 s1 x new (_ & _ & _ & _ & Hnf' & Hbefore) _ _
        Htr' _ Hd r1 id1 pr1 e1 Hin'.
      rewrite Htr' in Hin'. apply elem_of_app in Hin' as [Hin'|Hin'].
      { rewrite Forall_forall in Hnf'. by specialize (Hnf' _ Hin'). }
      pose proof (rd_round _ _ _ _ _ _ _ _ Hd) as Hround.
      rewrite Forall_forall in Hround.
      pose proof (Hround _ Hin') as [= ->].
      destruct (rd_insert_failed _ _ _ _ _ _ _ _ Hd _ _ _ _ Hin')
        as (Hnoretr & [= <-]).
      split; [done|]. split; [|done].
      rewrite Htr', omap_app.
      destruct (no_round_omap r0 (trace s0)) as (_ & -> & _);
        [by apply (before_no_round r0)|].
      apply omap_none. eapply Forall_impl; [exact Hnoretr|].
      intros [| | | | | |r' ? ? ? ?|]; simpl; try done.
      intros Hr'. destruct (decide (r' = r0)); [by destruct Hr'|done].
    + rewrite Hcalls in Hin. destruct (HF _ _ _ _ Hin) as (? & ? & ?).
      by rewrite Hcalls.
Qed.

Lemma index_lookup {A} (l : list A) (i : Z) x :
  index l i = Some x -> l !! Z.to_nat i = Some x.
Proof. unfold index. by destruct (0 <=? i). Qed.

Lemma exit_not_panic w dbc nodes r p dbN new x :
  round_detail w dbc nodes r p dbN new (Exited x) ->
  rows_ok dbc nodes dbN -> 0 <= p < len nodes -> len nodes <= maxFleet ->
  forall why,
    x = Panicked why ->
    dbc = None /\ why = NilDereference /\
    exists n c e, new = [EvProvide r p n c (Err e)].
Proof.
  intros Hd Hrows Hp Hn why ->.
  destruct (rd_exited _ _ _ _ _ _ _ _ Hd _ eq_refl)
    as [(e & _ & [=])|[(e & _ & [=])|[(ev & e & Hin & Hf & Hx)|
        (why' & _ & Hnot)]]]; [|by destruct Hnot].
  destruct Hx as [[=]|[[=]|(Hdbc & [= ->] & n & c & e' & ->)]].
  split; [done|]. split; [done|]. exists n, c, e'.
  by destruct (rd_provide_failed _ _ _ _ _ _ _ _ Hd _ _ _ _ _ Hin).
Qed.

(** X13: once the Provide of a round has succeeded, and its insert if there
    is a database, a Retrieve call is made on every other node of the fleet,
    also when one of them fails: the error of a goroutine does not keep the
    others from their call. *)
Theorem X13_every_sibling_is_called w dry nodes fuel r p n c pr :
  len nodes <= maxFleet ->
  EvProvide r p n c (Ok pr) ∈ calls (ScheduleAction w dry nodes fuel) ->
  (dry = false ->
   exists id,
     EvInsertProvide r id pr None ∈ calls (ScheduleAction w dry nodes fuel)) ->
  0 <= p < len nodes /\
  omap (retrieve_call r) (calls (ScheduleAction w dry nodes fuel)) ≡ₚ
    (fun i => (p + i + 1) mod len nodes) <$> seqZ 0 (len nodes - 1).
Proof.
  intros Hfleet Hin Hins.
  set (Q := fun tr : list Event =>
              forall r p n c pr,
                EvProvide r p n c (Ok pr) ∈ tr ->
                (dry = false -> exists id, EvInsertProvide r id pr None ∈ tr) ->
                0 <= p < len nodes /\
                omap (retrieve_call r) tr ≡ₚ retrNodes nodes p).
  assert (HQ : Q (calls (ScheduleAction w dry nodes fuel))); cycle 1.
  { destruct (HQ _ _ _ _ _ Hin Hins) as [Hp Hcalls]. split; [done|].
    by rewrite Hcalls, retrNodes_exact. }
  clear Hin Hins. run_cases w dry nodes fuel; simpl in *.
  - intros r1 p1 n1 c1 pr1 Hin. rewrite Forall_forall in Htr.
    by destruct (Htr _ Hin).
  - intros r1 p1 n1 c1 pr1 Hin. destruct Hbt as (Hst & _).
    unfold startup in Hst. rewrite Forall_forall in Hst.
    by specialize (Hst _ Hin).
  - destruct (loop_state_start w dry nodes s) as [Hstate Hprov]; try done.
    assert (Hstep : forall r0 p0 s0 s1 res new,
              loop_state w (dbc_of dry) nodes r0 s0 -> Q (trace s0) ->
              trace s1 = trace s0 ++ new ->
              round_detail w (dbc_of dry) nodes r0 p0 (dbNodes s0) new res ->
              Q (trace s1)).
    { intros r0 p0 s0 s1 res new (Hrows' & _ & _ & _ & _ & Hbefore) HQ0
        Htr' Hd r1 p1 n1 c1 pr1 Hin Hins.
      pose proof (rd_round _ _ _ _ _ _ _ _ Hd) as Hround.
      rewrite Forall_forall in Hround.
      unfold before_round in Hbefore. rewrite Forall_forall in Hbefore.
      rewrite Htr' in Hin. rewrite Htr', omap_app.
      apply elem_of_app in Hin as [Hin|Hin].
      - pose proof (Hbefore _ Hin r1 eq_refl) as Hlt.
        destruct (no_round_omap r1 new) as (_ & -> & _).
        { apply (other_no_round r0); [by apply Forall_forall|lia]. }
        rewrite app_nil_r. apply (HQ0 _ _ _ _ _ Hin).
        intros Hdry. destruct (Hins Hdry) as (id & Hid). exists id.
        rewrite Htr' in Hid. apply elem_of_app in Hid as [Hid|Hid]; [done|].
        pose proof (Hround _ Hid) as [= ->]. lia.
      - destruct (rd_provide _ _ _ _ _ _ _ _ Hd _ _ _ _ _ Hin)
          as (-> & -> & Hidx & _).
        apply index_Some in Hidx. split; [done|].
        destruct (no_round_omap r0 (trace s0)) as (_ & -> & _).
        { apply (before_no_round r0); [by apply Forall_forall|lia]. }
        simpl. apply (rd_siblings _ _ _ _ _ _ _ _ Hd _ _ _ _ _ Hin).
        + intros Hdbc. destruct dry; [done|].
          destruct (Hins eq_refl) as (id & Hid). exists id.
          rewrite Htr' in Hid. apply elem_of_app in Hid as [Hid|Hid]; [|done].
          pose proof (Hbefore _ Hid r0 eq_refl). lia.
        + intros why ->.
          destruct (exit_not_panic _ _ _ _ _ _ _ _ Hd Hrows' Hidx Hfleet
                      why eq_refl) as (_ & _ & n' & c' & e' & ->).
          by apply list_elem_of_singleton in Hin. }
    destruct (loop_state_invariant w (dbc_of dry) nodes
                (fun _ _ s => Q (trace s)) (fun _ _ s _ => Q (trace s)))
      with fuel 0%nat 0 s as (s' & Hcalls & HF); try done.
    + intros r0 p0 s0 s1 p1 new Hst _ HQ0 Htr' _ Hd. by eapply Hstep.
    + intros r0 p0 s0 s1 p1 new Hst _ HQ0 Htr' _ Hd. by eapply Hstep.
    + intros r1 p1 n1 c1 pr1 Hin. destruct Hbt as (Hst & _).
      unfold startup in Hst. rewrite Forall_forall in Hst.
      by specialize (Hst _ Hin).
    + by rewrite Hcalls.
Qed.

(** X14: what the database is given is filed under the row of the node it
    came from: a retrieval under the row the database returned, at the
    barrier, for the node the Retrieve call was made on, and a provide under
    the row of the provider. *)
Theorem X14_records_filed_under_their_node w dry nodes fuel :
  (forall r id x res,
     EvInsertRetrieval r id x res ∈ calls (ScheduleAction w dry nodes fuel) ->
     exists rn n cid row runID,
       EvRetrieve r rn n cid (Ok x) ∈ calls (ScheduleAction w dry nodes fuel) /\
       EvInsertNode runID n (Ok row)
         ∈ calls (ScheduleAction w dry nodes fuel) /\
       models.ID row = id) /\
  (forall r id pr res,
     EvInsertProvide r id pr res ∈ calls (ScheduleAction w dry nodes fuel) ->
     exists p n c row runID,
       EvProvide r p n c (Ok pr) ∈ calls (ScheduleAction w dry nodes fuel) /\
       EvInsertNode runID n (Ok row)
         ∈ calls (ScheduleAction w dry nodes fuel) /\
       models.ID row = id).
Proof.
  set (Q := fun tr : list Event =>
              (forall r id x res,
                 EvInsertRetrieval r id x res ∈ tr ->
                 exists rn n cid row runID,
                   EvRetrieve r rn n cid (Ok x) ∈ tr /\
                   EvInsertNode runID n (Ok row) ∈ tr /\
                   models.ID row = id) /\
              (forall r id pr res,
                 EvInsertProvide r id pr res ∈ tr ->
                 exists p n c row runID,
                   EvProvide r p n c (Ok pr) ∈ tr /\
                   EvInsertNode runID n (Ok row) ∈ tr /\
                   models.ID row = id)).
  change (Q (calls (ScheduleAction w dry nodes fuel))).
  assert (Hstart : forall tr, startup tr -> Q tr).
  { intros tr Hst. unfold startup in Hst. rewrite Forall_forall in Hst.
    split; intros ? ? ? ? Hin; by specialize (Hst _ Hin). }
  run_cases w dry nodes fuel; simpl in *.
  - apply Hstart. by destruct (setup_events_startup _ Htr).
  - apply Hstart. by destruct Hbt.
  - destruct (loop_state_start w dry nodes s) as [Hstate Hprov]; try done.
    assert (Hstep : forall r0 p0 s0 s1 res new,
              loop_state w (dbc_of dry) nodes r0 s0 -> Q (trace s0) ->
              trace s1 = trace s0 ++ new ->
              round_detail w (dbc_of dry) nodes r0 p0 (dbNodes s0) new res ->
              Q (trace s1)).
    { intros r0 p0 s0 s1 res new (_ & _ & Hattr' & _) [HQ1 HQ2] Htr' Hd.
      assert (Hrow : forall i n row,
                index nodes i = Some n ->
                index (dbNodes s0) i = Some (Some row) ->
                exists runID, EvInsertNode runID n (Ok row) ∈ trace s0).
      { intros i n row Hn Hrow. apply index_lookup in Hn, Hrow.
        destruct (Hattr' _ _ Hrow) as (n' & runID & Hn' & Hin').
        exists runID. congruence. }
      rewrite Htr'. split.
      - intros r1 id x res1 Hin. apply elem_of_app in Hin as [Hin|Hin].
        + destruct (HQ1 _ _ _ _ Hin) as (rn & n & cid & row & runID & H1 & H2
                                         & H3).
          exists rn, n, cid, row, runID. rewrite !elem_of_app. eauto.
        + pose proof (rd_round _ _ _ _ _ _ _ _ Hd) as Hround.
          rewrite Forall_forall in Hround.
          pose proof (Hround _ Hin) as [= ->].
          destruct (rd_insert_retrieval _ _ _ _ _ _ _ _ Hd _ _ _ _ Hin)
            as (rn & n & cid & row & H1 & H2 & H3 & H4).
          destruct (Hrow _ _ _ H2 H3) as (runID & H5).
          exists rn, n, cid, row, runID. rewrite !elem_of_app. eauto.
      - intros r1 id pr res1 Hin. apply elem_of_app in Hin as [Hin|Hin].
        + destruct (HQ2 _ _ _ _ Hin) as (p & n & c & row & runID & H1 & H2
                                         & H3).
          exists p, n, c, row, runID. rewrite !elem_of_app. eauto.
        + pose proof (rd_round _ _ _ _ _ _ _ _ Hd) as Hround.
          rewrite Forall_forall in Hround.
          pose proof (Hround _ Hin) as [= ->].
          destruct (rd_insert_provide _ _ _ _ _ _ _ _ Hd _ _ _ _ Hin)
            as (n & c & row & H1 & H2 & H3 & H4).
          destruct (Hrow _ _ _ H2 H3) as (runID & H5).
          exists p0, n, c, row, runID. rewrite !elem_of_app. eauto. }
    destruct (loop_state_invariant w (dbc_of dry) nodes
                (fun _ _ s => Q (trace s)) (fun _ _ s _ => Q (trace s)))
      with fuel 0%nat 0 s as (s' & Hcalls & HF); try done.
    + intros r0 p0 s0 s1 p1 new Hst _ HQ0 Htr' _ Hd. by eapply Hstep.
    + intros r0 p0 s0 s1 p1 new Hst _ HQ0 Htr' _ Hd. by eapply Hstep.
    + apply Hstart. by destruct Hbt.
    + by rewrite Hcalls.
Qed.

Lemma faithful_no_failure w dry ev :
  nothing_fails w dry -> faithful w ev -> failure_of ev = None.
Proof.
  intros (_ & Hwait & Hnode & _ & _ & Hprov & Hinsp & Hretr & Hinsr) Hf.
  destruct ev as [| |n res|runID n res|r p n c res|r id pr res
                 |r rn n cid res|r id x res]; simpl in *; try done.
  - destruct Hf as (c & ->). by destruct (Hwait n c) as (? & ->).
  - destruct Hf as (info & c & ->).
    by destruct (Hnode runID n info c) as (? & ->).
  - subst res. by destruct (Hprov r n c) as (? & ->).
  - subst res. by rewrite Hinsp.
  - destruct Hf as (c & ->). by destruct (Hretr r n cid c) as (? & ->).
  - destruct Hf as (c & ->). by rewrite Hinsr.
Qed.

Lemma setup_failure_not w dry e :
  setup_succeeds w dry -> ~ setup_failure w dry e.
Proof.
  intros [Hbuild Hdb] [[Hdry (e' & He' & _)]|[[Hb _]|[Hdry (e' & He' & _)]]].
  - destruct (Hdb Hdry) as [(? & ?) _]. congruence.
  - congruence.
  - destruct (Hdb Hdry) as [_ (? & ?)]. congruence.
Qed.

(** X15: while nothing it calls fails and its context is not cancelled, the
    coordinator neither returns nor dies: it completes round after round. *)
Theorem X15_run_goes_on_while_nothing_fails w dry nodes fuel :
  nothing_fails w dry -> 1 <= len nodes -> len nodes <= maxFleet ->
  exit (ScheduleAction w dry nodes fuel) = None /\
  rounds (ScheduleAction w dry nodes fuel) = fuel.
Proof.
  intros Hok Hn1 Hn2.
  assert (Hn3 : len nodes <= maxInt) by (unfold maxFleet, maxInt in *; lia).
  run_cases w dry nodes fuel; simpl in *.
  - destruct Hok as [Hset _]. by destruct (setup_failure_not _ _ e0 Hset).
  - destruct Hbt as (_ & Hfaith & _). rewrite Forall_forall in Hfaith.
    pose proof (faithful_no_failure _ _ _ Hok (Hfaith _ Hin0)). congruence.
  - destruct (loop_state_start w dry nodes s) as [Hstate Hprov]; try done.
    destruct (loop_going w (dbc_of dry) nodes fuel 0 0 s) as [_ Hgoing].
    destruct (loop_state_invariant w (dbc_of dry) nodes
                (fun _ _ _ => True) (fun _ _ _ x => x = None))
      with fuel 0%nat 0 s as (s' & Hcalls & HF); try done.
    + intros r0 p0 s0 s1 x new (Hrows' & _) Hp0 _ _ _ Hd. exfalso.
      pose proof Hok as (_ & _ & _ & Hctx & Hcont & _).
      assert (Hp : 0 <= p0 < len nodes).
      { rewrite (Hp0 Hn1 Hn3). apply Z.mod_pos_bound. lia. }
      destruct (rd_exited _ _ _ _ _ _ _ _ Hd _ eq_refl)
        as [(e & He & _)|[(e & He & _)|[(ev & e & Hin & Hf & _)|
            (why & _ & Hnot)]]].
      * by rewrite Hctx in He.
      * destruct (Hcont r0) as (? & ?). congruence.
      * pose proof (rd_faithful _ _ _ _ _ _ _ _ Hd) as Hfaith.
        rewrite Forall_forall in Hfaith.
        pose proof (faithful_no_failure _ _ _ Hok (Hfaith _ Hin)).
        congruence.
      * by destruct Hnot.
    + split; [done|]. by rewrite (Hgoing HF).
Qed.

(** X16: the error the coordinator returns is the one that stopped it: a
    failure of the set-up; the error of the cancelled context; the error of
    the random source, wrapped; or the error of a call of its trace, as the
    loop returns it or wrapped by the barrier or by the wait for the
    goroutines of a round. *)
Theorem X16_returned_error_names_its_cause w dry nodes fuel e :
  exit (ScheduleAction w dry nodes fuel) = Some (Returned e) ->
  setup_failure w dry e \/
  Context_Err w (rounds (ScheduleAction w dry nodes fuel)) = Some e \/
  (exists e',
     NewRandomContent w (rounds (ScheduleAction w dry nodes fuel)) = Err e' /\
     e = Errorf_w "new random content" e') \/
  (exists ev e',
     ev ∈ calls (ScheduleAction w dry nodes fuel) /\
     failure_of ev = Some e' /\
     (e = e' \/ e = Errorf_w "waitgroup retrieve" e' \/
      e = Errorf_w "waiting for parsec node APIs" e')).
Proof.
  intros Hexit. run_cases w dry nodes fuel; simpl in *.
  - left. by simplify_eq.
  - right. right. right. simplify_eq. exists ev0, e0. eauto.
  - destruct (loop_state_start w dry nodes s) as [Hstate Hprov]; try done.
    destruct (loop_state_invariant w (dbc_of dry) nodes
                (fun _ _ _ => True)
                (fun r _ s x =>
                   forall e, x = Some (Returned e) ->
                     Context_Err w r = Some e \/
                     (exists e', NewRandomContent w r = Err e' /\
                                 e = Errorf_w "new random content" e') \/
                     (exists ev e',
                        ev ∈ trace s /\ failure_of ev = Some e' /\
                        (e = e' \/ e = Errorf_w "waitgroup retrieve" e'))))
      with fuel 0%nat 0 s as (s' & Hcalls & HF); try done.
    + intros r0 p0 s0 s1 x new _ _ _ Htr' _ Hd e1 [= ->].
      destruct (rd_exited _ _ _ _ _ _ _ _ Hd _ eq_refl)
        as [(e2 & He & [= ->])|[(e2 & He & [= ->])|
            [(ev & e2 & Hin & Hf & Hx)|(why & [=] & _)]]].
      * by left.
      * right. left. eauto.
      * right. right. exists ev, e2. rewrite Htr', elem_of_app.
        split; [by right|]. split; [done|].
        destruct Hx as [[= ->]|[[= ->]|(_ & [=] & _)]]; eauto.
    + destruct (HF _ Hexit) as [H|[H|(ev & e' & H1 & H2 & H3)]].
      * right. by left.
      * right. right. by left.
      * right. right. right. exists ev, e'. rewrite Hcalls.
        split; [done|]. split; [done|]. destruct H3; eauto.
Qed.

(** X17: over a fleet that is not empty the process dies of one thing only:
    in a dry run, of the nil dereference after a failed Provide, which is
    then the last call of the trace. *)
Theorem X17_only_a_dry_failed_provide_panics w dry nodes fuel why :
  1 <= len nodes -> len nodes <= maxFleet ->
  exit (ScheduleAction w dry nodes fuel) = Some (Panicked why) ->
  dry = true /\ why = NilDereference /\
  exists r p n c e,
    last (calls (ScheduleAction w dry nodes fuel)) =
      Some (EvProvide r p n c (Err e)).
Proof.
  intros Hn1 Hn2 Hexit.
  assert (Hn3 : len nodes <= maxInt) by (unfold maxFleet, maxInt in *; lia).
  run_cases w dry nodes fuel; simpl in *; try done.
  destruct (loop_state_start w dry nodes s) as [Hstate Hprov]; try done.
  destruct (loop_state_invariant w (dbc_of dry) nodes
              (fun _ _ _ => True)
              (fun _ _ s x =>
                 forall why, x = Some (Panicked why) ->
                   dry = true /\ why = NilDereference /\
                   exists r p n c e,
                     last (trace s) = Some (EvProvide r p n c (Err e))))
    with fuel 0%nat 0 s as (s' & Hcalls & HF); try done.
  - intros r0 p0 s0 s1 x new (Hrows' & _) Hp0 _ Htr' _ Hd why' [= ->].
    assert (Hp : 0 <= p0 < len nodes).
    { rewrite (Hp0 Hn1 Hn3). apply Z.mod_pos_bound. lia. }
    destruct (exit_not_panic _ _ _ _ _ _ _ _ Hd Hrows' Hp Hn2 why' eq_refl)
      as (Hdbc & -> & n & c & e & ->).
    split; [by destruct dry|]. split; [done|].
    exists r0, p0, n, c, e. by rewrite Htr', last_snoc.
  - rewrite Hcalls. by apply HF.
Qed.

Lemma Wait_nothing {T St} (f : bool -> T -> St -> Step T St) sched k
    (g : Group T St) :
  tasks g = [] -> Wait f sched k g = g.
Proof.
  intros Hg.
  apply (Wait_invariant f (fun g' => g' = g)); [|done].
  intros i g' ->. unfold step_at. destruct (panicked g); [done|].
  by rewrite Hg.
Qed.

(** X18: with no node at all the barrier has nothing to wait for, and the
    first round dies of the index out of range at [nodes[provNode]], before
    any agent or the database is given anything of a round. *)
Theorem X18_empty_fleet_panics w dry fuel content :
  setup_succeeds w dry -> Context_Err w 0 = None ->
  NewRandomContent w 0 = Ok content -> (0 < fuel)%nat ->
  exit (ScheduleAction w dry [] fuel) = Some (Panicked IndexOutOfRange) /\
  rounds (ScheduleAction w dry [] fuel) = 0%nat /\
  Forall (fun ev => ev = EvInitDBClient \/ ev = EvInitRun)
    (calls (ScheduleAction w dry [] fuel)).
Proof.
  intros [Hbuild Hdb] Hctx Hcont Hfuel.
  assert (Hloop : forall dbc s,
            loop w dbc [] fuel 0 0 s =
              mkRun (trace s) 0 0 (Some (Panicked IndexOutOfRange))).
  { intros dbc s. destruct fuel as [|fuel']; [lia|]. simpl.
    unfold round_body. by rewrite Hctx, Hcont. }
  unfold ScheduleAction. destruct dry; simpl.
  - rewrite Hbuild. simpl. unfold spawn_ready. simpl.
    rewrite Wait_nothing by done. simpl. by rewrite Hloop.
  - destruct (Hdb eq_refl) as [(dbc & ->) (dbRun & ->)]. simpl.
    rewrite Hbuild. simpl. unfold spawn_ready. simpl.
    rewrite Wait_nothing by done. simpl. rewrite Hloop. simpl.
    split; [done|]. split; [done|].
    repeat (apply Forall_cons; split; [tauto|]). apply Forall_nil_2.
Qed.

(** X19: once the set-up has succeeded the barrier polls every node of the
    fleet, each exactly once, whatever the polls answer; no later call polls
    again. *)
Theorem X19_barrier_polls_every_node_once w dry nodes fuel :
  setup_succeeds w dry ->
  omap wait_call (calls (ScheduleAction w dry nodes fuel)) ≡ₚ nodes.
Proof.
  intros Hsetup. run_cases w dry nodes fuel; simpl in *.
  - by destruct (setup_failure_not _ _ e0 Hsetup).
  - by destruct Hbt as (_ & _ & ?).
  - destruct (loop_state_start w dry nodes s) as [Hstate Hprov]; try done.
    assert (Hstep : forall r0 p0 s0 s1 res new,
              omap wait_call (trace s0) ≡ₚ nodes ->
              trace s1 = trace s0 ++ new ->
              round_detail w (dbc_of dry) nodes r0 p0 (dbNodes s0) new res ->
              omap wait_call (trace s1) ≡ₚ nodes).
    { intros r0 p0 s0 s1 res new H0 Htr' Hd. rewrite Htr', omap_app.
      rewrite (omap_none wait_call new); [by rewrite app_nil_r|].
      eapply Forall_impl; [apply (rd_round _ _ _ _ _ _ _ _ Hd)|].
      by intros []. }
    destruct (loop_state_invariant w (dbc_of dry) nodes
                (fun _ _ s => omap wait_call (trace s) ≡ₚ nodes)
                (fun _ _ s _ => omap wait_call (trace s) ≡ₚ nodes))
      with fuel 0%nat 0 s as (s' & Hcalls & HF); try done.
    + intros r0 p0 s0 s1 p1 new _ _ H0 Htr' _ Hd. by eapply Hstep.
    + intros r0 p0 s0 s1 p1 new _ _ H0 Htr' _ Hd. by eapply Hstep.
    + by destruct Hbt as (_ & _ & ?).
    + by rewrite Hcalls.
Qed.

(** X20: a node that never becomes ready aborts the start-up: no round is
    started, and the coordinator returns the error of a failed call of the
    barrier, wrapped in "waiting for parsec node APIs". *)
Theorem X20_unready_node_aborts_the_startup w dry nodes fuel n :
  setup_succeeds w dry -> n ∈ nodes ->
  (forall c, exists e, WaitForAPI w n c = Err e) ->
  rounds (ScheduleAction w dry nodes fuel) = 0%nat /\
  startup (calls (ScheduleAction w dry nodes fuel)) /\
  exists ev e,
    ev ∈ calls (ScheduleAction w dry nodes fuel) /\
    failure_of ev = Some e /\
    exit (ScheduleAction w dry nodes fuel) =
      Some (Returned (Errorf_w "waiting for parsec node APIs" e)).
Proof.
  intros Hsetup Hn Hnever. run_cases w dry nodes fuel; simpl in *.
  - by destruct (setup_failure_not _ _ e0 Hsetup).
  - split; [done|]. split; [by destruct Hbt|]. by exists ev0, e0.
  - exfalso. destruct Hbt as (_ & Hfaith & Hwaits).
    rewrite <- Hwaits in Hn.
    apply list_elem_of_omap in Hn as (ev & Hin & Hev).
    rewrite Forall_forall in Hfaith, Hnf.
    pose proof (Hfaith _ Hin) as Hf. pose proof (Hnf _ Hin) as Hok.
    destruct ev as [| |n' res| | | | |]; simpl in *; try done.
    simplify_eq. destruct Hf as (c & ->).
    destruct (Hnever c) as (e & He). by rewrite He in Hok.
Qed.

(** X21: when the set-up fails (the database client or the run cannot be
    had, or the build information cannot be read) the coordinator returns
    that error without contacting a single agent. *)
Theorem X21_failed_setup_contacts_no_agent w dry nodes fuel :
  ~ setup_succeeds w dry ->
  (exists e,
     setup_failure w dry e /\
     exit (ScheduleAction w dry nodes fuel) = Some (Returned e)) /\
  rounds (ScheduleAction w dry nodes fuel) = 0%nat /\
  Forall (fun ev => ev = EvInitDBClient \/ ev = EvInitRun)
    (calls (ScheduleAction w dry nodes fuel)).
Proof.
  intros Hsetup. run_cases w dry nodes fuel; simpl in *; try done.
  split; [|done]. by exists e0.
Qed.

End SchedulerExtra.

(* ===================================================================== *)
(** * The agent's server: the request counter, start and stop *)
(* ===================================================================== *)

Module MiddlewareExtra.
Import Golang Middleware Stdlib.Strings.Ascii.

Lemma cut_pieces s sep :
  Contains (cut s sep).1 sep = false /\
  Forall (fun q => Contains q sep = false) (cut s sep).2.
Proof.
  induction s as [|a s [IH1 IH2]]; simpl; [done|].
  destruct (cut s sep) as [p ps]. simpl in *.
  destruct (decide (a = sep)) as [->|Hne]; simpl.
  - split; [done|]. by constructor.
  - by rewrite decide_False.
Qed.

Lemma cut_plain s sep : Contains s sep = false -> cut s sep = (s, []).
Proof.
  induction s as [|a s IH]; simpl; [done|].
  destruct (decide (a = sep)); [done|]. intros H. by rewrite (IH H).
Qed.

Lemma cut_segment seg rest sep :
  Contains seg sep = false ->
  cut (seg +:+ String sep rest) sep = (seg, Split rest sep).
Proof.
  induction seg as [|a seg IH]; simpl.
  - intros _. unfold Split. destruct (cut rest sep).
    by rewrite decide_True.
  - destruct (decide (a = sep)); [done|]. intros H. by rewrite (IH H).
Qed.

Lemma metric_path_slash s : metric_path (String "/" s) = (cut s "/").1.
Proof.
  unfold metric_path, Split. simpl. destruct (cut s "/") as [q qs]. simpl.
  replace (1 <? Z.of_nat (S (S (length qs)))) with true
    by (symmetry; apply Z.ltb_lt; lia).
  done.
Qed.

(** X22: the path label of the request counter is the first segment of the
    URL path and never holds a slash: every request for [/retrieve/<cid>] is
    counted under ["retrieve"], whatever the content id, so the label does
    not grow with the content.  The default ["-"] is for a path with no
    slash at all; the root path is counted under the empty label. *)
Theorem X22_metric_path_is_the_first_segment :
  (forall p, Contains (metric_path p) "/" = false) /\
  (forall p, Contains p "/" = false -> metric_path p = "-") /\
  (forall seg rest,
     Contains seg "/" = false ->
     metric_path ("/" +:+ seg) = seg /\
     metric_path ("/" +:+ seg +:+ "/" +:+ rest) = seg) /\
  metric_path "/" = "".
Proof.
  split; [|split; [|split]].
  - intros p. unfold metric_path, Split.
    destruct (cut_pieces p "/") as [H1 H2].
    destruct (cut p "/") as [q qs]. simpl in *.
    destruct qs as [|q' qs]; simpl; [done|].
    replace (1 <? Z.of_nat (S (S (length qs)))) with true
      by (symmetry; apply Z.ltb_lt; lia).
    simpl. by apply Forall_cons in H2 as [? _].
  - intros p Hp. unfold metric_path, Split. by rewrite (cut_plain p "/" Hp).
  - intros seg rest Hseg. split.
    + change ("/" +:+ seg) with (String "/" seg).
      by rewrite metric_path_slash, cut_plain.
    + change ("/" +:+ seg +:+ "/" +:+ rest)
        with (String "/" (seg +:+ String "/" rest)).
      by rewrite metric_path_slash, cut_segment.
  - done.
Qed.

End MiddlewareExtra.

Module LifecycleExtra.
Import Golang errgroup errgroupFacts Lifecycle.

Lemma errOnce_inv' old new e :
  errOnce old new = Some e -> old = Some e \/ (old = None /\ new = Some e).
Proof. destruct old; simpl; [left|right]; by simplify_eq. Qed.

Lemma count_app p tr1 tr2 : count p (tr1 ++ tr2) = (count p tr1 + count p tr2)%nat.
Proof. unfold count. by rewrite filter_app, length_app. Qed.

Lemma count_one p c :
  count p [c] = if p c then 1%nat else 0%nat.
Proof.
  unfold count. rewrite filter_cons. by destruct (p c).
Qed.

Lemma connect_all_app w tr :
  connect_all w tr =
    tr ++ ((fun bp => CallConnect bp (Connect w bp))
             <$> GetDefaultBootstrapPeerAddrInfos w).
Proof.
  unfold connect_all. revert tr.
  induction (GetDefaultBootstrapPeerAddrInfos w) as [|bp l IH]; intros tr;
    simpl; [by rewrite app_nil_r|].
  by rewrite IH, <- app_assoc.
Qed.

Lemma count_connects w p :
  (forall bp res, p (CallConnect bp res) = false) ->
  count p ((fun bp => CallConnect bp (Connect w bp))
             <$> GetDefaultBootstrapPeerAddrInfos w) = 0%nat.
Proof.
  intros Hp. induction (GetDefaultBootstrapPeerAddrInfos w) as [|bp l IH];
    [done|].
  rewrite fmap_cons.
  change (count p ([CallConnect bp (Connect w bp)] ++
                   ((fun bp => CallConnect bp (Connect w bp)) <$> l)) = 0%nat).
  by rewrite count_app, count_one, Hp, IH.
Qed.

(** X23: [NewServer] cancels the context it made exactly when it fails, and
    then as its last call; a server that is returned holds a context that
    is still live. *)
Theorem X23_NewServer_cancels_exactly_when_it_fails w conf :
  count is_cancel (NewServer w conf).1 =
    match (NewServer w conf).2 with Err _ => 1%nat | Ok _ => 0%nat end /\
  (forall e, (NewServer w conf).2 = Err e ->
             last (NewServer w conf).1 = Some CallCancel).
Proof.
  unfold NewServer.
  destruct (firehose_NewClient w) as [e|]; [by split|].
  destruct (dht_New w) as [h|e]; [|by split].
  rewrite connect_all_app.
  set (base := [CallNewFirehose; CallNewHost; CallSetHost] ++ _).
  assert (Hc : count is_cancel base = 0%nat).
  { subst base. by rewrite count_app, count_connects. }
  destruct (InsertNode w h) as [row|e].
  - destruct (FirehoseConnectionEvents conf); cbn [fst snd];
      (split; [|done]); rewrite ?count_app, Hc; done.
  - cbn [fst snd]. split.
    + by rewrite count_app, Hc.
    + intros _ _. rewrite cons_middle, app_assoc. apply last_snoc.
Qed.

Lemma omap_connects w :
  omap connect_call
    ((fun bp => CallConnect bp (Connect w bp))
       <$> GetDefaultBootstrapPeerAddrInfos w) =
  (fun bp => (bp, Connect w bp)) <$> GetDefaultBootstrapPeerAddrInfos w.
Proof.
  induction (GetDefaultBootstrapPeerAddrInfos w) as [|bp l IH]; [done|].
  csimpl. by rewrite IH.
Qed.

(** X24: a bootstrap peer that cannot be reached does not fail the start.
    Once the firehose client and the host are there, [NewServer] dials every
    default bootstrap peer once, in order, whatever the dials before
    answered; and whether it returns a server or an error, and which, does
    not depend on what the dials answer. *)
Theorem X24_unreachable_bootstrap_peers_are_not_fatal w conf f h :
  firehose_NewClient w = None -> dht_New w = Ok h ->
  omap connect_call (NewServer w conf).1 =
    (fun bp => (bp, Connect w bp)) <$> GetDefaultBootstrapPeerAddrInfos w /\
  (NewServer (with_Connect f w) conf).2 = (NewServer w conf).2.
Proof.
  intros Hfh Hhost. unfold NewServer. simpl. rewrite Hfh, Hhost.
  rewrite !connect_all_app. split.
  - destruct (InsertNode w h) as [row|e];
      [destruct (FirehoseConnectionEvents conf)|]; cbn [fst snd];
      rewrite !omap_app, omap_connects; csimpl; by rewrite ?app_nil_r.
  - destruct (InsertNode w h) as [row|e];
      [by destruct (FirehoseConnectionEvents conf)|done].
Qed.

(** ** The goroutines of [Shutdown] *)

Section Stop.
Variable w : World.
Variable s : Server.

Lemma stop_inv_step n i g :
  stop_inv w s n g -> stop_inv w s n (step_at (stop_task w s) i g).
Proof.
  intros (Hp & (slot0 & slot1 & Htasks & H0 & H1 & Hsrv & Hhost & Herr)
          & Hhd & Hupd & Hcan).
  unfold step_at. rewrite Hp, Htasks.
  assert (Hhd' : forall c, hd_error (shared g ++ [c]) = Some CallStopNotify).
  { intros c. destruct (shared g); by simplify_eq. }
  assert (Hsame : stop_inv w s n g).
  { split; [done|]. split; [|done]. by exists slot0, slot1. }
  destruct i as [|[|i]]; simpl; [| |exact Hsame].
  - destruct H0 as [->| ->]; [|exact Hsame].
    assert (Herr' : stop_err w s None slot1
                      (errOnce (err g) (server_result w s))).
    { destruct H1 as [->| ->]; simpl in *; rewrite Herr; [done|by right]. }
    unfold server_result, stop_task in *. destruct (server s) eqn:Hs.
    + refine (conj eq_refl (conj _ (conj (Hhd' _) (conj _ _))));
        cbn [shared tasks err].
      * exists None, slot1. rewrite !count_app, !count_one, Hsrv, Hhost.
        simpl. rewrite Nat.add_0_r, Hs. repeat split; try done. by right.
      * by rewrite count_app, Hupd.
      * by rewrite count_app, Hcan.
    + refine (conj eq_refl (conj _ (conj Hhd (conj Hupd Hcan)))).
      cbn [shared tasks err].
      exists None, slot1. rewrite Hs. repeat split; try done. by right.
  - destruct H1 as [->| ->]; [|exact Hsame].
    assert (Herr' : stop_err w s slot0 None
                      (errOnce (err g) (host_Close w))).
    { destruct H0 as [->| ->]; simpl in *; rewrite Herr; [done|by left]. }
    unfold stop_task.
    refine (conj eq_refl (conj _ (conj (Hhd' _) (conj _ _))));
      cbn [shared tasks err].
    + exists slot0, None. rewrite !count_app, !count_one, Hsrv, Hhost.
      simpl. rewrite Nat.add_0_r. repeat split; try done. by right.
    + by rewrite count_app, Hupd.
    + by rewrite count_app, Hcan.
Qed.

Lemma deferred_update tr :
  deferred w s tr = tr ++ [CallUpdateOfflineSince (models.ID (dbNode s))].
Proof. unfold deferred. by destruct (UpdateOfflineSince w). Qed.

(** [Shutdown] from [errg.Go] to the return of [errg.Wait]. *)
Lemma Shutdown_group :
  exists g,
    stop_inv w s 1 g /\ tasks g = [None; None] /\
    Shutdown w s =
      match err g with
      | Some err =>
          (deferred w s (shared g),
           Returns (Some (Errorf_w "shutting down" err)))
      | None =>
          match selected w with
          | SelDone => (deferred w s (shared g), Returns None)
          | SelCtxDone err => (deferred w s (shared g), Returns (Some err))
          | SelNever => (shared g, Blocks)
          end
      end.
Proof.
  unfold Shutdown.
  set (g0 := Go THostClose
               (Go TServerShutdown (mkGroup [] None None [CallStopNotify]))).
  assert (H0 : stop_inv w s 0 g0).
  { split; [done|]. split; [|done].
    exists (Some TServerShutdown), (Some THostClose).
    split; [done|]. split; [by left|]. split; [by left|]. done. }
  set (g1 := run (stop_task w s) (sched_before w) g0).
  assert (H1 : stop_inv w s 0 g1).
  { apply (run_invariant (stop_task w s) (stop_inv w s 0)); [|done].
    intros i g. apply stop_inv_step. }
  set (g2 := mkGroup (tasks g1) (err g1) (panicked g1)
               (shared g1 ++ [CallCancel])).
  assert (H2 : stop_inv w s 1 g2).
  { destruct H1 as (Hp & (slot0 & slot1 & Htasks & Hs0 & Hs1 & Hsrv & Hhost
                          & Herr) & Hhd & Hupd & Hcan).
    subst g2. refine (conj Hp (conj _ (conj _ (conj _ _))));
      cbn [shared tasks err].
    - exists slot0, slot1. rewrite !count_app, !count_one, Hsrv, Hhost.
      simpl. rewrite !Nat.add_0_r. by repeat split.
    - destruct (shared g1); by simplify_eq.
    - by rewrite count_app, Hupd.
    - by rewrite count_app, Hcan. }
  set (g3 := Wait (stop_task w s) (sched_after w) 1 g2).
  assert (H3 : stop_inv w s 1 g3).
  { apply (Wait_invariant (stop_task w s) (stop_inv w s 1)); [|done].
    intros i g. apply stop_inv_step. }
  exists g3. split; [done|]. split; [|done].
  pose proof H3 as (Hp & _).
  assert (Hnoyield : forall c t tr t' tr',
            stop_task w s c t tr = Yield t' tr' -> (0 < 0)%nat).
  { intros c t tr t' tr'. unfold stop_task.
    destruct t; [by destruct (server s)|done]. }
  assert (Hbound : forall t : StopTask, (0 < 1)%nat) by (intros; lia).
  pose proof (Wait_all_returned (stop_task w s) (fun _ => 0%nat) Hnoyield
                1%nat Hbound (sched_after w) g2 Hp) as Hall.
  fold g3 in Hall. rewrite Hall.
  destruct H2 as (_ & (slot0 & slot1 & -> & _) & _). done.
Qed.

End Stop.

Lemma stop_inv_ended w s g e :
  stop_inv w s 1 g -> tasks g = [None; None] ->
  (err g = None <-> server_stopped w s /\ host_Close w = None) /\
  (err g = Some e ->
   (server s = true /\ server_Shutdown w = Some e) \/ host_Close w = Some e).
Proof.
  intros (_ & (slot0 & slot1 & Htasks & _ & _ & _ & _ & Herr) & _) Hended.
  rewrite Htasks in Hended. simplify_eq. simpl in Herr.
  unfold server_stopped, server_result in *.
  destruct (server s), (server_Shutdown w) as [e0|], (host_Close w) as [e1|];
    simpl in *; destruct Herr as [-> | ->];
    (split; [split; [by intros ?|by intros [? ?]]|]); intros ?; simplify_eq;
    eauto.
Qed.

(** X25: [Shutdown] stops everything once, whatever fails and however the
    goroutines are scheduled: it first takes the server off the network's
    notifications, closes the libp2p host once and cancels the server's
    context once also when stopping the HTTP server fails, and stops the
    HTTP server once exactly when there is one. *)
Theorem X25_Shutdown_stops_everything_once w s :
  hd_error (Shutdown w s).1 = Some CallStopNotify /\
  count is_host_close (Shutdown w s).1 = 1%nat /\
  count is_cancel (Shutdown w s).1 = 1%nat /\
  count is_server_shutdown (Shutdown w s).1 =
    if server s then 1%nat else 0%nat.
Proof.
  destruct (Shutdown_group w s) as (g & Hinv & Hended & ->).
  pose proof Hinv as (_ & (slot0 & slot1 & Htasks & _ & _ & Hsrv & Hhost & _)
                      & Hhd & _ & Hcan).
  rewrite Htasks in Hended. simplify_eq.
  assert (Hdef : hd_error (deferred w s (shared g)) = Some CallStopNotify /\
                 count is_host_close (deferred w s (shared g)) = 1%nat /\
                 count is_cancel (deferred w s (shared g)) = 1%nat /\
                 count is_server_shutdown (deferred w s (shared g)) =
                   if server s then 1%nat else 0%nat).
  { rewrite deferred_update, !count_app, !count_one, Hsrv, Hhost, Hcan.
    simpl. rewrite !Nat.add_0_r. split; [|done].
    destruct (shared g); by simplify_eq. }
  destruct (err g); [done|]. by destruct (selected w).
Qed.

(** X26: whenever [Shutdown] returns, updating the offline timestamp is its
    last call, made once, and what the update answers changes nothing.  It
    returns nil exactly when both stops succeeded and [s.done] was closed
    first; an error of a stop comes back wrapped in "shutting down"; with
    both stops done it returns the error of the context if that ends first,
    and if neither happens it waits for ever, without the update. *)
Theorem X26_Shutdown_result w s :
  match (Shutdown w s).2 with
  | Returns r =>
      last (Shutdown w s).1 =
        Some (CallUpdateOfflineSince (models.ID (dbNode s))) /\
      count is_update (Shutdown w s).1 = 1%nat /\
      (r = None <->
       server_stopped w s /\ host_Close w = None /\ selected w = SelDone) /\
      (forall e,
         r = Some e ->
         (exists e',
            e = Errorf_w "shutting down" e' /\
            ((server s = true /\ server_Shutdown w = Some e') \/
             host_Close w = Some e')) \/
         (server_stopped w s /\ host_Close w = None /\
          selected w = SelCtxDone e))
  | Blocks =>
      count is_update (Shutdown w s).1 = 0%nat /\
      server_stopped w s /\ host_Close w = None /\ selected w = SelNever
  end /\
  (forall res, Shutdown (with_UpdateOfflineSince res w) s = Shutdown w s).
Proof.
  split; cycle 1.
  { intros res. unfold Shutdown, deferred. simpl.
    by destruct (UpdateOfflineSince w), res. }
  destruct (Shutdown_group w s) as (g & Hinv & Hended & ->).
  pose proof Hinv as (_ & _ & _ & Hupd & _).
  assert (Hdef : last (deferred w s (shared g)) =
                   Some (CallUpdateOfflineSince (models.ID (dbNode s))) /\
                 count is_update (deferred w s (shared g)) = 1%nat).
  { rewrite deferred_update, last_snoc, count_app, count_one, Hupd. done. }
  destruct Hdef as [Hlast Hone].
  destruct (err g) as [e|] eqn:Ee.
  - destruct (stop_inv_ended w s g e Hinv Hended) as [Hnone Hsome].
    cbn [fst snd]. split; [done|]. split; [done|]. split.
    + split; [done|]. intros (H1 & H2 & _).
      destruct Hnone as [_ Hnone]. by rewrite Hnone in Ee.
    + intros e' [= <-]. left. exists e. split; [done|]. by apply Hsome.
  - destruct (stop_inv_ended w s g (errorString "") Hinv Hended)
      as [[Hnone _] _].
    destruct (Hnone Ee) as [H1 H2].
    destruct (selected w) as [|e|] eqn:Hsel; cbn [fst snd].
    + split; [done|]. split; [done|]. split; [done|]. by intros e [=].
    + split; [done|]. split; [done|]. split.
      * split; [done|]. by intros (_ & _ & [=]).
      * intros e' [= <-]. by right.
    + done.
Qed.

End LifecycleExtra.

(* ===================================================================== *)
(** * The further properties at concrete surroundings *)
(* ===================================================================== *)

Module AgentWitnesses.
Import Golang Examples MoreExamples.
Import ServerInv ServerExtra ClientExtra.

Local Abbreviation handler env := (Server.retrieve tagIPNI tagDHT env).

(** An empty content id is turned away with 400 and nothing else happens. *)
Lemma X1_rejected_request_untouched_witness :
  (handler env_strict server0 rw0 (request "DHT") "").1 = server0 /\
  Server.body (handler env_strict server0 rw0 (request "DHT") "").2 = "" /\
  Server.status (handler env_strict server0 rw0 (request "DHT") "").2 =
    Some Server.StatusBadRequest.
Proof.
  apply (X1_rejected_request_untouched tagIPNI tagDHT env_strict server0 rw0
           (request "DHT") ""); reflexivity.
Defined.

Lemma X2_status_200_iff_parsed_witness :
  Server.status (handler env_strict server0 rw0 (request "DHT") "").2 =
    Some Server.StatusOK <->
  parse env_strict (request "DHT") "" <> None.
Proof.
  apply (X2_status_200_iff_parsed tagIPNI tagDHT env_strict server0 rw0
           (request "DHT") ""); reflexivity.
Defined.

Lemma X3_one_sample_agrees_with_response_witness :
  exists resp,
    Server.CID resp = "bafy" /\
    Server.RoutingTableSize_ resp = 42 /\
    Server.Duration_ resp = 250 /\
    Server.latencies
      (handler env_nothing server0 rw0 (request "DHT") "bafy").1 =
      [Server.mkObservation "retrieval_ttfpr" "DHT"
         (bool_decide (Server.Error_ resp = "")) "scheduler-1"
         (Server.Duration_ resp)] /\
    (forall js,
       Server.json_Marshal env_nothing resp = Ok js ->
       Server.status rw0 = None -> Server.body rw0 = "" ->
       Server.broken rw0 = false ->
       (handler env_nothing server0 rw0 (request "DHT") "bafy").2 =
         Server.mkResponseWriter (Some Server.StatusOK) js false).
Proof.
  apply (X3_one_sample_agrees_with_response tagIPNI tagDHT env_nothing
           server0 rw0 (request "DHT") "bafy" (Server.mkRetrieveRequest "DHT")
           "bafy"); reflexivity.
Defined.

Lemma X4_one_lookup_per_request_witness :
  exists post,
    Server.calls (handler env_nothing server0 rw0 (request "IPNI") "bafy").1 =
      Server.CallIndexerLookup "bafy" :: post /\
    Forall (fun c => ~ is_lookup c) post.
Proof.
  apply (X4_one_lookup_per_request tagIPNI tagDHT env_nothing server0 rw0
           (request "IPNI") "bafy" (Server.mkRetrieveRequest "IPNI") "bafy");
    reflexivity.
Defined.

(** The provider found is forgotten; a peer dialled before is kept. *)
Lemma X5_forgets_only_the_found_provider_witness :
  let h := dialled "QmProvider" (dialled "QmOther" empty_host) in
  let s := Server.mkServer (dialled "QmOther" empty_host) [] [] in
  let s' := (handler env_found s rw0 (request "DHT") "bafy").1 in
  Server.RoutingTableSize (Server.host s') = Server.RoutingTableSize h /\
  ("QmOther" ∈ Server.conns (Server.host s') <-> "QmOther" ∈ Server.conns h) /\
  ("QmOther" ∈ Server.peers (Server.host s') <-> "QmOther" ∈ Server.peers h) /\
  Server.addrs (Server.host s') !! "QmOther" = Server.addrs h !! "QmOther" /\
  exists new,
    Server.calls s' = Server.calls s ++ new /\
    (Server.CallClosePeer "QmOther" ∉ new) /\
    (Server.CallRemovePeer "QmOther" ∉ new) /\
    (Server.CallClearAddrs "QmOther" ∉ new).
Proof.
  apply (X5_forgets_only_the_found_provider tagIPNI tagDHT env_found
           (Server.mkServer (dialled "QmOther" empty_host) [] []) rw0
           (request "DHT") "bafy" (Server.mkRetrieveRequest "DHT") "bafy"
           "QmOther"); [reflexivity|].
  right. right. discriminate.
Defined.



End AgentWitnesses.

Module CoordinatorWitnesses.
Import Golang errgroup Scheduler SchedulerInv FailureInv Examples MoreExamples.
Import SchedulerExtra.

Ltac called i := apply (list_elem_of_lookup_2 _ i); vm_compute; reflexivity.

(** Node 12 refuses the retrieval of round 0: the run ends in round 0. *)
Lemma X9_failed_call_ends_the_run_witness :
  exit (ScheduleAction world_retrieve_fails false fleet 2) <> None /\
  rounds (ScheduleAction world_retrieve_fails false fleet 2) = 0%nat.
Proof.
  apply (X9_failed_call_ends_the_run world_retrieve_fails false fleet 2
           (EvRetrieve 0 2 12%nat "bafy"
              (Err (errorString "connection refused"))));
    [called 10%nat|discriminate].
Defined.

Lemma X10_cancellation_stops_the_loop_witness :
  (rounds (ScheduleAction world_cancelled true fleet 5) <= 2)%nat /\
  exit (ScheduleAction world_cancelled true fleet 5) <> None /\
  (forall r', (2 <= r')%nat ->
              no_round r' (calls (ScheduleAction world_cancelled true fleet 5)))
  /\
  ((0 < 2)%nat -> rounds (ScheduleAction world_cancelled true fleet 5) = 2%nat ->
   exit (ScheduleAction world_cancelled true fleet 5) =
     Some (Returned (errorString "context canceled"))).
Proof.
  apply (X10_cancellation_stops_the_loop world_cancelled true fleet 5 2
           (errorString "context canceled")); [reflexivity|lia].
Defined.

Lemma X11_failed_provide_ends_the_run_witness :
  rounds (ScheduleAction world_provide_fails true fleet 5) = 1%nat /\
  last (calls (ScheduleAction world_provide_fails true fleet 5)) =
    Some (EvProvide 1 1 11%nat content0
            (Err (errorString "connection refused"))) /\
  omap (retrieve_call 1)
    (calls (ScheduleAction world_provide_fails true fleet 5)) = [] /\
  exit (ScheduleAction world_provide_fails true fleet 5) =
    Some (Panicked NilDereference).
Proof.
  apply (X11_failed_provide_ends_the_run world_provide_fails true fleet 5
           1 1 11%nat content0 (errorString "connection refused")).
  called 6%nat.
Defined.

Lemma X12_failed_insert_provide_ends_the_run_witness :
  rounds (ScheduleAction world_insert_fails false fleet 5) = 0%nat /\
  omap (retrieve_call 0)
    (calls (ScheduleAction world_insert_fails false fleet 5)) = [] /\
  exit (ScheduleAction world_insert_fails false fleet 5) =
    Some (Returned
            (wrapError "insert provide" (errorString "connection reset"))).
Proof.
  apply (X12_failed_insert_provide_ends_the_run world_insert_fails false
           fleet 5 0 10 provided (errorString "connection reset")).
  called 9%nat.
Defined.

(** Node 12 fails first, and node 11 is still called. *)
Lemma X13_every_sibling_is_called_witness :
  0 <= 0 < len fleet /\
  omap (retrieve_call 0)
    (calls (ScheduleAction world_retrieve_fails false fleet 2)) ≡ₚ
    (fun i => (0 + i + 1) mod len fleet) <$> seqZ 0 (len fleet - 1).
Proof.
  apply (X13_every_sibling_is_called world_retrieve_fails false fleet 2
           0 0 10%nat content0 provided).
  - vm_compute. discriminate.
  - called 8%nat.
  - intros _. exists 10. called 9%nat.
Defined.

Lemma X14_records_filed_under_their_node_witness :
  exists rn n cid row runID,
    EvRetrieve 0 rn n cid (Ok retrieved)
      ∈ calls (ScheduleAction world_retrieve_fails false fleet 2) /\
    EvInsertNode runID n (Ok row)
      ∈ calls (ScheduleAction world_retrieve_fails false fleet 2) /\
    models.ID row = 11.
Proof.
  apply (proj1 (X14_records_filed_under_their_node world_retrieve_fails false
                  fleet 2) 0%nat 11 retrieved None).
  called 12%nat.
Defined.

Lemma X15_run_goes_on_while_nothing_fails_witness :
  exit (ScheduleAction world_ok false fleet 7) = None /\
  rounds (ScheduleAction world_ok false fleet 7) = 7%nat.
Proof.
  apply (X15_run_goes_on_while_nothing_fails world_ok false fleet 7).
  - repeat split; intros; simpl; eauto.
  - vm_compute. discriminate.
  - vm_compute. discriminate.
Defined.

Lemma X16_returned_error_names_its_cause_witness :
  let run := ScheduleAction world_retrieve_fails true fleet 2 in
  let e := wrapError "waitgroup retrieve"
             (wrapError "api retrieve" (errorString "connection refused")) in
  setup_failure world_retrieve_fails true e \/
  Context_Err world_retrieve_fails (rounds run) = Some e \/
  (exists e',
     NewRandomContent world_retrieve_fails (rounds run) = Err e' /\
     e = Errorf_w "new random content" e') \/
  (exists ev e',
     ev ∈ calls run /\ failure_of ev = Some e' /\
     (e = e' \/ e = Errorf_w "waitgroup retrieve" e' \/
      e = Errorf_w "waiting for parsec node APIs" e')).
Proof.
  apply (X16_returned_error_names_its_cause world_retrieve_fails true fleet 2).
  reflexivity.
Defined.

Lemma X17_only_a_dry_failed_provide_panics_witness :
  true = true /\ NilDereference = NilDereference /\
  exists r p n c e,
    last (calls (ScheduleAction world_provide_fails true fleet 5)) =
      Some (EvProvide r p n c (Err e)).
Proof.
  apply (X17_only_a_dry_failed_provide_panics world_provide_fails true fleet 5
           NilDereference).
  - vm_compute. discriminate.
  - vm_compute. discriminate.
  - reflexivity.
Defined.

Lemma X18_empty_fleet_panics_witness :
  exit (ScheduleAction world_ok false [] 3) =
    Some (Panicked IndexOutOfRange) /\
  rounds (ScheduleAction world_ok false [] 3) = 0%nat /\
  Forall (fun ev => ev = EvInitDBClient \/ ev = EvInitRun)
    (calls (ScheduleAction world_ok false [] 3)).
Proof.
  apply (X18_empty_fleet_panics world_ok false 3 content0).
  - split; [reflexivity|]. intros _. split; eexists; reflexivity.
  - reflexivity.
  - reflexivity.
  - lia.
Defined.

Lemma X19_barrier_polls_every_node_once_witness :
  omap wait_call (calls (ScheduleAction world_unready false fleet 5)) ≡ₚ fleet.
Proof.
  apply (X19_barrier_polls_every_node_once world_unready false fleet 5).
  split; [reflexivity|]. intros _. split; eexists; reflexivity.
Defined.

Lemma X20_unready_node_aborts_the_startup_witness :
  rounds (ScheduleAction world_unready false fleet 5) = 0%nat /\
  startup (calls (ScheduleAction world_unready false fleet 5)) /\
  exists ev e,
    ev ∈ calls (ScheduleAction world_unready false fleet 5) /\
    failure_of ev = Some e /\
    exit (ScheduleAction world_unready false fleet 5) =
      Some (Returned (Errorf_w "waiting for parsec node APIs" e)).
Proof.
  apply (X20_unready_node_aborts_the_startup world_unready false fleet 5
           11%nat).
  - split; [reflexivity|]. intros _. split; eexists; reflexivity.
  - apply (list_elem_of_lookup_2 _ 1%nat). reflexivity.
  - intros c. eexists. reflexivity.
Defined.

Lemma X21_failed_setup_contacts_no_agent_witness :
  (exists e,
     setup_failure world_no_build false e /\
     exit (ScheduleAction world_no_build false fleet 5) = Some (Returned e)) /\
  rounds (ScheduleAction world_no_build false fleet 5) = 0%nat /\
  Forall (fun ev => ev = EvInitDBClient \/ ev = EvInitRun)
    (calls (ScheduleAction world_no_build false fleet 5)).
Proof.
  apply (X21_failed_setup_contacts_no_agent world_no_build false fleet 5).
  intros [Hbuild _]. discriminate Hbuild.
Defined.

End CoordinatorWitnesses.

Module ServerLifeWitnesses.
Import Golang Examples MoreExamples Middleware Lifecycle.
Import MiddlewareExtra LifecycleExtra.

(** Every retrieval is counted under ["retrieve"]. *)
Lemma X22_metric_path_is_the_first_segment_witness :
  metric_path ("/" +:+ "retrieve") = "retrieve" /\
  metric_path ("/" +:+ "retrieve" +:+ "/" +:+ "bafy") = "retrieve".
Proof.
  apply (proj1 (proj2 (proj2 X22_metric_path_is_the_first_segment))
           "retrieve" "bafy").
  reflexivity.
Defined.

(** The second bootstrap peer times out and the server is built all the
    same. *)
Lemma X24_unreachable_bootstrap_peers_are_not_fatal_witness :
  omap connect_call (NewServer life conf0).1 =
    [("QmBoot1", None); ("QmBoot2", Some (errorString "dial timeout"))] /\
  (NewServer (with_Connect (fun _ => None) life) conf0).2 =
    (NewServer life conf0).2.
Proof.
  apply (X24_unreachable_bootstrap_peers_are_not_fatal life conf0
           (fun _ => None) "QmAgent"); reflexivity.
Defined.

End ServerLifeWitnesses.
